(** * mp4_to_ascii: the HD ASCII video player of [app.py]

    A shallow embedding of [HDAsciiPlayer] (terminal size, glyph mapping,
    frame conversion, ordered batch conversion, curses playback loop) and
    of the script's entry point, with the properties stated about them. *)

From Stdlib Require Import ZArith NArith List Lia Bool Ascii String.
From Stdlib.Strings Require Import Byte.
From Stdlib Require Import SpecFloat Decimal DecimalString.
From stdpp Require Import base tactics option list numbers.

Local Open Scope Z_scope.

(** ** Python values *)

(** A Python [str] is a sequence of Unicode code points. *)
Definition char := N.
Definition str := list char.

(** An ASCII literal of the source as a [str]. *)
Definition lit (s : string) : str := map N_of_ascii (list_ascii_of_string s).

Definition ord (c : char) : Z := Z.of_N c.

(** [str(n)] / [f"{n}"] of an integer. *)
Definition str_of_int (n : Z) : str := lit (NilZero.string_of_int (Z.to_int n)).

(** The exceptions the program can meet. [KeyboardInterrupt] and
    [SystemExit] derive from [BaseException] only; the others from
    [Exception]. *)
Inductive exn :=
| CursesError
| Cv2Error
| OSError
| IndexError
| OverflowError
| ValueError
| KeyboardInterrupt
| SystemExit (code : Z).

Definition is_Exception (e : exn) : bool :=
  match e with
  | KeyboardInterrupt | SystemExit _ => false
  | _ => true
  end.

Definition is_curses_error (e : exn) : bool :=
  match e with CursesError => true | _ => false end.

(** The outcome of evaluating a Python expression or statement. *)
Inductive pyres (A : Type) :=
| Ret (a : A)
| Raise (e : exn).
Arguments Ret {A} a.
Arguments Raise {A} e.

(** [s[i]] on a sequence: negative indices count from the end,
    anything outside [-len, len) raises [IndexError]. *)
Definition py_index {A} (s : list A) (i : Z) : pyres A :=
  let n := Z.of_nat (length s) in
  let j := if i <? 0 then i + n else i in
  if (0 <=? j) && (j <? n) then
    match s !! Z.to_nat j with
    | Some c => Ret c
    | None => Raise IndexError
    end
  else Raise IndexError.

(** [s[:k]]: a negative bound counts from the end, bounds are clipped. *)
Definition py_slice_to {A} (s : list A) (k : Z) : list A :=
  if k <? 0 then take (Z.to_nat (Z.of_nat (length s) + k)) s
  else take (Z.to_nat k) s.

(** [range(n)] *)
Definition py_range (n : Z) : list Z := map Z.of_nat (seq 0 (Z.to_nat n)).

(** The line boundaries of [str.splitlines]. *)
Definition is_linebreak (c : char) : bool :=
  match c with
  | 10 | 11 | 12 | 13 | 28 | 29 | 30 | 133 | 8232 | 8233 => true
  | _ => false
  end%N.

(** [s.splitlines()]: the line boundaries are dropped, a carriage return
    directly followed by a line feed counts as one boundary, and no empty
    last line is produced after a final boundary. *)
Definition starts_with_lf (s : str) : bool :=
  match s with
  | c :: _ => (c =? 10)%N
  | [] => false
  end.

Fixpoint splitlines (s : str) : list str :=
  match s with
  | [] => []
  | c :: s' =>
      if (c =? 13)%N && starts_with_lf s' then splitlines s'
      else if is_linebreak c then [] :: splitlines s'
      else match splitlines s' with
           | [] => [[c]]
           | l :: ls => (c :: l) :: ls
           end
  end.

(** [s.endswith(suffix)] *)
Definition endswith (s suffix : str) : bool :=
  bool_decide (drop (length s - length suffix)%nat s = suffix).

(** Comparison of two [str] by code points, as [sorted] uses it. *)
Fixpoint str_leb (a b : str) : bool :=
  match a, b with
  | [], _ => true
  | _ :: _, [] => false
  | x :: a', y :: b' =>
      if (x <? y)%N then true
      else if (y <? x)%N then false
      else str_leb a' b'
  end.

Fixpoint insert_sorted (x : str) (l : list str) : list str :=
  match l with
  | [] => [x]
  | y :: l' => if str_leb x y then x :: l else y :: insert_sorted x l'
  end.

(** [sorted(l)] on a list of [str]. *)
Definition sorted (l : list str) : list str := foldr insert_sorted [] l.

(** ** IEEE 754 binary64, the [float] of Python and NumPy *)

Module Float64.
Definition prec : Z := 53.
Definition emax : Z := 1024.

(** Conversion of an integer, rounding to nearest even. *)
Definition of_int (n : Z) : spec_float := binary_normalize prec emax n 0 false.

Definition mul : spec_float -> spec_float -> spec_float := SFmul prec emax.
Definition div : spec_float -> spec_float -> spec_float := SFdiv prec emax.

(** The literal [0.9]: the binary64 number nearest to 9/10. *)
Definition lit_0_9 : spec_float := S754_finite false 8106479329266893 (-53).

(** [int(x)]: truncation toward zero; an infinity raises
    [OverflowError] and a NaN raises [ValueError]. *)
Definition to_int (x : spec_float) : pyres Z :=
  match x with
  | S754_zero _ => Ret 0
  | S754_finite s m e =>
      let mag := match e with
                 | Zneg p => Z.shiftr (Zpos m) (Zpos p)
                 | _ => Z.shiftl (Zpos m) e
                 end in
      Ret (if s then - mag else mag)
  | S754_infinity _ => Raise OverflowError
  | S754_nan => Raise ValueError
  end.

(** A Python [int] as a [float] operand: integers too large for a
    binary64 raise [OverflowError]. *)
Definition of_pyint (n : Z) : pyres spec_float :=
  match of_int n with
  | S754_infinity _ => Raise OverflowError
  | x => Ret x
  end.
End Float64.

(** ** Configuration constants *)

Definition ENHANCED_ASCII : str := lit "@%#W$9876543210?!abc;:+=-,._ ".
Definition FPS : Z := 12.
Definition ASCII_WIDTH : Z := 100.
Definition MAX_THREADS : Z := 4.

(** [len(ENHANCED_ASCII)] *)
Definition ramp_len : Z := Z.of_nat (length ENHANCED_ASCII).

(** ** Terminal size *)

(** [_get_terminal_size]: the argument is the outcome of
    [shutil.get_terminal_size()], [(cols, rows)] or an exception; the
    result is [(rows, cols)] of the viewport. *)
Definition _get_terminal_size (q : pyres (Z * Z)) : Z * Z :=
  match q with
  | Ret (cols, rows) => (Z.max (rows - 2) 24, Z.max (cols - 4) 80)
  | Raise _ => (24, 80)
  end.

(** ** Glyph mapping *)

(** The index expression of [_convert_to_ascii],
    [min(int((p/255) * (len(ENHANCED_ASCII)-1)), len(ENHANCED_ASCII)-1)],
    on a sample [p] taken as a binary64. *)
Definition ramp_index (p : Z) : pyres Z :=
  match Float64.to_int
          (Float64.mul (Float64.div (Float64.of_int p) (Float64.of_int 255))
                       (Float64.of_int (ramp_len - 1))) with
  | Ret i => Ret (Z.min i (ramp_len - 1))
  | Raise e => Raise e
  end.

(** [ENHANCED_ASCII[min(...)]] *)
Definition glyph (p : Z) : pyres char :=
  match ramp_index p with
  | Ret i => py_index ENHANCED_ASCII i
  | Raise e => Raise e
  end.

(** A pixel of the grey image is a NumPy [uint8]. *)
Definition pixel := byte.
Definition pixel_value (p : pixel) : Z := Z.of_N (Byte.to_N p).

(** The index the specification gives: [floor(v / 255 * (N - 1))]. *)
Definition spec_ramp_index (v : Z) : Z := v * (ramp_len - 1) / 255.

(** ** Effects: printed messages, system and curses calls *)

(** The texts the program prints, by the place that prints them. *)
Inductive message :=
| MsgBanner                               (* start of the script *)
| MsgConverting                           (* before [convert_video] *)
| MsgMissingVideo                         (* [VIDEO_FILE] does not exist *)
| MsgFfmpegFailed                         (* ffmpeg exit status not 0 *)
| MsgConvertError (path : str) (e : exn)  (* [_convert_to_ascii] caught [e] *)
| MsgNoFrames                             (* [play] without frames *)
| MsgReady (frames rows cols : Z)         (* before [play] *)
| MsgInterrupted                          (* [KeyboardInterrupt] caught *)
| MsgFinished.                            (* end of the script *)

Inductive event :=
| EvPrint (m : message)
| EvMakedirs (dir : str)
| EvSystem (cmd : str)
| EvRmtree (dir : str)
| EvInitscr
| EvCursSet (visibility : Z)
| EvNoecho
| EvNodelay (flag : Z)
| EvStartColor
| EvUseDefaultColors
| EvClear
| EvAddstr (y x : Z) (s : str)
| EvRefresh
| EvGetch
| EvSleep (num den : Z)
| EvEndwin.

(** A computation: its outcome and the calls it made, in order. *)
Definition M (A : Type) : Type := pyres A * list event.

Definition ret {A} (a : A) : M A := (Ret a, []).
Definition raise {A} (e : exn) : M A := (Raise e, []).
Definition lift {A} (r : pyres A) : M A := (r, []).
Definition emit (e : event) : M unit := (Ret tt, [e]).

Definition bind {A B} (m : M A) (k : A -> M B) : M B :=
  match m with
  | (Ret a, t) => let '(r, t') := k a in (r, t ++ t')
  | (Raise e, t) => (Raise e, t)
  end.

Arguments bind : simpl never.

Notation "x <- m ;; k" := (bind m (fun x => k))
  (at level 100, m at next level, right associativity).
Notation "m ;; k" := (bind m (fun _ => k))
  (at level 100, right associativity).

(** [try: body except <catches>: handler] *)
Definition try_except {A} (body : M A) (catches : exn -> bool)
    (handler : exn -> M A) : M A :=
  match body with
  | (Raise e, t) =>
      if catches e then let '(r, t') := handler e in (r, t ++ t')
      else (Raise e, t)
  | done => done
  end.

(** [try: body finally: final] *)
Definition try_finally {A} (body : M A) (final : M unit) : M A :=
  let '(r, t) := body in
  match final with
  | (Ret _, t') => (r, t ++ t')
  | (Raise e, t') => (Raise e, t ++ t')
  end.

Definition emit_all (t : list event) : M unit := (Ret tt, t).

Definition result {A} (m : M A) : pyres A := fst m.
Definition trace {A} (m : M A) : list event := snd m.

Fixpoint mapM {A B} (f : A -> M B) (xs : list A) : M (list B) :=
  match xs with
  | [] => ret []
  | x :: xs' => y <- f x ;; ys <- mapM f xs' ;; ret (y :: ys)
  end.

(** Loop control of a [for] body. *)
Inductive ctl := Continue | Break.

(** [for x in xs: body], where the body may [break]. *)
Fixpoint for_loop {A} (xs : list A) (body : A -> M ctl) : M unit :=
  match xs with
  | [] => ret tt
  | x :: xs' =>
      c <- body x ;;
      match c with
      | Break => ret tt
      | Continue => for_loop xs' body
      end
  end.

(** [enumerate(l)], counting from [k]. *)
Fixpoint enumerate_from {A} (k : nat) (l : list A) : list (nat * A) :=
  match l with
  | [] => []
  | x :: l' => (k, x) :: enumerate_from (S k) l'
  end.

Definition enumerate {A} (l : list A) : list (nat * A) := enumerate_from 0 l.

(** ** OpenCV *)

Inductive color_code := COLOR_BGR2LAB | COLOR_LAB2BGR | COLOR_BGR2GRAY.
Inductive interpolation := INTER_AREA.

(** The OpenCV and NumPy calls the player makes, over an abstract type
    of arrays. [rows_of] is the iteration over a single-channel 8-bit
    array, row by row and sample by sample. *)
Record cv2_env := {
  Mat : Type;
  imread : str -> pyres (option Mat);
  imdecode_fromfile : str -> pyres (option Mat);
  cvtColor : Mat -> color_code -> pyres Mat;
  split : Mat -> pyres (list Mat);
  clahe_apply : Z -> Z * Z -> Mat -> pyres Mat;
  merge : list Mat -> pyres Mat;
  filter2D : Mat -> Z -> list (list Z) -> pyres Mat;
  resize : Mat -> Z * Z -> interpolation -> pyres Mat;
  rows_of : Mat -> list (list pixel)
}.

(** What [cv2.resize] guarantees: the target size [(width, height)] is
    positive and the result has [height] rows of [width] samples. *)
Definition resize_contract (cv : cv2_env) : Prop :=
  forall (g g' : Mat cv) (w h : Z) (i : interpolation),
    resize cv g (w, h) i = Ret g' ->
    0 < w /\ 0 < h /\
    length (rows_of cv g') = Z.to_nat h /\
    Forall (fun row => length row = Z.to_nat w) (rows_of cv g').

(** ** The player *)

Record player := {
  term_size : Z * Z;
  ascii_frames : list str
}.

(** [_enhance_image]: CLAHE on the lightness channel (clip limit 3.0,
    8x8 tiles), then the sharpening kernel. *)
Definition _enhance_image (cv : cv2_env) (img : Mat cv) : M (Mat cv) :=
  lab <- lift (cvtColor cv img COLOR_BGR2LAB) ;;
  chans <- lift (split cv lab) ;;
  match chans with
  | [l; a; b] =>
      l' <- lift (clahe_apply cv 3 (8, 8) l) ;;
      limg <- lift (merge cv [l'; a; b]) ;;
      enhanced <- lift (cvtColor cv limg COLOR_LAB2BGR) ;;
      let kernel := [[-1; -1; -1]; [-1; 9; -1]; [-1; -1; -1]] in
      lift (filter2D cv enhanced (-1) kernel)
  | _ => raise ValueError
  end.

(** One line of text: the glyph of every sample of the row. *)
Definition ascii_line (row : list pixel) : M str :=
  mapM (fun p => lift (glyph (pixel_value p))) row.

(** The loop [for row in gray: ... ascii_str += line + "\n"]. *)
Fixpoint ascii_rows (rows : list (list pixel)) (ascii_str : str) : M str :=
  match rows with
  | [] => ret ascii_str
  | row :: rows' =>
      line <- ascii_line row ;;
      ascii_rows rows' (ascii_str ++ line ++ [10%N])
  end.

(** [height] and [width] of the character grid for a viewport. *)
Definition grid_height (term_size : Z * Z) : M Z :=
  rows <- lift (Float64.of_pyint (fst term_size)) ;;
  lift (Float64.to_int (Float64.mul rows Float64.lit_0_9)).

Definition grid_width (term_size : Z * Z) : Z :=
  Z.min ASCII_WIDTH (snd term_size).

(** [_convert_to_ascii]: [None] when the image cannot be read or when
    anything raises an [Exception] (which is reported). *)
Definition _convert_to_ascii (cv : cv2_env) (term_size : Z * Z)
    (img_path : str) : M (option str) :=
  try_except
    (img <- lift (imread cv img_path) ;;
     img <- match img with
            | None => lift (imdecode_fromfile cv img_path)
            | Some _ => ret img
            end ;;
     match img with
     | None => ret None
     | Some img =>
         img <- _enhance_image cv img ;;
         gray <- lift (cvtColor cv img COLOR_BGR2GRAY) ;;
         height <- grid_height term_size ;;
         let width := grid_width term_size in
         gray <- lift (resize cv gray (width, height) INTER_AREA) ;;
         ascii_str <- ascii_rows (rows_of cv gray) [] ;;
         ret (Some ascii_str)
     end)
    is_Exception
    (fun e => emit (EvPrint (MsgConvertError img_path e)) ;; ret None).

(** ** The worker pool *)

(** [ThreadPoolExecutor.map]: one future per input, kept in input order.
    The workers finish the tasks in some order [sched]; the results are
    then read future by future, in input order, and reading a future
    that is not done waits for it. When a result that is read is an
    exception, the futures that are still pending are cancelled and the
    exception is raised. A slot is [None] while its task is pending.
    [sched] names the tasks that the workers run on their own, whenever
    that is (a task that is running when the futures are cancelled
    still runs to its end); every other task runs when its result is
    waited for, or never, when it is cancelled before. *)
Section Executor.
Context {A R : Type}.
Variable f : A -> M R.
Variable xs : list A.

Definition pool : Type := list (option (pyres R)) * list event.

(** A worker finishes task [i]. *)
Definition worker_done (st : pool) (i : nat) : pool :=
  match xs !! i, fst st !! i with
  | Some x, Some None =>
      (<[i := Some (result (f x))]> (fst st), snd st ++ trace (f x))
  | _, _ => st
  end.

Definition run_pool (sched : list nat) : pool :=
  foldl worker_done (replicate (length xs) None, []) sched.

(** Reading the futures in input order: a pending task is run to its
    end, and the first exception in input order is the one raised; the
    tasks that are pending after it are never run. *)
Fixpoint collect (ys : list A) (slots : list (option (pyres R))) : M (list R) :=
  match ys, slots with
  | y :: ys', slot :: slots' =>
      r <- match slot with
           | Some r => lift r
           | None => f y
           end ;;
      rs <- collect ys' slots' ;;
      ret (r :: rs)
  | _, _ => ret []
  end.

Definition executor_map (sched : list nat) : M (list R) :=
  let '(slots, t) := run_pool sched in
  emit_all t ;; collect xs slots.
End Executor.

(** ** Everything outside the program *)

(** The places where the terminal is called. *)
Inductive site :=
| AtInitscr
| AtCursSet
| AtNoecho
| AtNodelay
| AtStartColor
| AtUseDefaultColors
| AtClear (idx : nat)
| AtAddstr (idx : nat) (i : Z)
| AtStatus (idx : nat)
| AtRefresh (idx : nat)
| AtGetch (idx : nat)
| AtSleep (idx : nat)
| AtEndwin.

(** The terminal seen from the program: which call raises what (a curses
    error, or an interruption arriving there), and the key code [getch]
    returns while frame [idx] is shown (-1 when no key is waiting). *)
Record terminal := {
  fault : site -> option exn;
  key : nat -> Z
}.

Record world := {
  terminal_size : pyres (Z * Z);   (* shutil.get_terminal_size() *)
  video_exists : bool;             (* os.path.exists(VIDEO_FILE) *)
  ffmpeg_status : Z;               (* os.system(cmd) *)
  listing : list str;              (* os.listdir("temp_frames") after decoding *)
  cv2 : cv2_env;
  sched : list nat;                (* order in which the workers finish *)
  term : terminal
}.

Definition VIDEO_FILE : str := lit "input.mp4".
Definition dquote : str := [34%N].

(** A curses or timer call at site [s]. *)
Definition call (T : terminal) (s : site) (e : event) : M unit :=
  match fault T s with
  | Some x => (Raise x, [e])
  | None => (Ret tt, [e])
  end.

Definition print (m : message) : M unit := emit (EvPrint m).

(** [HDAsciiPlayer()], for directories that [os.makedirs] creates; the
    constructor with directories whose creation fails is
    [HDAsciiPlayer_init] below. *)
Definition HDAsciiPlayer (W : world) : M player :=
  let self := {| term_size := _get_terminal_size (terminal_size W);
                 ascii_frames := [] |} in
  emit (EvMakedirs (lit "temp_frames")) ;;
  emit (EvMakedirs (lit "ascii_cache")) ;;
  ret self.

(** The ffmpeg command line. *)
Definition ffmpeg_cmd : str :=
  lit "ffmpeg -i " ++ dquote ++ VIDEO_FILE ++ dquote ++ lit " -vf " ++
  dquote ++ lit "fps=" ++ str_of_int FPS ++ lit ",scale=" ++
  str_of_int ASCII_WIDTH ++ lit ":-1:flags=lanczos" ++ dquote ++ lit " " ++
  dquote ++ lit "temp_frames/frame_%04d.png" ++ dquote ++ lit " -y".

(** [os.path.join("temp_frames", f)] *)
Definition frame_path (f : str) : str := lit "temp_frames/" ++ f.

(** The decoded stills, in the order they are converted. *)
Definition frame_files (W : world) : list str :=
  sorted (filter (fun f => endswith f (lit ".png") = true) (listing W)).

(** [f for f in results if f]: [None] and the empty text are dropped. *)
Definition truthy (r : option str) : option str :=
  match r with
  | Some (c :: s) => Some (c :: s)
  | _ => None
  end.

(** The batch conversion of [convert_video], lines 100 to 106. *)
Definition convert_frames (cv : cv2_env) (ts : Z * Z) (files : list str)
    (sched : list nat) : M (list str) :=
  results <- executor_map (fun f => _convert_to_ascii cv ts (frame_path f))
                          files sched ;;
  ret (omap truthy results).

Definition convert_video (W : world) (self : player) : M (bool * player) :=
  if negb (video_exists W) then
    print MsgMissingVideo ;; ret (false, self)
  else
    emit (EvSystem ffmpeg_cmd) ;;
    if negb (ffmpeg_status W =? 0) then
      print MsgFfmpegFailed ;; ret (false, self)
    else
      frames <- convert_frames (cv2 W) (term_size self) (frame_files W) (sched W) ;;
      let self := {| term_size := term_size self; ascii_frames := frames |} in
      ret (negb (bool_decide (frames = [])), self).

(** ** Playback *)

(** The status line of frame [idx] out of [total]. The last two code
    points are the two CJK characters of the quit hint. *)
Definition status_line (idx : nat) (total : Z) : str :=
  lit "HD-ASCII " ++ str_of_int (Z.of_nat idx + 1) ++ lit "/" ++
  str_of_int total ++ lit " | " ++ str_of_int FPS ++ lit "FPS | Q" ++
  [36864%N; 20986%N].

(** The key code of the quit key, [ord('q')]. *)
Definition quit_key : Z := 113.

(** The [addstr] calls for the content rows of a frame. *)
Definition draw_rows (T : terminal) (idx : nat) (lines : list str)
    (max_rows max_cols : Z) : M unit :=
  mapM (fun i =>
          line <- lift (py_index lines i) ;;
          call T (AtAddstr idx i) (EvAddstr i 0 (py_slice_to line (max_cols - 1))))
       (py_range (Z.min (Z.of_nat (length lines)) (max_rows - 1))) ;;
  ret tt.

(** The body of the playback loop for one frame. *)
Definition play_frame (T : terminal) (ts : Z * Z) (total : Z)
    (item : nat * str) : M ctl :=
  let '(idx, frame) := item in
  let '(max_rows, max_cols) := ts in
  call T (AtClear idx) EvClear ;;
  try_except
    (let lines := splitlines frame in
     draw_rows T idx lines max_rows max_cols ;;
     let status := status_line idx total in
     call T (AtStatus idx)
       (EvAddstr (Z.min (max_rows - 1) (Z.of_nat (length lines))) 0
                 (py_slice_to status (max_cols - 1))) ;;
     call T (AtRefresh idx) EvRefresh ;;
     call T (AtGetch idx) EvGetch ;;
     if key T idx =? quit_key then ret Break
     else call T (AtSleep idx) (EvSleep 1 FPS) ;; ret Continue)
    is_curses_error
    (fun _ => ret Continue).

Definition play (T : terminal) (self : player) : M unit :=
  match ascii_frames self with
  | [] => print MsgNoFrames ;; ret tt
  | _ :: _ =>
      try_finally
        (call T AtInitscr EvInitscr ;;
         call T AtCursSet (EvCursSet 0) ;;
         call T AtNoecho EvNoecho ;;
         call T AtNodelay (EvNodelay 1) ;;
         try_except
           (call T AtStartColor EvStartColor ;;
            call T AtUseDefaultColors EvUseDefaultColors)
           (fun _ => true)
           (fun _ => ret tt) ;;
         for_loop (enumerate (ascii_frames self))
                  (play_frame T (term_size self)
                              (Z.of_nat (length (ascii_frames self)))))
        (call T AtEndwin EvEndwin)
  end.

Definition cleanup : M unit := emit (EvRmtree (lit "temp_frames")).

(** ** The script *)

Definition is_KeyboardInterrupt (e : exn) : bool :=
  match e with KeyboardInterrupt => true | _ => false end.

Definition main (W : world) : M unit :=
  print MsgBanner ;;
  player <- HDAsciiPlayer W ;;
  try_finally
    (try_except
       (print MsgConverting ;;
        r <- convert_video W player ;;
        let '(ok, player) := r in
        (if negb ok then raise (SystemExit 1) else ret tt) ;;
        print (MsgReady (Z.of_nat (length (ascii_frames player)))
                        (fst (term_size player)) (snd (term_size player))) ;;
        play (term W) player)
       is_KeyboardInterrupt
       (fun _ => print MsgInterrupted))
    (cleanup ;; print MsgFinished).

(** The exit status of the process for an outcome of [main]. *)
Definition exit_status (r : pyres unit) : Z :=
  match r with
  | Ret _ => 0
  | Raise (SystemExit code) => code
  | Raise _ => 1
  end.

(** Whether an event is a call into curses. *)
Definition is_curses_call (e : event) : bool :=
  match e with
  | EvInitscr | EvCursSet _ | EvNoecho | EvNodelay _ | EvStartColor
  | EvUseDefaultColors | EvClear | EvAddstr _ _ _ | EvRefresh | EvGetch
  | EvEndwin => true
  | _ => false
  end.

(** * Properties *)

(** ** Terminal size *)

(** C9: the viewport is the terminal size minus 2 rows and 4 columns,
    never below 24 rows and 80 columns, and exactly (24, 80) when the
    terminal size cannot be queried. *)
Theorem viewport_margin_and_floor :
  (forall cols rows,
      _get_terminal_size (Ret (cols, rows))
      = (Z.max (rows - 2) 24, Z.max (cols - 4) 80)) /\
  (forall e, _get_terminal_size (Raise e) = (24, 80)) /\
  (forall q, 24 <= fst (_get_terminal_size q) /\
             80 <= snd (_get_terminal_size q)).
Proof.
  split; [reflexivity | split; [reflexivity |]].
  intros [[cols rows] | e]; simpl; lia.
Qed.

(** ** Glyph mapping *)

(** The samples 0, 1, ..., n-1. *)
Definition samples (n : nat) : list Z := map Z.of_nat (seq 0 n).

Lemma samples_spec (n : nat) (v : Z) : 0 <= v < Z.of_nat n -> In v (samples n).
Proof.
  intros Hv. unfold samples. apply in_map_iff. exists (Z.to_nat v).
  split; [lia | apply in_seq; lia].
Qed.

(** The test that a sample gets the glyph at the index of the
    specification. *)
Definition glyph_agrees (v : Z) : bool :=
  match ramp_index v, glyph v with
  | Ret i, Ret c =>
      (i =? spec_ramp_index v) &&
      bool_decide (ENHANCED_ASCII !! Z.to_nat i = Some c)
  | _, _ => false
  end.

Lemma glyph_table : forallb glyph_agrees (samples 256) = true.
Proof. vm_compute. reflexivity. Qed.

Lemma glyph_agrees_spec (v : Z) :
  0 <= v <= 255 ->
  ramp_index v = Ret (spec_ramp_index v) /\
  exists c, glyph v = Ret c /\
            ENHANCED_ASCII !! Z.to_nat (spec_ramp_index v) = Some c.
Proof.
  intros Hv.
  pose proof (proj1 (forallb_forall _ _) glyph_table v) as H.
  specialize (H (samples_spec 256 v ltac:(lia))).
  unfold glyph_agrees in H.
  destruct (ramp_index v) as [i|]; [| discriminate].
  destruct (glyph v) as [c|]; [| discriminate].
  apply andb_prop in H as [Hi Hc].
  apply Z.eqb_eq in Hi. apply bool_decide_eq_true in Hc. subst i.
  split; [reflexivity | eauto].
Qed.

Lemma spec_ramp_index_mono (v w : Z) :
  v <= w -> spec_ramp_index v <= spec_ramp_index w.
Proof.
  intros H. unfold spec_ramp_index. apply Z.div_le_mono; [lia |].
  change (ramp_len - 1) with 28. lia.
Qed.

Lemma spec_ramp_index_range (v : Z) :
  0 <= v <= 255 -> 0 <= spec_ramp_index v <= ramp_len - 1.
Proof.
  intros Hv. unfold spec_ramp_index. change (ramp_len - 1) with 28. split.
  - apply Z.div_pos; lia.
  - apply Z.div_le_upper_bound; lia.
Qed.

(** C1: on [0, 255] the glyph mapping returns a character of the ramp,
    the one at the index it selects; this index is
    floor(v / 255 * (N - 1)), it lies in the ramp, and it does not
    decrease when the sample increases. *)
Theorem glyph_in_ramp_at_floor_monotone (v w : Z) :
  0 <= v -> v <= w -> w <= 255 ->
  exists c i j,
    glyph v = Ret c /\ In c ENHANCED_ASCII /\
    ramp_index v = Ret i /\ i = v * (ramp_len - 1) / 255 /\
    0 <= i <= ramp_len - 1 /\ ENHANCED_ASCII !! Z.to_nat i = Some c /\
    ramp_index w = Ret j /\ j = w * (ramp_len - 1) / 255 /\ i <= j.
Proof.
  intros H0 Hvw Hw.
  destruct (glyph_agrees_spec v ltac:(lia)) as (Hi & c & Hc & Hl).
  destruct (glyph_agrees_spec w ltac:(lia)) as (Hj & _).
  exists c, (spec_ramp_index v), (spec_ramp_index w).
  split; [exact Hc |].
  split; [apply list_elem_of_In; eapply list_elem_of_lookup_2; exact Hl |].
  split; [exact Hi |]. split; [reflexivity |].
  split; [apply spec_ramp_index_range; lia |].
  split; [exact Hl |]. split; [exact Hj |]. split; [reflexivity |].
  apply spec_ramp_index_mono. exact Hvw.
Qed.

(** The samples 100 and 200 get the glyphs at the indices 10 and 21,
    the characters '0' and ':'. *)
Lemma glyph_in_ramp_at_floor_monotone_witness :
  exists c i j,
    glyph 100 = Ret c /\ In c ENHANCED_ASCII /\
    ramp_index 100 = Ret i /\ i = 100 * (ramp_len - 1) / 255 /\
    0 <= i <= ramp_len - 1 /\ ENHANCED_ASCII !! Z.to_nat i = Some c /\
    ramp_index 200 = Ret j /\ j = 200 * (ramp_len - 1) / 255 /\ i <= j.
Proof. apply (glyph_in_ramp_at_floor_monotone 100 200); lia. Defined.

Lemma py_index_in_range {A} (s : list A) (i : Z) :
  0 <= i < Z.of_nat (length s) ->
  exists c, py_index s i = Ret c /\ s !! Z.to_nat i = Some c.
Proof.
  intros Hi. unfold py_index.
  destruct (i <? 0) eqn:Hneg; [lia |].
  replace ((0 <=? i) && (i <? Z.of_nat (length s))) with true by lia.
  destruct (s !! Z.to_nat i) as [c|] eqn:Hl; [eauto |].
  apply lookup_ge_None in Hl. lia.
Qed.

Lemma pixel_value_range (p : pixel) : 0 <= pixel_value p <= 255.
Proof.
  unfold pixel_value. pose proof (Byte.to_N_bounded p) as H. lia.
Qed.

(** The sign of a rounded number is the sign it is given. *)
Definition has_sign (sx : bool) (x : spec_float) : Prop :=
  match x with
  | S754_nan => True
  | S754_zero s | S754_infinity s | S754_finite s _ _ => s = sx
  end.

Lemma binary_round_aux_sign (sx : bool) (m e : Z) (l : location) :
  has_sign sx (binary_round_aux Float64.prec Float64.emax sx m e l).
Proof.
  unfold binary_round_aux.
  destruct (shr_fexp _ _ m e l) as [mrs' e'].
  destruct (shr_fexp _ _ _ e' loc_Exact) as [mrs'' e''].
  destruct (shr_m mrs''); simpl; auto.
  destruct (Z.leb _ _); simpl; auto.
Qed.

Lemma of_int_nonneg (v : Z) : 0 <= v -> has_sign false (Float64.of_int v).
Proof.
  intros Hv. unfold Float64.of_int, binary_normalize.
  destruct v as [|p|p]; simpl; [auto | | lia].
  unfold binary_round. destruct (shl_align _ _ _) as [mz ez].
  apply binary_round_aux_sign.
Qed.

Lemma div_nonneg (x y : spec_float) :
  has_sign false x -> has_sign false y -> has_sign false (Float64.div x y).
Proof.
  unfold Float64.div, SFdiv.
  destruct x as [sx|sx| |sx mx ex], y as [sy|sy| |sy my ey]; simpl;
    intros Hx Hy; subst; simpl; auto.
  destruct (SFdiv_core_binary _ _ _ _ _ _) as [[mz ez] lz].
  apply (binary_round_aux_sign false).
Qed.

Lemma mul_nonneg (x y : spec_float) :
  has_sign false x -> has_sign false y -> has_sign false (Float64.mul x y).
Proof.
  unfold Float64.mul, SFmul.
  destruct x as [sx|sx| |sx mx ex], y as [sy|sy| |sy my ey]; simpl;
    intros Hx Hy; subst; simpl; auto.
  apply (binary_round_aux_sign false).
Qed.

Lemma to_int_nonneg (x : spec_float) (i : Z) :
  has_sign false x -> Float64.to_int x = Ret i -> 0 <= i.
Proof.
  destruct x as [s|s| |s m e]; simpl; intros Hx Hi; try discriminate.
  - injection Hi as <-. lia.
  - subst s. injection Hi as <-.
    destruct e; [apply Z.shiftl_nonneg; lia | apply Z.shiftl_nonneg; lia
                | apply Z.shiftr_nonneg; lia].
Qed.

(** The index of a sample that is not negative is not negative. *)
Lemma ramp_index_nonneg (v i : Z) : 0 <= v -> ramp_index v = Ret i -> 0 <= i.
Proof.
  intros Hv Hi. unfold ramp_index in Hi.
  destruct (Float64.to_int _) as [k|] eqn:Hk; [| discriminate].
  injection Hi as <-.
  apply to_int_nonneg in Hk.
  - change (ramp_len - 1) with 28. lia.
  - apply mul_nonneg; [apply div_nonneg |]; apply of_int_nonneg;
      [exact Hv | lia | change (ramp_len - 1) with 28; lia].
Qed.

(** ** Computations and their traces *)

Lemma bind_result_Ret {A B} (m : M A) (k : A -> M B) (b : B) :
  result (bind m k) = Ret b ->
  exists a, result m = Ret a /\ result (k a) = Ret b.
Proof.
  unfold bind. destruct m as [[a|e] t]; simpl; [| discriminate].
  destruct (k a) as [r t'] eqn:Hk. simpl. intros ->.
  exists a. rewrite Hk. auto.
Qed.

Lemma bind_Ret {A B} (a : A) (t : list event) (k : A -> M B) :
  bind (Ret a, t) k = (result (k a), t ++ trace (k a)).
Proof. unfold bind. destruct (k a); reflexivity. Qed.

Lemma bind_Raise {A B} (e : exn) (t : list event) (k : A -> M B) :
  bind (Raise e, t) k = (Raise e, t).
Proof. reflexivity. Qed.

(** Runs the binds whose first computation is known. *)
Ltac mrun :=
  repeat first
    [ rewrite bind_Ret | rewrite bind_Raise
    | progress cbn [result trace fst snd app] ].

Lemma bind_eq_Ret {A B} (m : M A) (k : A -> M B) (a : A) (t : list event) :
  m = (Ret a, t) -> bind m k = (result (k a), t ++ trace (k a)).
Proof. intros ->. apply bind_Ret. Qed.

Lemma bind_eq_Raise {A B} (m : M A) (k : A -> M B) (e : exn) (t : list event) :
  m = (Raise e, t) -> bind m k = (Raise e, t).
Proof. intros ->. reflexivity. Qed.

Lemma trace_bind {A B} (m : M A) (k : A -> M B) :
  trace (bind m k)
  = trace m ++ match result m with
               | Ret a => trace (k a)
               | Raise _ => []
               end.
Proof.
  unfold bind. destruct m as [[a|e] t]; simpl.
  - destruct (k a); reflexivity.
  - symmetry. apply app_nil_r.
Qed.

Lemma result_bind {A B} (m : M A) (k : A -> M B) :
  result (bind m k)
  = match result m with
    | Ret a => result (k a)
    | Raise e => Raise e
    end.
Proof.
  unfold bind. destruct m as [[a|e] t]; simpl; [| reflexivity].
  destruct (k a); reflexivity.
Qed.

Lemma trace_try_finally {A} (body : M A) (final : M unit) :
  trace (try_finally body final) = trace body ++ trace final.
Proof.
  destruct body as [r t], final as [[u|e] t']; reflexivity.
Qed.

Lemma trace_call (T : terminal) (s : site) (e : event) :
  trace (call T s e) = [e].
Proof. unfold call. destruct (fault T s); reflexivity. Qed.

(** ** Playing nothing *)

(** C10: without frames, [play] reports the error and returns; no curses
    call is made. *)
Theorem play_without_frames (T : terminal) (ts : Z * Z) :
  play T {| term_size := ts; ascii_frames := [] |}
  = (Ret tt, [EvPrint MsgNoFrames]) /\
  Forall (fun e => is_curses_call e = false)
         (trace (play T {| term_size := ts; ascii_frames := [] |})).
Proof.
  split; [reflexivity |].
  repeat constructor.
Qed.

(** ** Terminal restoration *)

(** The number of calls in a trace that satisfy a test. *)
Definition calls (p : event -> bool) (t : list event) : nat :=
  length (List.filter p t).

Lemma calls_app (p : event -> bool) (t t' : list event) :
  calls p (t ++ t') = (calls p t + calls p t')%nat.
Proof. unfold calls. rewrite List.filter_app, length_app. reflexivity. Qed.

Lemma calls_none (p : event -> bool) (t : list event) :
  Forall (fun e => p e = false) t -> calls p t = 0%nat.
Proof.
  unfold calls. induction 1 as [|e t He _ IH]; simpl; [reflexivity |].
  rewrite He. exact IH.
Qed.

Definition is_endwin (e : event) : bool :=
  match e with EvEndwin => true | _ => false end.

(** All calls of a computation satisfy [P]. *)
Definition all_calls {A} (P : event -> Prop) (m : M A) : Prop :=
  Forall P (trace m).

Section AllCalls.
Variable P : event -> Prop.

Lemma all_calls_ret {A} (a : A) : all_calls P (ret a).
Proof. constructor. Qed.

Lemma all_calls_raise {A} (e : exn) : all_calls P (@raise A e).
Proof. constructor. Qed.

Lemma all_calls_lift {A} (r : pyres A) : all_calls P (lift r).
Proof. constructor. Qed.

Lemma all_calls_emit (e : event) : P e -> all_calls P (emit e).
Proof. intros H. repeat constructor. exact H. Qed.

Lemma all_calls_call (T : terminal) (s : site) (e : event) :
  P e -> all_calls P (call T s e).
Proof.
  intros H. unfold all_calls. rewrite trace_call.
  repeat constructor. exact H.
Qed.

Lemma all_calls_bind {A B} (m : M A) (k : A -> M B) :
  all_calls P m -> (forall a, all_calls P (k a)) -> all_calls P (bind m k).
Proof.
  unfold all_calls. intros Hm Hk. rewrite trace_bind.
  apply Forall_app. split; [exact Hm |].
  destruct (result m); [apply Hk | constructor].
Qed.

Lemma all_calls_try_except {A} (body : M A) (c : exn -> bool)
    (h : exn -> M A) :
  all_calls P body -> (forall e, all_calls P (h e)) ->
  all_calls P (try_except body c h).
Proof.
  unfold all_calls, try_except. intros Hb Hh.
  destruct body as [[a|e] t]; simpl in *; [exact Hb |].
  destruct (c e); [| exact Hb].
  specialize (Hh e). destruct (h e) as [r t']. simpl in *.
  apply Forall_app. split; assumption.
Qed.

Lemma all_calls_try_finally {A} (body : M A) (final : M unit) :
  all_calls P body -> all_calls P final ->
  all_calls P (try_finally body final).
Proof.
  unfold all_calls. intros Hb Hf. rewrite trace_try_finally.
  apply Forall_app. split; assumption.
Qed.

Lemma all_calls_mapM {A B} (f : A -> M B) (xs : list A) :
  (forall x, all_calls P (f x)) -> all_calls P (mapM f xs).
Proof.
  intros Hf. induction xs as [|x xs IH]; simpl.
  - apply all_calls_ret.
  - apply all_calls_bind; [apply Hf | intros y].
    apply all_calls_bind; [exact IH | intros ys]. apply all_calls_ret.
Qed.

Lemma all_calls_for_loop {A} (body : A -> M ctl) (xs : list A) :
  (forall x, all_calls P (body x)) -> all_calls P (for_loop xs body).
Proof.
  intros Hb. induction xs as [|x xs IH]; simpl.
  - apply all_calls_ret.
  - apply all_calls_bind; [apply Hb | intros [|]];
      [exact IH | apply all_calls_ret].
Qed.
End AllCalls.

(** Splits a goal about the calls of a computation along its structure. *)
Ltac all_calls_step :=
  first
    [ apply all_calls_ret | apply all_calls_raise | apply all_calls_lift
    | apply all_calls_emit | apply all_calls_call
    | apply all_calls_bind; [| intros ?]
    | apply all_calls_try_except; [| intros ?]
    | apply all_calls_try_finally
    | apply all_calls_mapM; intros ?
    | apply all_calls_for_loop; intros ? ].

Lemma play_frame_calls (P : event -> Prop) (T : terminal) (ts : Z * Z)
    (total : Z) (item : nat * str) :
  P EvClear -> (forall y x s, P (EvAddstr y x s)) -> P EvRefresh ->
  P EvGetch -> (forall n d, P (EvSleep n d)) ->
  all_calls P (play_frame T ts total item).
Proof.
  intros H1 H2 H3 H4 H5. destruct item as [idx frame], ts as [max_rows max_cols].
  unfold play_frame, draw_rows.
  repeat (all_calls_step; auto).
  destruct (key T idx =? quit_key); repeat (all_calls_step; auto).
Qed.

(** The calls of [play] before the final [endwin], for a player with
    frames. *)
Definition play_body (T : terminal) (self : player) : M unit :=
  call T AtInitscr EvInitscr ;;
  call T AtCursSet (EvCursSet 0) ;;
  call T AtNoecho EvNoecho ;;
  call T AtNodelay (EvNodelay 1) ;;
  try_except
    (call T AtStartColor EvStartColor ;;
     call T AtUseDefaultColors EvUseDefaultColors)
    (fun _ => true)
    (fun _ => ret tt) ;;
  for_loop (enumerate (ascii_frames self))
           (play_frame T (term_size self)
                       (Z.of_nat (length (ascii_frames self)))).

Lemma play_with_frames (T : terminal) (self : player) :
  ascii_frames self <> [] ->
  play T self = try_finally (play_body T self) (call T AtEndwin EvEndwin).
Proof.
  unfold play, play_body. destruct (ascii_frames self); [congruence | reflexivity].
Qed.

Lemma play_body_no_endwin (T : terminal) (self : player) :
  all_calls (fun e => is_endwin e = false) (play_body T self).
Proof.
  unfold play_body.
  repeat (all_calls_step; auto).
  apply play_frame_calls; auto.
Qed.

(** C6: with frames to play, whatever raises in [play] (a curses error,
    an interruption, at any call) and whether the loop ends by
    exhaustion or by the quit key, [curses.endwin] is called exactly
    once, as the last call. *)
Theorem play_restores_terminal_once (T : terminal) (self : player) :
  ascii_frames self <> [] ->
  calls is_endwin (trace (play T self)) = 1%nat /\
  list.last (trace (play T self)) = Some EvEndwin.
Proof.
  intros Hne. rewrite (play_with_frames T self Hne), trace_try_finally.
  rewrite trace_call. split.
  - rewrite calls_app, (calls_none _ _ (play_body_no_endwin T self)).
    reflexivity.
  - apply last_snoc.
Qed.

(** ** Rendering of one frame *)

(** No call of the terminal raises. *)
Definition quiet (T : terminal) : Prop := forall s, fault T s = None.

Lemma call_quiet (T : terminal) (s : site) (e : event) :
  quiet T -> call T s e = (Ret tt, [e]).
Proof. intros H. unfold call. rewrite (H s). reflexivity. Qed.

(** The [addstr] calls for the content rows [ls], the first of them on
    screen row [k]: every row is cut to [max_cols - 1] characters. *)
Fixpoint row_calls_from (k : nat) (ls : list str) (max_cols : Z) : list event :=
  match ls with
  | [] => []
  | l :: ls' =>
      EvAddstr (Z.of_nat k) 0 (py_slice_to l (max_cols - 1))
      :: row_calls_from (S k) ls' max_cols
  end.

(** The number of content rows drawn. *)
Definition rows_drawn (lines : list str) (max_rows : Z) : nat :=
  Z.to_nat (Z.min (Z.of_nat (length lines)) (max_rows - 1)).

Definition row_calls (lines : list str) (max_rows max_cols : Z) : list event :=
  row_calls_from 0 (take (rows_drawn lines max_rows) lines) max_cols.

(** The [addstr] call of the status line. *)
Definition status_call (lines : list str) (max_rows max_cols : Z)
    (idx : nat) (total : Z) : event :=
  EvAddstr (Z.min (max_rows - 1) (Z.of_nat (length lines))) 0
           (py_slice_to (status_line idx total) (max_cols - 1)).

(** The calls for a frame that is drawn and polled without an error. *)
Definition shown_frame (T : terminal) (ts : Z * Z) (total : Z) (idx : nat)
    (frame : str) : list event :=
  let lines := splitlines frame in
  [EvClear] ++ row_calls lines (fst ts) (snd ts) ++
  [status_call lines (fst ts) (snd ts) idx total; EvRefresh; EvGetch] ++
  (if key T idx =? quit_key then [] else [EvSleep 1 FPS]).

Lemma py_index_lookup {A} (s : list A) (k : nat) (x : A) :
  s !! k = Some x -> py_index s (Z.of_nat k) = Ret x.
Proof.
  intros H. pose proof (lookup_lt_Some _ _ _ H) as Hlt.
  destruct (py_index_in_range s (Z.of_nat k)) as (c & Hc & Hl); [lia |].
  rewrite Nat2Z.id in Hl. congruence.
Qed.

Lemma draw_rows_from (T : terminal) (idx : nat) (lines : list str)
    (max_cols : Z) (m k : nat) :
  quiet T -> (k + m <= length lines)%nat ->
  mapM (fun i =>
          line <- lift (py_index lines i) ;;
          call T (AtAddstr idx i) (EvAddstr i 0 (py_slice_to line (max_cols - 1))))
       (map Z.of_nat (seq k m))
  = (Ret (replicate m tt), row_calls_from k (take m (drop k lines)) max_cols).
Proof.
  intros HT. revert k. induction m as [|m IH]; intros k Hk; [reflexivity |].
  destruct (lines !! k) as [l|] eqn:Hl;
    [| apply lookup_ge_None in Hl; lia].
  rewrite (drop_S _ _ _ Hl). cbn [seq map mapM take row_calls_from].
  rewrite (py_index_lookup _ _ _ Hl). unfold lift, ret.
  rewrite IH by lia.
  mrun. rewrite call_quiet by exact HT. mrun.
  rewrite app_nil_r. reflexivity.
Qed.

Lemma draw_rows_quiet (T : terminal) (idx : nat) (lines : list str)
    (max_rows max_cols : Z) :
  quiet T ->
  draw_rows T idx lines max_rows max_cols
  = (Ret tt, row_calls lines max_rows max_cols).
Proof.
  intros HT. unfold draw_rows, py_range, row_calls.
  fold (rows_drawn lines max_rows).
  rewrite (draw_rows_from T idx lines max_cols (rows_drawn lines max_rows) 0 HT)
    by (unfold rows_drawn; lia).
  unfold ret. mrun. rewrite app_nil_r. reflexivity.
Qed.

Lemma play_frame_quiet (T : terminal) (ts : Z * Z) (total : Z) (idx : nat)
    (frame : str) :
  quiet T ->
  play_frame T ts total (idx, frame)
  = (Ret (if key T idx =? quit_key then Break else Continue),
     shown_frame T ts total idx frame).
Proof.
  intros HT. destruct ts as [max_rows max_cols].
  unfold play_frame, shown_frame, status_call.
  rewrite draw_rows_quiet by exact HT.
  unfold try_except, ret. rewrite !call_quiet by exact HT.
  destruct (key T idx =? quit_key); mrun;
    rewrite ?app_nil_r, <- ?app_assoc; reflexivity.
Qed.

Lemma py_slice_to_take {A} (s : list A) (k : Z) :
  0 <= k -> py_slice_to s k = take (Z.to_nat k) s.
Proof. intros Hk. unfold py_slice_to. destruct (k <? 0) eqn:E; [lia | reflexivity]. Qed.

Lemma length_row_calls_from (k : nat) (ls : list str) (max_cols : Z) :
  length (row_calls_from k ls max_cols) = length ls.
Proof.
  revert k. induction ls as [|l ls IH]; intros k; simpl; [reflexivity |].
  rewrite IH. reflexivity.
Qed.

Lemma lookup_row_calls_from (k : nat) (ls : list str) (max_cols : Z)
    (i : nat) (line : str) :
  ls !! i = Some line ->
  row_calls_from k ls max_cols !! i
  = Some (EvAddstr (Z.of_nat (k + i)) 0 (py_slice_to line (max_cols - 1))).
Proof.
  revert k i. induction ls as [|l ls IH]; intros k i Hl; [discriminate |].
  destruct i as [|i]; simpl in *.
  - injection Hl as ->. rewrite Nat.add_0_r. reflexivity.
  - rewrite (IH (S k) i Hl). do 3 f_equal. lia.
Qed.

(** A terminal on which nothing raises and no key is ever pressed. *)
Definition silent_terminal : terminal :=
  {| fault := fun _ => None; key := fun _ => -1 |}.

Lemma silent_terminal_quiet : quiet silent_terminal.
Proof. intros s. reflexivity. Qed.

(** A frame of [h] rows of [w] times the glyph [c]. *)
Definition flat_frame (h w : nat) (c : char) : str :=
  concat (replicate h (replicate w c ++ [10%N])).

(** C8, as stated, fails: in a viewport of 24 rows and 80 columns, a
    frame of 21 rows of 80 characters gets its status line on row 21,
    nothing is drawn on the last row (23), and the rows are cut to 79
    characters, not to 80. *)
Lemma status_line_below_content_not_last_row :
  let t := trace (play_frame silent_terminal (24, 80) 1
                             (0%nat, flat_frame 21 80 64%N)) in
  Forall (fun e => forall x s, e <> EvAddstr (24 - 1) x s) t /\
  In (EvAddstr 21 0 (status_line 0 1)) t /\
  ~ In (EvAddstr 0 0 (take 80 (replicate 80 64%N))) t /\
  In (EvAddstr 0 0 (replicate 79 64%N)) t.
Proof.
  rewrite (play_frame_quiet _ _ _ _ _ silent_terminal_quiet).
  cbn [trace snd]. vm_compute shown_frame.
  split; [| split; [| split]].
  - repeat constructor; intros x s H; discriminate H.
  - vm_compute. tauto.
  - vm_compute. intros H.
    repeat (destruct H as [H | H]; [discriminate H |]). exact H.
  - vm_compute. tauto.
Qed.

(** C8, amended: for a frame drawn without an error, screen row [i]
    shows the first [cols - 1] characters of line [i], for the first
    min(lines, rows - 1) lines; the status line (frame index from 1,
    number of frames, frame rate, quit hint), cut to [cols - 1]
    characters, is drawn on row min(rows - 1, lines), the row below the
    content. *)
Theorem frame_rendering (T : terminal) (rows cols total : Z) (idx : nat)
    (frame : str) :
  quiet T -> 1 <= rows -> 1 <= cols ->
  let lines := splitlines frame in
  trace (play_frame T (rows, cols) total (idx, frame))
  = [EvClear] ++ row_calls lines rows cols ++
    [status_call lines rows cols idx total; EvRefresh; EvGetch] ++
    (if key T idx =? quit_key then [] else [EvSleep 1 FPS]) /\
  Z.of_nat (length (row_calls lines rows cols))
  = Z.min (Z.of_nat (length lines)) (rows - 1) /\
  (forall (i : nat) (line : str),
      lines !! i = Some line -> Z.of_nat i < rows - 1 ->
      row_calls lines rows cols !! i
      = Some (EvAddstr (Z.of_nat i) 0 (take (Z.to_nat (cols - 1)) line))) /\
  status_call lines rows cols idx total
  = EvAddstr (Z.min (rows - 1) (Z.of_nat (length lines))) 0
             (take (Z.to_nat (cols - 1))
                   (lit "HD-ASCII " ++ str_of_int (Z.of_nat idx + 1) ++
                    lit "/" ++ str_of_int total ++ lit " | " ++
                    str_of_int FPS ++ lit "FPS | Q" ++ [36864%N; 20986%N])).
Proof.
  intros HT Hrows Hcols lines.
  split; [| split; [| split]].
  - rewrite (play_frame_quiet _ _ _ _ _ HT). reflexivity.
  - unfold row_calls. rewrite length_row_calls_from, length_take.
    unfold rows_drawn. lia.
  - intros i line Hl Hi. unfold row_calls.
    rewrite (lookup_row_calls_from 0 _ _ i line).
    + rewrite py_slice_to_take by lia. reflexivity.
    + rewrite lookup_take_lt; [exact Hl |].
      pose proof (lookup_lt_Some _ _ _ Hl). unfold rows_drawn. lia.
  - unfold status_call. rewrite py_slice_to_take by lia. reflexivity.
Qed.

(** ** The playback loop and the quit key *)

(** The calls of the loop on frames drawn without an error: the frames
    in order, up to and including the first one whose poll returns the
    quit key. *)
Fixpoint loop_calls (T : terminal) (ts : Z * Z) (total : Z) (k : nat)
    (frames : list str) : list event :=
  match frames with
  | [] => []
  | frame :: frames' =>
      shown_frame T ts total k frame ++
      (if key T k =? quit_key then [] else loop_calls T ts total (S k) frames')
  end.

Lemma for_loop_quiet (T : terminal) (ts : Z * Z) (total : Z) (k : nat)
    (frames : list str) :
  quiet T ->
  for_loop (enumerate_from k frames) (play_frame T ts total)
  = (Ret tt, loop_calls T ts total k frames).
Proof.
  intros HT. revert k. induction frames as [|frame frames IH]; intros k;
    [reflexivity |].
  cbn [enumerate_from for_loop loop_calls].
  rewrite (play_frame_quiet _ _ _ _ _ HT). mrun.
  destruct (key T k =? quit_key).
  - reflexivity.
  - rewrite IH. reflexivity.
Qed.

(** The calls for all of [frames], none of them polling the quit key:
    every frame is followed by its sleep. *)
Fixpoint frames_shown (T : terminal) (ts : Z * Z) (total : Z) (k : nat)
    (frames : list str) : list event :=
  match frames with
  | [] => []
  | frame :: frames' =>
      shown_frame T ts total k frame ++ frames_shown T ts total (S k) frames'
  end.

(** The loop stops with the frame of index [q]: it makes the calls of
    the frames up to that one, and nothing for the frames after it. *)
Lemma loop_calls_until_quit (T : terminal) (ts : Z * Z) (total : Z)
    (frames : list str) (q k : nat) :
  (forall j, (k <= j < k + q)%nat -> key T j <> quit_key) ->
  ((q < length frames)%nat -> key T (k + q) = quit_key) ->
  loop_calls T ts total k frames
  = frames_shown T ts total k (take (S q) frames).
Proof.
  revert q k. induction frames as [|frame frames IH]; intros q k Hno Hq;
    [reflexivity |].
  cbn [loop_calls take frames_shown]. f_equal.
  destruct q as [|q].
  - rewrite Nat.add_0_r in Hq. rewrite Hq by (simpl; lia).
    rewrite Z.eqb_refl, take_0. reflexivity.
  - destruct (key T k =? quit_key) eqn:Hk.
    + apply Z.eqb_eq in Hk. exfalso. apply (Hno k); [lia | exact Hk].
    + apply IH.
      * intros j Hj. apply Hno. lia.
      * intros Hlt. replace (S k + q)%nat with (k + S q)%nat by lia.
        apply Hq. simpl. lia.
Qed.

Definition is_clear (e : event) : bool :=
  match e with EvClear => true | _ => false end.
Definition is_refresh (e : event) : bool :=
  match e with EvRefresh => true | _ => false end.
Definition is_sleep (e : event) : bool :=
  match e with EvSleep _ _ => true | _ => false end.

Lemma calls_row_calls_from (p : event -> bool) (k : nat) (ls : list str)
    (max_cols : Z) :
  (forall y x s, p (EvAddstr y x s) = false) ->
  calls p (row_calls_from k ls max_cols) = 0%nat.
Proof.
  intros Hp. apply calls_none. revert k.
  induction ls as [|l ls IH]; intros k; simpl; constructor; auto.
Qed.

Lemma calls_shown_frame (p : event -> bool) (T : terminal) (ts : Z * Z)
    (total : Z) (k : nat) (frame : str) :
  (forall y x s, p (EvAddstr y x s) = false) ->
  calls p (shown_frame T ts total k frame)
  = (calls p [EvClear; EvRefresh; EvGetch] +
     (if (key T k =? quit_key)%Z then 0 else calls p [EvSleep 1 FPS]))%nat.
Proof.
  intros Hp. unfold shown_frame, row_calls, status_call.
  rewrite !calls_app, calls_row_calls_from by exact Hp.
  unfold calls. simpl. rewrite Hp.
  destruct (p EvClear), (p EvRefresh), (p EvGetch),
    (key T k =? quit_key); simpl; lia.
Qed.

(** The frames before the one of index [q] are shown and slept on; the
    frame of index [q], when there is one, is shown and not slept on. *)
Lemma calls_frames_shown (T : terminal) (ts : Z * Z) (total : Z)
    (frames : list str) (q k : nat) :
  (forall j, (k <= j < k + q)%nat -> key T j <> quit_key) ->
  ((q < length frames)%nat -> key T (k + q) = quit_key) ->
  let t := frames_shown T ts total k (take (S q) frames) in
  calls is_clear t = Nat.min (length frames) (S q) /\
  calls is_refresh t = Nat.min (length frames) (S q) /\
  calls is_sleep t = Nat.min (length frames) q.
Proof.
  revert q k. induction frames as [|frame frames IH]; intros q k Hno Hq;
    [simpl; auto |].
  cbn [take frames_shown]. cbv zeta.
  rewrite !calls_app, !calls_shown_frame by reflexivity.
  destruct q as [|q].
  - rewrite Nat.add_0_r in Hq. rewrite Hq by (simpl; lia).
    rewrite Z.eqb_refl, take_0. cbn. lia.
  - destruct (key T k =? quit_key) eqn:Hk.
    { apply Z.eqb_eq in Hk. exfalso. apply (Hno k); [lia | exact Hk]. }
    destruct (IH q (S k)) as (H1 & H2 & H3).
    + intros j Hj. apply Hno. lia.
    + intros Hlt. replace (S k + q)%nat with (k + S q)%nat by lia.
      apply Hq. simpl. lia.
    + rewrite H1, H2, H3. cbn. lia.
Qed.

(** The calls of [play] before the loop. *)
Definition init_calls : list event :=
  [EvInitscr; EvCursSet 0; EvNoecho; EvNodelay 1; EvStartColor;
   EvUseDefaultColors].

Lemma play_quiet (T : terminal) (self : player) :
  quiet T -> ascii_frames self <> [] ->
  play T self
  = (Ret tt,
     init_calls ++
     loop_calls T (term_size self) (Z.of_nat (length (ascii_frames self))) 0
                (ascii_frames self) ++
     [EvEndwin]).
Proof.
  intros HT Hne. rewrite (play_with_frames _ _ Hne).
  unfold play_body, enumerate. rewrite for_loop_quiet by exact HT.
  unfold try_except, try_finally, ret. rewrite !call_quiet by exact HT.
  mrun. rewrite ?app_nil_r. reflexivity.
Qed.

Lemma frames_shown_ends_with_poll (T : terminal) (ts : Z * Z) (total : Z)
    (frames : list str) (q k : nat) :
  (q < length frames)%nat -> key T (k + q) = quit_key ->
  exists t0,
    frames_shown T ts total k (take (S q) frames) = t0 ++ [EvGetch].
Proof.
  revert q k. induction frames as [|frame frames IH]; intros q k Hlt Hq;
    [simpl in Hlt; lia |].
  cbn [take frames_shown]. destruct q as [|q].
  - rewrite take_0. cbn [frames_shown]. rewrite app_nil_r.
    unfold shown_frame. rewrite Nat.add_0_r in Hq.
    rewrite Hq, Z.eqb_refl, app_nil_r.
    exists ([EvClear] ++ row_calls (splitlines frame) (fst ts) (snd ts) ++
            [status_call (splitlines frame) (fst ts) (snd ts) k total;
             EvRefresh]).
    rewrite <- !app_assoc. reflexivity.
  - destruct (IH q (S k)) as [t0 Ht0].
    + simpl in Hlt. lia.
    + replace (S k + q)%nat with (k + S q)%nat by lia. exact Hq.
    + rewrite Ht0. exists (shown_frame T ts total k frame ++ t0).
      rewrite <- app_assoc. reflexivity.
Qed.

(** C5: on a terminal where no call raises, let [X] (counted from 1) be
    the first frame whose poll returns 'q' ([X] beyond the last frame
    when 'q' is not polled during the playback). Then [play] draws and
    flushes exactly the first min(frameCount, X) frames and no frame
    after them, and when it quits at frame [X] it has slept [X - 1]
    times only: the poll that returns 'q' is directly followed by the
    end of the playback. *)
Theorem playback_stops_at_quit (T : terminal) (self : player) (X : nat) :
  quiet T -> (1 <= X)%nat ->
  (forall j, (j < X - 1)%nat -> key T j <> quit_key) ->
  ((X <= length (ascii_frames self))%nat -> key T (X - 1) = quit_key) ->
  let frames := ascii_frames self in
  let n := Nat.min (length frames) X in
  let t := trace (play T self) in
  calls is_clear t = n /\
  calls is_refresh t = n /\
  calls is_sleep t = Nat.min (length frames) (X - 1) /\
  (frames <> [] ->
   t = init_calls ++
       frames_shown T (term_size self) (Z.of_nat (length frames)) 0
                    (take X frames) ++
       [EvEndwin]) /\
  ((X <= length frames)%nat -> exists t0, t = t0 ++ [EvGetch; EvEndwin]).
Proof.
  intros HT HX Hno Hq frames n t.
  destruct X as [|q]; [lia |]. simpl in Hno, Hq.
  rewrite Nat.sub_0_r in Hno, Hq.
  assert (Hno' : forall j, (0 <= j < 0 + q)%nat -> key T j <> quit_key)
    by (intros j Hj; apply Hno; lia).
  assert (Hq' : (q < length frames)%nat -> key T (0 + q) = quit_key)
    by (intros Hlt; apply Hq; fold frames; lia).
  destruct (decide (frames = [])) as [Hnil | Hne].
  - subst t n. unfold play. fold frames. rewrite Hnil. simpl.
    repeat split; try reflexivity; [congruence | lia].
  - assert (Ht : t = init_calls ++
                     frames_shown T (term_size self)
                       (Z.of_nat (length frames)) 0 (take (S q) frames) ++
                     [EvEndwin]).
    { subst t. rewrite (play_quiet _ _ HT Hne). cbn [trace snd].
      fold frames.
      rewrite (loop_calls_until_quit _ _ _ _ q 0 Hno' Hq'). reflexivity. }
    destruct (calls_frames_shown T (term_size self)
                (Z.of_nat (length frames)) frames q 0 Hno' Hq')
      as (H1 & H2 & H3).
    cbv zeta in H1, H2, H3.
    repeat split.
    + rewrite Ht, !calls_app, H1. subst n. cbn. lia.
    + rewrite Ht, !calls_app, H2. subst n. cbn. lia.
    + rewrite Ht, !calls_app, H3. cbn. lia.
    + intros _. exact Ht.
    + intros Hle.
      destruct (frames_shown_ends_with_poll T (term_size self)
                  (Z.of_nat (length frames)) frames q 0) as [t0 Ht0];
        [lia | apply Hq'; lia |].
      exists (init_calls ++ t0). rewrite Ht, Ht0, <- !app_assoc. reflexivity.
Qed.

(** ** Frame conversion *)

Lemma result_try_except_Ret {A} (body : M A) (c : exn -> bool)
    (h : exn -> M A) (a : A) :
  result (try_except body c h) = Ret a ->
  result body = Ret a \/
  exists e, result body = Raise e /\ c e = true /\ result (h e) = Ret a.
Proof.
  unfold try_except. destruct body as [[b|e] t]; simpl; [auto |].
  destruct (c e) eqn:Hc; simpl; [| discriminate].
  destruct (h e) as [r t'] eqn:Hh. simpl. intros ->.
  right. exists e. rewrite Hh. auto.
Qed.

(** The glyph of a pixel. *)
Definition pixel_glyph (p : pixel) : char :=
  match glyph (pixel_value p) with
  | Ret c => c
  | Raise _ => 0%N
  end.

Lemma glyph_pixel (p : pixel) :
  glyph (pixel_value p) = Ret (pixel_glyph p) /\
  In (pixel_glyph p) ENHANCED_ASCII.
Proof.
  destruct (glyph_agrees_spec (pixel_value p) (pixel_value_range p))
    as (_ & c & Hc & Hl).
  unfold pixel_glyph. rewrite Hc. split; [reflexivity |].
  apply list_elem_of_In. eapply list_elem_of_lookup_2. exact Hl.
Qed.

Lemma ascii_line_eq (row : list pixel) :
  ascii_line row = (Ret (map pixel_glyph row), []).
Proof.
  unfold ascii_line. induction row as [|p row IH]; [reflexivity |].
  cbn [mapM map]. rewrite IH, (proj1 (glyph_pixel p)).
  unfold lift, ret. mrun. reflexivity.
Qed.

(** The text of a grey image: the glyphs of every row, each row followed
    by a line feed. *)
Definition ascii_text (rows : list (list pixel)) : str :=
  concat (map (fun row => map pixel_glyph row ++ [10%N]) rows).

Lemma ascii_rows_eq (rows : list (list pixel)) (acc : str) :
  ascii_rows rows acc = (Ret (acc ++ ascii_text rows), []).
Proof.
  revert acc. induction rows as [|row rows IH]; intros acc.
  - unfold ascii_text. simpl. rewrite app_nil_r. reflexivity.
  - cbn [ascii_rows]. rewrite ascii_line_eq. mrun. rewrite IH.
    unfold ascii_text. simpl. rewrite <- !app_assoc. reflexivity.
Qed.

Lemma ramp_no_linebreak (c : char) :
  In c ENHANCED_ASCII -> is_linebreak c = false.
Proof.
  assert (H : forallb (fun c => negb (is_linebreak c)) ENHANCED_ASCII = true)
    by (vm_compute; reflexivity).
  intros Hin. apply negb_true_iff.
  exact (proj1 (forallb_forall _ _) H c Hin).
Qed.

Lemma splitlines_line (l rest : str) :
  Forall (fun c => is_linebreak c = false) l ->
  splitlines (l ++ 10%N :: rest) = l :: splitlines rest.
Proof.
  induction 1 as [|c l Hc _ IH]; [reflexivity |].
  cbn [app splitlines]. rewrite IH, Hc.
  destruct (c =? 13)%N eqn:E; [| reflexivity].
  apply N.eqb_eq in E. subst c. discriminate Hc.
Qed.

Lemma splitlines_ascii_text (rows : list (list pixel)) :
  splitlines (ascii_text rows) = map (map pixel_glyph) rows.
Proof.
  unfold ascii_text. induction rows as [|row rows IH]; [reflexivity |].
  cbn [map concat]. rewrite <- app_assoc. cbn [app].
  rewrite splitlines_line, IH; [reflexivity |].
  apply Forall_forall. intros c Hc.
  apply in_map_iff in Hc as (p & <- & _).
  apply ramp_no_linebreak, glyph_pixel.
Qed.

(** C7: the ramp lookup is never out of bounds. At the high end the
    index is clamped by the [min]: whatever the input, an index that is
    computed is at most N - 1, and for an input that is not negative it
    lies in [0, N-1] and the lookup succeeds. The values that reach the
    glyph mapping are the samples of the grey image, unsigned 8-bit
    integers: for each of them the index is computed, lies in [0, N-1]
    and the lookup succeeds, so the text of every grey image is built
    without an [IndexError]. *)
Theorem ramp_lookup_in_bounds :
  (forall v i,
      ramp_index v = Ret i ->
      i <= ramp_len - 1 /\
      (0 <= v ->
       0 <= i /\
       exists c, glyph v = Ret c /\ ENHANCED_ASCII !! Z.to_nat i = Some c)) /\
  (forall p : pixel,
      0 <= pixel_value p <= 255 /\
      exists i c,
        ramp_index (pixel_value p) = Ret i /\ 0 <= i <= ramp_len - 1 /\
        ENHANCED_ASCII !! Z.to_nat i = Some c /\
        glyph (pixel_value p) = Ret c) /\
  (forall (cv : cv2_env) (gray : Mat cv),
      exists text,
        ascii_rows (rows_of cv gray) [] = (Ret text, []) /\
        length (splitlines text) = length (rows_of cv gray)).
Proof.
  split; [| split].
  - intros v i Hi.
    assert (Hhi : i <= ramp_len - 1).
    { revert Hi. unfold ramp_index.
      destruct (Float64.to_int _) as [k|e]; [| discriminate].
      intros [= <-]. lia. }
    split; [exact Hhi |]. intros Hv.
    pose proof (ramp_index_nonneg v i Hv Hi) as Hlo.
    split; [exact Hlo |]. unfold glyph. rewrite Hi.
    apply py_index_in_range. fold ramp_len. lia.
  - intros p. pose proof (pixel_value_range p) as Hp. split; [exact Hp |].
    destruct (glyph_agrees_spec _ Hp) as (Hi & c & Hc & Hl).
    exists (spec_ramp_index (pixel_value p)), c.
    split; [exact Hi |].
    split; [apply spec_ramp_index_range, Hp |]. split; assumption.
  - intros cv gray. exists (ascii_text (rows_of cv gray)).
    split; [apply (ascii_rows_eq _ []) |].
    rewrite splitlines_ascii_text, length_map. reflexivity.
Qed.

(** The sample 300, which no grey image holds, would get the index 28:
    the [min] brings 32 down to the last index of the ramp, the
    blank. *)
Lemma ramp_lookup_in_bounds_witness :
  ramp_index 300 = Ret 28 /\ 28 <= ramp_len - 1 /\ 0 <= 28 /\
  exists c, glyph 300 = Ret c /\ ENHANCED_ASCII !! Z.to_nat 28 = Some c.
Proof.
  assert (E : ramp_index 300 = Ret 28) by (vm_compute; reflexivity).
  destruct (proj1 ramp_lookup_in_bounds 300 28 E) as [H1 H2].
  split; [exact E | split; [exact H1 | apply H2; lia]].
Defined.

(** [p] holds on the [n] integers from [lo] on. *)
Fixpoint check_from (p : Z -> bool) (n : nat) (lo : Z) : bool :=
  match n with
  | O => true
  | S n' => p lo && check_from p n' (lo + 1)
  end.

Lemma check_from_spec (p : Z -> bool) (n : nat) (lo v : Z) :
  check_from p n lo = true -> lo <= v < lo + Z.of_nat n -> p v = true.
Proof.
  revert lo. induction n as [|n IH]; intros lo Hc Hv; [lia |].
  simpl in Hc. apply andb_prop in Hc as [Hlo Hrest].
  destruct (Z.eq_dec v lo) as [-> | Hne]; [exact Hlo |].
  apply (IH (lo + 1)); [exact Hrest | lia].
Qed.

(** The grid height the specification gives: [floor(rows * 0.9)]. *)
Definition spec_grid_height (rows : Z) : Z := rows * 9 / 10.

Definition height_agrees (rows : Z) : bool :=
  match grid_height (rows, 0) with
  | (Ret h, []) => h =? spec_grid_height rows
  | _ => false
  end.

(** The largest number of rows a terminal reports (an unsigned 16-bit
    field of the window size). *)
Definition max_terminal_rows : Z := 65535.

Lemma height_table :
  check_from height_agrees (Z.to_nat (max_terminal_rows + 1)) 0 = true.
Proof. vm_compute. reflexivity. Qed.

Lemma grid_height_eq (ts : Z * Z) :
  0 <= fst ts <= max_terminal_rows ->
  grid_height ts = (Ret (spec_grid_height (fst ts)), []).
Proof.
  intros Hr.
  pose proof (check_from_spec _ _ _ (fst ts) height_table) as H.
  specialize (H ltac:(unfold max_terminal_rows in *; lia)).
  unfold height_agrees in H. unfold grid_height in *. simpl fst in H.
  destruct (bind _ _) as [[h|e] [|ev t]]; try discriminate.
  apply Z.eqb_eq in H. subst h. reflexivity.
Qed.

(** What a successful conversion returns: the text of the resized grey
    image, whose size is the grid of the viewport. *)
Lemma convert_to_ascii_Some (cv : cv2_env) (ts : Z * Z) (path frame : str) :
  resize_contract cv ->
  result (_convert_to_ascii cv ts path) = Ret (Some frame) ->
  exists (gray : Mat cv) (height : Z),
    result (grid_height ts) = Ret height /\
    0 < height /\ 0 < grid_width ts /\
    length (rows_of cv gray) = Z.to_nat height /\
    Forall (fun row => length row = Z.to_nat (grid_width ts)) (rows_of cv gray) /\
    frame = ascii_text (rows_of cv gray).
Proof.
  intros Hcv H. unfold _convert_to_ascii in H.
  apply result_try_except_Ret in H as [H | (e & _ & _ & H)].
  2: { rewrite result_bind in H. simpl in H. discriminate H. }
  apply bind_result_Ret in H as (img0 & _ & H).
  apply bind_result_Ret in H as ([img|] & _ & H); [| discriminate H].
  apply bind_result_Ret in H as (img' & _ & H).
  apply bind_result_Ret in H as (gray0 & _ & H).
  apply bind_result_Ret in H as (height & Hh & H).
  apply bind_result_Ret in H as (gray & Hg & H).
  apply bind_result_Ret in H as (text & Ht & H).
  rewrite ascii_rows_eq in Ht. simpl in Ht, H, Hg.
  injection Ht as <-. injection H as <-.
  destruct (Hcv _ _ _ _ _ Hg) as (Hw & Hpos & Hlen & Hrows).
  exists gray, height. repeat split; assumption.
Qed.

(** ** The worker pool keeps the input order *)

(** The outcomes of the tasks, read in input order. *)
Fixpoint gather {R} (rs : list (pyres R)) : pyres (list R) :=
  match rs with
  | [] => Ret []
  | r :: rs' =>
      match r, gather rs' with
      | Ret a, Ret l => Ret (a :: l)
      | Raise e, _ => Raise e
      | Ret _, Raise e => Raise e
      end
  end.

Section ExecutorFacts.
Context {A R : Type}.
Variable f : A -> M R.

(** A slot is pending or holds the outcome of its own task. *)
Definition slot_ok (x : A) (slot : option (pyres R)) : Prop :=
  slot = None \/ slot = Some (result (f x)).

Lemma worker_done_ok (xs : list A) (st : pool) (i : nat) :
  Forall2 slot_ok xs (fst st) ->
  Forall2 slot_ok xs (fst (worker_done f xs st i)).
Proof.
  intros Hst. unfold worker_done.
  destruct (xs !! i) as [x|] eqn:Hx; [| exact Hst].
  destruct (fst st !! i) as [[r|]|]; try exact Hst.
  cbn [fst]. rewrite <- (list_insert_id xs i x Hx).
  apply Forall2_insert; [exact Hst | right; reflexivity].
Qed.

Lemma run_pool_ok (xs : list A) (sched : list nat) :
  Forall2 slot_ok xs (fst (run_pool f xs sched)).
Proof.
  unfold run_pool.
  assert (H0 : Forall2 slot_ok xs
                 (fst (replicate (length xs) (@None (pyres R)), @nil event))).
  { cbn [fst]. induction xs as [|x xs IH]; constructor;
      [left; reflexivity | exact IH]. }
  revert H0. generalize (replicate (length xs) (@None (pyres R)), @nil event).
  induction sched as [|i sched IH]; intros st Hst; [exact Hst |].
  cbn [foldl]. apply IH, worker_done_ok, Hst.
Qed.

Lemma collect_result (xs : list A) (slots : list (option (pyres R))) :
  Forall2 slot_ok xs slots ->
  result (collect f xs slots) = gather (map (fun x => result (f x)) xs).
Proof.
  induction 1 as [|x slot xs slots Hs _ IH]; [reflexivity |].
  cbn [collect map gather]. rewrite <- IH, result_bind.
  assert (E : result match slot with
                     | Some r => lift r
                     | None => f x
                     end = result (f x))
    by (destruct Hs as [-> | ->]; reflexivity).
  rewrite E. destruct (result (f x)) as [a|e]; [| reflexivity].
  rewrite result_bind.
  destruct (result (collect f xs slots)); reflexivity.
Qed.

(** Whatever the order in which the workers finish, the results are
    those of the tasks in input order. *)
Lemma executor_map_result (xs : list A) (sched : list nat) :
  result (executor_map f xs sched) = gather (map (fun x => result (f x)) xs).
Proof.
  unfold executor_map. pose proof (run_pool_ok xs sched) as H.
  destruct (run_pool f xs sched) as [slots t]. cbn [fst] in H.
  unfold emit_all. rewrite result_bind. cbn [result fst].
  apply collect_result, H.
Qed.

Lemma gather_all_Ret (xs : list A) (rs : list R) :
  Forall2 (fun x r => result (f x) = Ret r) xs rs ->
  gather (map (fun x => result (f x)) xs) = Ret rs.
Proof.
  induction 1 as [|x r xs rs Hx _ IH]; [reflexivity |].
  cbn [map gather]. rewrite Hx, IH. reflexivity.
Qed.
End ExecutorFacts.

(** A successful conversion is not the empty text. *)
Lemma convert_to_ascii_nonempty (cv : cv2_env) (ts : Z * Z) (path frame : str) :
  resize_contract cv ->
  result (_convert_to_ascii cv ts path) = Ret (Some frame) ->
  truthy (Some frame) = Some frame.
Proof.
  intros Hcv H.
  destruct (convert_to_ascii_Some cv _ _ _ Hcv H)
    as (gray & height & _ & Hpos & _ & Hlen & _ & ->).
  destruct (rows_of cv gray) as [|row rows]; [simpl in Hlen; lia |].
  unfold ascii_text. cbn [map concat].
  destruct (map pixel_glyph row); reflexivity.
Qed.

(** The successful conversions of a list of results, in order. *)
Definition successes (rs : list (option str)) : list str := omap id rs.

(** The frames of the batch conversion are the per-path results in
    path order, without the failed ones, whatever the order in which
    the workers finish. *)
Lemma convert_frames_successes (cv : cv2_env) (ts : Z * Z)
    (files : list str) (rs : list (option str)) (sched : list nat) :
  resize_contract cv ->
  Forall2 (fun f r => result (_convert_to_ascii cv ts (frame_path f)) = Ret r)
          files rs ->
  result (convert_frames cv ts files sched) = Ret (successes rs).
Proof.
  intros Hcv Hrs. unfold convert_frames.
  rewrite result_bind, executor_map_result.
  rewrite (gather_all_Ret _ _ _ Hrs). cbn [result ret fst]. f_equal.
  unfold successes. induction Hrs as [|f r files rs Hr _ IH]; [reflexivity |].
  cbn [omap list_omap]. rewrite IH.
  destruct r as [frame|]; [| reflexivity].
  rewrite (convert_to_ascii_nonempty cv ts _ _ Hcv Hr). reflexivity.
Qed.

(** The run [W] with the workers finishing in the order [s]. *)
Definition with_sched (W : world) (s : list nat) : world :=
  {| terminal_size := terminal_size W;
     video_exists := video_exists W;
     ffmpeg_status := ffmpeg_status W;
     listing := listing W;
     cv2 := cv2 W;
     sched := s;
     term := term W |}.

(** C3: whatever the order [s] in which the workers finish, the batch
    conversion of a sequence of paths gives the per-path results in
    path order, without the failed ones; and [convert_video], once the
    stills are decoded, stores exactly this sequence for the stills in
    the order of their names and returns whether it is non-empty. *)
Theorem convert_video_keeps_order (W : world) (self : player) (s : list nat) :
  resize_contract (cv2 W) ->
  (forall (files : list str) (rs : list (option str)),
      Forall2 (fun f r =>
                 result (_convert_to_ascii (cv2 W) (term_size self)
                                           (frame_path f)) = Ret r)
              files rs ->
      result (convert_frames (cv2 W) (term_size self) files s)
      = Ret (successes rs)) /\
  (video_exists W = true -> ffmpeg_status W = 0 ->
   forall rs : list (option str),
     Forall2 (fun f r =>
                result (_convert_to_ascii (cv2 W) (term_size self)
                                          (frame_path f)) = Ret r)
             (frame_files W) rs ->
     result (convert_video (with_sched W s) self)
     = Ret (negb (bool_decide (successes rs = [])),
            {| term_size := term_size self; ascii_frames := successes rs |})).
Proof.
  intros Hcv. split.
  - intros files rs Hrs. apply convert_frames_successes; assumption.
  - intros Hv Hf rs Hrs. unfold convert_video.
    cbn [with_sched video_exists ffmpeg_status cv2 sched].
    change (frame_files (with_sched W s)) with (frame_files W).
    rewrite Hv, Hf. cbn [negb Z.eqb].
    rewrite result_bind. cbn [result emit fst].
    rewrite result_bind.
    rewrite (convert_frames_successes _ _ _ rs s Hcv Hrs).
    reflexivity.
Qed.

(** ** Nothing to play *)

(** The events that only [play] and the announcement before it
    produce. *)
Definition is_playback (e : event) : bool :=
  match e with
  | EvPrint MsgNoFrames | EvPrint (MsgReady _ _ _) => true
  | _ => is_curses_call e
  end.

Section ExecutorCalls.
Context {A R : Type}.
Variables (P : event -> Prop) (f : A -> M R).
Hypothesis Hf : forall x, all_calls P (f x).

Lemma run_pool_calls (xs : list A) (sched : list nat) :
  Forall P (snd (run_pool f xs sched)).
Proof.
  unfold run_pool.
  assert (H0 : Forall P (snd (replicate (length xs) (@None (pyres R)),
                              @nil event))) by constructor.
  revert H0. generalize (replicate (length xs) (@None (pyres R)), @nil event).
  induction sched as [|i sched IH]; intros st Hst; [exact Hst |].
  cbn [foldl]. apply IH. unfold worker_done.
  destruct (xs !! i) as [x|]; [| exact Hst].
  destruct (fst st !! i) as [[r|]|]; try exact Hst.
  cbn [snd]. apply Forall_app. split; [exact Hst | apply Hf].
Qed.

Lemma collect_calls (xs : list A) (slots : list (option (pyres R))) :
  all_calls P (collect f xs slots).
Proof.
  revert slots. induction xs as [|x xs IH]; intros slots; [constructor |].
  destruct slots as [|slot slots]; [constructor |].
  cbn [collect]. apply all_calls_bind.
  - destruct slot as [r|]; [apply all_calls_lift | apply Hf].
  - intros r. apply all_calls_bind; [apply IH | intros rs].
    apply all_calls_ret.
Qed.

Lemma executor_map_calls (xs : list A) (sched : list nat) :
  all_calls P (executor_map f xs sched).
Proof.
  unfold executor_map. pose proof (run_pool_calls xs sched) as H.
  destruct (run_pool f xs sched) as [slots t]. cbn [snd] in H.
  apply all_calls_bind; [exact H | intros _; apply collect_calls].
Qed.
End ExecutorCalls.

Lemma enhance_image_calls (P : event -> Prop) (cv : cv2_env) (img : Mat cv) :
  all_calls P (_enhance_image cv img).
Proof.
  unfold _enhance_image.
  apply all_calls_bind; [apply all_calls_lift | intros lab].
  apply all_calls_bind; [apply all_calls_lift | intros chans].
  destruct chans as [|l [|a [|b [|c chans]]]]; try apply all_calls_raise.
  repeat (all_calls_step; auto).
Qed.

Lemma convert_to_ascii_calls (cv : cv2_env) (ts : Z * Z) (path : str) :
  all_calls (fun e => is_playback e = false) (_convert_to_ascii cv ts path).
Proof.
  unfold _convert_to_ascii.
  apply all_calls_try_except.
  - apply all_calls_bind; [apply all_calls_lift | intros img0].
    apply all_calls_bind.
    { destruct img0; [apply all_calls_ret | apply all_calls_lift]. }
    intros [img|]; [| apply all_calls_ret].
    apply all_calls_bind; [apply enhance_image_calls | intros img'].
    apply all_calls_bind; [apply all_calls_lift | intros gray0].
    apply all_calls_bind.
    { unfold grid_height. repeat (all_calls_step; auto). }
    intros height.
    apply all_calls_bind; [apply all_calls_lift | intros gray].
    apply all_calls_bind; [| intros text; apply all_calls_ret].
    unfold all_calls. rewrite ascii_rows_eq. constructor.
  - intros e. apply all_calls_bind; [| intros u; apply all_calls_ret].
    apply all_calls_emit. reflexivity.
Qed.

Lemma convert_video_calls (W : world) (self : player) :
  all_calls (fun e => is_playback e = false) (convert_video W self).
Proof.
  unfold convert_video, convert_frames, print.
  destruct (negb (video_exists W)); [repeat (all_calls_step; auto) |].
  all_calls_step; [all_calls_step; reflexivity |].
  destruct (negb (ffmpeg_status W =? 0)); [repeat (all_calls_step; auto) |].
  all_calls_step; [| all_calls_step].
  all_calls_step; [| all_calls_step].
  apply executor_map_calls. intros f. apply convert_to_ascii_calls.
Qed.

Lemma convert_video_no_frames (W : world) (self : player) :
  ascii_frames self = [] ->
  Forall (fun f => result (_convert_to_ascii (cv2 W) (term_size self)
                                             (frame_path f)) = Ret None)
         (frame_files W) ->
  result (convert_video W self) = Ret (false, self).
Proof.
  intros Hnil Hall. destruct self as [ts frames]. simpl in Hnil. subst frames.
  unfold convert_video, print.
  destruct (negb (video_exists W)); [reflexivity |].
  rewrite result_bind. cbn [result emit fst].
  destruct (negb (ffmpeg_status W =? 0)); [reflexivity |].
  rewrite result_bind. unfold convert_frames.
  rewrite result_bind, executor_map_result.
  rewrite (gather_all_Ret _ _ (map (fun _ => None) (frame_files W))).
  - cbn [result ret fst term_size].
    replace (omap truthy (map (fun _ : str => None) (frame_files W)))
      with (@nil str); [reflexivity |].
    clear Hall. induction (frame_files W) as [|f fs IH];
      [reflexivity | exact IH].
  - cbn [term_size] in Hall. induction Hall; constructor; auto.
Qed.

(** C4: when every conversion fails, [convert_video] leaves the player
    without frames and returns false, and the script exits with status
    1 with no call and no message of the playback. *)
Theorem no_frames_no_playback (W : world) :
  let self := {| term_size := _get_terminal_size (terminal_size W);
                 ascii_frames := [] |} in
  Forall (fun f => result (_convert_to_ascii (cv2 W) (term_size self)
                                             (frame_path f)) = Ret None)
         (frame_files W) ->
  result (convert_video W self) = Ret (false, self) /\
  ascii_frames self = [] /\
  exit_status (result (main W)) = 1 /\
  Forall (fun e => is_playback e = false) (trace (main W)).
Proof.
  intros self Hall.
  pose proof (convert_video_no_frames W self eq_refl Hall) as Hr.
  pose proof (convert_video_calls W self) as Hc.
  split; [exact Hr | split; [reflexivity |]].
  assert (E : exists t, convert_video W self = (Ret (false, self), t) /\
                        Forall (fun e => is_playback e = false) t).
  { unfold all_calls in Hc. destruct (convert_video W self) as [r t].
    cbn [result trace fst snd] in Hr, Hc. subst r. eauto. }
  destruct E as (t & E & Ht).
  unfold main, HDAsciiPlayer, cleanup, print, emit, ret. mrun.
  fold self. rewrite E. mrun.
  unfold raise, try_except, try_finally. mrun.
  cbn [is_KeyboardInterrupt negb]. mrun. split; [reflexivity |].
  repeat (apply Forall_cons; [reflexivity |]).
  rewrite ?app_nil_r. apply Forall_app. split; [exact Ht |].
  repeat constructor.
Qed.

(** * Concrete runs *)

(** An OpenCV stand-in on arrays given as lists of rows: [imread] finds
    no image at a path ending in [b.png], a black pixel at a path
    ending in [a.png] and a white pixel elsewhere; enhancement leaves the
    image as it is; [resize] fills the target grid with the first
    sample. *)
Definition first_sample (m : list (list pixel)) : pixel :=
  match m with
  | (p :: _) :: _ => p
  | _ => "000"%byte
  end.

Definition demo_cv : cv2_env := {|
  Mat := list (list pixel);
  imread := fun path =>
    if endswith path (lit "b.png") then Ret None
    else if endswith path (lit "a.png") then Ret (Some [["000"%byte]])
    else Ret (Some [["255"%byte]]);
  imdecode_fromfile := fun _ => Ret None;
  cvtColor := fun m _ => Ret m;
  split := fun m => Ret [m; m; m];
  clahe_apply := fun _ _ m => Ret m;
  merge := fun ms => match ms with m :: _ => Ret m | [] => Raise Cv2Error end;
  filter2D := fun m _ _ => Ret m;
  resize := fun m size _ =>
    let '(w, h) := size in
    if (0 <? w) && (0 <? h)
    then Ret (replicate (Z.to_nat h) (replicate (Z.to_nat w) (first_sample m)))
    else Raise Cv2Error;
  rows_of := fun m => m
|}.

Lemma demo_cv_contract : resize_contract demo_cv.
Proof.
  intros g g' w h i. simpl.
  destruct ((0 <? w) && (0 <? h)) eqn:E; [| discriminate].
  intros [= <-]. apply andb_prop in E as [Hw Hh].
  repeat split; try lia.
  - apply length_replicate.
  - apply Forall_replicate, length_replicate.
Qed.

(** A run with three stills, of which [b.png] cannot be read, and a
    file that is no still, on a terminal of 26 rows and 84 columns. *)
Definition demo_world (T : terminal) : world := {|
  terminal_size := Ret (84, 26);
  video_exists := true;
  ffmpeg_status := 0;
  listing := [lit "c.png"; lit "notes.txt"; lit "a.png"; lit "b.png"];
  cv2 := demo_cv;
  sched := [2; 0]%nat;
  term := T
|}.

(** The player after the conversion of that run. *)
Definition demo_player : player :=
  {| term_size := (24, 80);
     ascii_frames := [flat_frame 21 80 64%N; flat_frame 21 80 32%N] |}.

(** The stills [a.png], [b.png] and [c.png], of which the second cannot
    be read, with the workers finishing in the order third, first,
    second: the player gets the frames of the first and of the third
    still, in this order. *)
Lemma convert_video_keeps_order_witness :
  result (convert_video (with_sched (demo_world silent_terminal) [2; 0; 1]%nat)
                        {| term_size := (24, 80); ascii_frames := [] |})
  = Ret (true, demo_player).
Proof.
  rewrite (proj2 (convert_video_keeps_order (demo_world silent_terminal)
                    {| term_size := (24, 80); ascii_frames := [] |}
                    [2; 0; 1]%nat demo_cv_contract)
                 eq_refl eq_refl
                 [Some (flat_frame 21 80 64%N); None;
                  Some (flat_frame 21 80 32%N)]).
  - reflexivity.
  - replace (frame_files (demo_world silent_terminal))
      with [lit "a.png"; lit "b.png"; lit "c.png"]
      by (vm_compute; reflexivity).
    apply Forall2_cons; [vm_compute; reflexivity |].
    apply Forall2_cons; [vm_compute; reflexivity |].
    apply Forall2_cons; [vm_compute; reflexivity |].
    apply Forall2_nil.
Defined.

(** A run in which the only still cannot be read. *)
Definition unreadable_world : world := {|
  terminal_size := Ret (84, 26);
  video_exists := true;
  ffmpeg_status := 0;
  listing := [lit "b.png"; lit "notes.txt"];
  cv2 := demo_cv;
  sched := [0%nat];
  term := silent_terminal
|}.

Lemma no_frames_no_playback_witness :
  exit_status (result (main unreadable_world)) = 1 /\
  Forall (fun e => is_playback e = false) (trace (main unreadable_world)).
Proof.
  apply (no_frames_no_playback unreadable_world).
  replace (frame_files unreadable_world) with [lit "b.png"]
    by (vm_compute; reflexivity).
  apply Forall_cons; [vm_compute; reflexivity | apply Forall_nil].
Defined.

(** A terminal on which the second poll returns 'q'. *)
Definition quit_on_second : terminal :=
  {| fault := fun _ => None;
     key := fun idx => if Nat.eqb idx 1 then quit_key else -1 |}.

Definition three_frames : player :=
  {| term_size := (24, 80);
     ascii_frames := [flat_frame 2 3 64%N; flat_frame 2 3 35%N;
                      flat_frame 2 3 32%N] |}.

Lemma playback_stops_at_quit_witness :
  calls is_refresh (trace (play quit_on_second three_frames)) = 2%nat /\
  calls is_sleep (trace (play quit_on_second three_frames)) = 1%nat.
Proof.
  assert (H : forall j, (j < 2 - 1)%nat -> key quit_on_second j <> quit_key).
  { intros j Hj. replace j with 0%nat by lia. vm_compute. discriminate. }
  destruct (playback_stops_at_quit quit_on_second three_frames 2
              (fun s => eq_refl) ltac:(lia) H (fun _ => eq_refl))
    as (_ & Hr & Hs & _).
  split; [exact Hr | exact Hs].
Defined.

(** A terminal on which an interruption arrives at the flush of the
    first frame. *)
Definition interrupted_terminal : terminal :=
  {| fault := fun s => match s with
                       | AtRefresh 0 => Some KeyboardInterrupt
                       | _ => None
                       end;
     key := fun _ => -1 |}.

Lemma play_restores_terminal_once_witness :
  result (play interrupted_terminal three_frames) = Raise KeyboardInterrupt /\
  calls is_endwin (trace (play interrupted_terminal three_frames)) = 1%nat /\
  list.last (trace (play interrupted_terminal three_frames)) = Some EvEndwin.
Proof.
  split; [vm_compute; reflexivity |].
  apply (play_restores_terminal_once interrupted_terminal three_frames).
  discriminate.
Defined.

Lemma frame_rendering_witness :
  status_call (splitlines (flat_frame 21 80 64%N)) 24 80 0 1
  = EvAddstr 21 0 (status_line 0 1).
Proof.
  destruct (frame_rendering silent_terminal 24 80 1 0 (flat_frame 21 80 64%N)
              silent_terminal_quiet ltac:(lia) ltac:(lia))
    as (_ & _ & _ & H).
  rewrite H. vm_compute. reflexivity.
Defined.

(** * Further properties of the player *)

(** ** Outcomes of a conversion *)

Lemma no_calls_nil {A} (m : M A) :
  all_calls (fun _ => False) m -> trace m = [].
Proof.
  unfold all_calls. destruct (trace m) as [|e t]; [reflexivity |].
  intros H. inversion H as [|? ? Hf _]. destruct Hf.
Qed.

Lemma pair_result_trace {A} (m : M A) : m = (result m, trace m).
Proof. destruct m; reflexivity. Qed.

(** The statements inside the [try] of [_convert_to_ascii]. *)
Definition convert_body (cv : cv2_env) (term_size : Z * Z) (img_path : str)
  : M (option str) :=
  img <- lift (imread cv img_path) ;;
  img <- match img with
         | None => lift (imdecode_fromfile cv img_path)
         | Some _ => ret img
         end ;;
  match img with
  | None => ret None
  | Some img =>
      img <- _enhance_image cv img ;;
      gray <- lift (cvtColor cv img COLOR_BGR2GRAY) ;;
      height <- grid_height term_size ;;
      let width := grid_width term_size in
      gray <- lift (resize cv gray (width, height) INTER_AREA) ;;
      ascii_str <- ascii_rows (rows_of cv gray) [] ;;
      ret (Some ascii_str)
  end.

(** What becomes of an exception [e] raised inside the [try]: an
    [Exception] is reported with the path and gives [None]; anything
    else goes through, in silence. *)
Definition handled (img_path : str) (e : exn) : M (option str) :=
  if is_Exception e
  then (Ret None, [EvPrint (MsgConvertError img_path e)])
  else (Raise e, []).

Lemma enhance_image_silent (cv : cv2_env) (img : Mat cv) :
  trace (_enhance_image cv img) = [].
Proof. apply no_calls_nil, enhance_image_calls. Qed.

Lemma grid_height_silent (ts : Z * Z) : trace (grid_height ts) = [].
Proof.
  apply no_calls_nil. unfold grid_height.
  apply all_calls_bind; [apply all_calls_lift | intros r].
  apply all_calls_lift.
Qed.

Lemma convert_body_silent (cv : cv2_env) (ts : Z * Z) (path : str) :
  trace (convert_body cv ts path) = [].
Proof.
  apply no_calls_nil. unfold convert_body.
  apply all_calls_bind; [apply all_calls_lift | intros img0].
  apply all_calls_bind.
  { destruct img0; [apply all_calls_ret | apply all_calls_lift]. }
  intros [img|]; [| apply all_calls_ret].
  apply all_calls_bind; [apply enhance_image_calls | intros img'].
  apply all_calls_bind; [apply all_calls_lift | intros gray0].
  apply all_calls_bind.
  { unfold all_calls. rewrite grid_height_silent. constructor. }
  intros height.
  apply all_calls_bind; [apply all_calls_lift | intros gray].
  apply all_calls_bind; [| intros text; apply all_calls_ret].
  unfold all_calls. rewrite ascii_rows_eq. constructor.
Qed.

Lemma convert_to_ascii_handled (cv : cv2_env) (ts : Z * Z) (path : str) :
  _convert_to_ascii cv ts path
  = match result (convert_body cv ts path) with
    | Ret r => (Ret r, [])
    | Raise e => handled path e
    end.
Proof.
  change (_convert_to_ascii cv ts path)
    with (try_except (convert_body cv ts path) is_Exception
            (fun e => emit (EvPrint (MsgConvertError path e)) ;; ret None)).
  rewrite (pair_result_trace (convert_body cv ts path)), convert_body_silent.
  cbn [result fst].
  destruct (result (convert_body cv ts path)) as [r|e]; [reflexivity |].
  unfold try_except, handled. destruct (is_Exception e); reflexivity.
Qed.

(** The outcomes of [_convert_to_ascii]. The statements inside its
    [try] print nothing. What they return is returned, in silence. An
    [Exception] they raise is caught: the result is [None] after one
    report, which names the path and this exception; an exception that
    is not an [Exception] goes through, in silence. So it is with what
    the first OpenCV call ([imread]) raises, with an [OverflowError] of
    the grid height, and with what the last OpenCV call ([resize])
    raises. No [Exception] ever leaves [_convert_to_ascii]. *)
Theorem convert_to_ascii_outcomes (cv : cv2_env) (ts : Z * Z) (path : str) :
  trace (convert_body cv ts path) = [] /\
  _convert_to_ascii cv ts path
  = match result (convert_body cv ts path) with
    | Ret r => (Ret r, [])
    | Raise e =>
        if is_Exception e
        then (Ret None, [EvPrint (MsgConvertError path e)])
        else (Raise e, [])
    end /\
  (forall e, imread cv path = Raise e ->
             _convert_to_ascii cv ts path = handled path e) /\
  (forall img enhanced gray e,
      imread cv path = Ret (Some img) ->
      result (_enhance_image cv img) = Ret enhanced ->
      cvtColor cv enhanced COLOR_BGR2GRAY = Ret gray ->
      result (grid_height ts) = Raise e ->
      _convert_to_ascii cv ts path = handled path e) /\
  (forall img enhanced gray height e,
      imread cv path = Ret (Some img) ->
      result (_enhance_image cv img) = Ret enhanced ->
      cvtColor cv enhanced COLOR_BGR2GRAY = Ret gray ->
      result (grid_height ts) = Ret height ->
      resize cv gray (grid_width ts, height) INTER_AREA = Raise e ->
      _convert_to_ascii cv ts path = handled path e) /\
  (forall e, result (_convert_to_ascii cv ts path) = Raise e ->
             is_Exception e = false).
Proof.
  split; [apply convert_body_silent |].
  split; [apply convert_to_ascii_handled |].
  split; [| split; [| split]].
  - intros e He. rewrite convert_to_ascii_handled.
    unfold convert_body. rewrite He. reflexivity.
  - intros img enhanced gray e Hi He Hg Hh.
    rewrite convert_to_ascii_handled. unfold convert_body.
    rewrite Hi. unfold lift at 1, ret at 1. mrun.
    rewrite (pair_result_trace (_enhance_image cv img)), He,
      enhance_image_silent.
    mrun. rewrite Hg. unfold lift at 1. mrun.
    rewrite (pair_result_trace (grid_height ts)), Hh, grid_height_silent.
    reflexivity.
  - intros img enhanced gray height e Hi He Hg Hh Hr.
    rewrite convert_to_ascii_handled. unfold convert_body.
    rewrite Hi. unfold lift at 1, ret at 1. mrun.
    rewrite (pair_result_trace (_enhance_image cv img)), He,
      enhance_image_silent.
    mrun. rewrite Hg. unfold lift at 1. mrun.
    rewrite (pair_result_trace (grid_height ts)), Hh, grid_height_silent.
    mrun. rewrite Hr. reflexivity.
  - intros e. rewrite convert_to_ascii_handled.
    destruct (result (convert_body cv ts path)) as [r|e']; [discriminate |].
    unfold handled. destruct (is_Exception e') eqn:E; [discriminate |].
    cbn [result fst]. intros [= <-]. exact E.
Qed.

(** The second way of reading an image is tried only when [cv2.imread]
    finds none, and the image it decodes is converted as one that
    [cv2.imread] returns; when both find none the result is [None], in
    silence. *)
Theorem image_read_fallback (cv : cv2_env) (ts : Z * Z) (p q : str)
    (img : Mat cv) :
  imread cv p = Ret (Some img) ->
  imread cv q = Ret None ->
  (imdecode_fromfile cv q = Ret (Some img) ->
   result (_convert_to_ascii cv ts q) = result (_convert_to_ascii cv ts p)) /\
  (imdecode_fromfile cv q = Ret None ->
   _convert_to_ascii cv ts q = (Ret None, [])).
Proof.
  intros Hp Hq. split; intros Hd.
  - unfold _convert_to_ascii. rewrite Hp, Hq, Hd. unfold lift, ret. mrun.
    match goal with |- context [try_except ?b _ _] => generalize b end.
    intros [[r|e] t]; unfold try_except; [reflexivity |].
    destruct (is_Exception e); reflexivity.
  - unfold _convert_to_ascii. rewrite Hq, Hd. unfold lift, ret. mrun.
    reflexivity.
Qed.

(** ** Every task of the pool runs once *)

Section ExecutorTrace.
Context {A R : Type}.
Variable f : A -> M R.

(** The calls of the tasks whose slot is filled, and of those whose
    slot is pending. *)
Definition done_calls (xs : list A) (slots : list (option (pyres R))) : list event :=
  concat (zip_with (fun x (s : option (pyres R)) =>
                      match s with Some _ => trace (f x) | None => [] end)
                   xs slots).

Definition pending_calls (xs : list A) (slots : list (option (pyres R))) : list event :=
  concat (zip_with (fun x (s : option (pyres R)) =>
                      match s with Some _ => [] | None => trace (f x) end)
                   xs slots).

Lemma done_calls_insert (xs : list A) (slots : list (option (pyres R)))
    (i : nat) (x : A) (r : pyres R) :
  xs !! i = Some x -> slots !! i = Some None ->
  Permutation (done_calls xs (<[i := Some r]> slots))
              (done_calls xs slots ++ trace (f x)).
Proof.
  revert slots i. induction xs as [|y xs IH]; intros slots i Hx Hs;
    [discriminate |].
  destruct slots as [|s slots]; [discriminate |].
  destruct i as [|i]; simpl in Hx, Hs.
  - injection Hx as ->. injection Hs as ->.
    unfold done_calls. simpl. apply Permutation_app_comm.
  - unfold done_calls in *. simpl. rewrite <- app_assoc.
    apply Permutation_app_head. apply IH; assumption.
Qed.

Lemma done_calls_none (xs : list A) (n : nat) :
  done_calls xs (replicate n None) = [].
Proof.
  revert n. induction xs as [|x xs IH]; intros [|n]; try reflexivity.
  unfold done_calls in *. simpl. apply IH.
Qed.

Lemma run_pool_trace (xs : list A) (sched : list nat) :
  Permutation (snd (run_pool f xs sched))
              (done_calls xs (fst (run_pool f xs sched))) /\
  length (fst (run_pool f xs sched)) = length xs.
Proof.
  unfold run_pool.
  assert (H0 : Permutation
                 (snd (replicate (length xs) (@None (pyres R)), @nil event))
                 (done_calls xs
                    (fst (replicate (length xs) (@None (pyres R)), @nil event)))
               /\ length (fst (replicate (length xs) (@None (pyres R)),
                               @nil event)) = length xs).
  { cbn [fst snd]. rewrite done_calls_none, length_replicate. auto. }
  revert H0. generalize (replicate (length xs) (@None (pyres R)), @nil event).
  induction sched as [|i sched IH]; intros st Hst; [exact Hst |].
  cbn [foldl]. apply IH. unfold worker_done.
  destruct (xs !! i) as [x|] eqn:Hx; [| exact Hst].
  destruct (fst st !! i) as [[r|]|] eqn:Hs; try exact Hst.
  destruct Hst as [Hp Hl]. cbn [fst snd]. split.
  - rewrite (done_calls_insert xs (fst st) i x _ Hx Hs).
    apply Permutation_app_tail, Hp.
  - rewrite length_insert. exact Hl.
Qed.

(** The calls made while the futures are read are calls of pending
    tasks, each made at most once. *)
Lemma collect_trace_sub (xs : list A) (slots : list (option (pyres R))) :
  submseteq (trace (collect f xs slots)) (pending_calls xs slots).
Proof.
  revert slots. induction xs as [|x xs IH]; intros slots;
    [apply submseteq_nil_l |].
  destruct slots as [|s slots]; [apply submseteq_nil_l |].
  cbn [collect]. unfold pending_calls. cbn [zip_with concat].
  rewrite trace_bind. destruct s as [r|].
  - cbn [lift trace result fst snd app]. destruct r as [a|e].
    + rewrite trace_bind.
      destruct (result (collect f xs slots));
        cbn [ret trace snd]; rewrite app_nil_r; apply IH.
    + apply submseteq_nil_l.
  - apply submseteq_app; [reflexivity |].
    destruct (result (f x)) as [a|e]; [| apply submseteq_nil_l].
    rewrite trace_bind.
    destruct (result (collect f xs slots));
      cbn [ret trace snd]; rewrite app_nil_r; apply IH.
Qed.

(** When no task raises, every pending task is run while the futures
    are read. *)
Lemma collect_trace_all (xs : list A) (slots : list (option (pyres R))) :
  Forall (fun x => exists r, result (f x) = Ret r) xs ->
  Forall2 (slot_ok f) xs slots ->
  trace (collect f xs slots) = pending_calls xs slots.
Proof.
  intros Hret Hok. induction Hok as [|x s xs slots Hs _ IH]; [reflexivity |].
  inversion Hret as [|x' xs' [a Ha] Hret' Ex]. subst x' xs'.
  specialize (IH Hret').
  cbn [collect]. unfold pending_calls in *. cbn [zip_with concat].
  rewrite trace_bind.
  assert (E : result match s with
                     | Some r => lift r
                     | None => f x
                     end = Ret a)
    by (destruct Hs as [-> | ->]; exact Ha).
  rewrite E, trace_bind.
  replace (trace match s with
                 | Some r => lift r
                 | None => f x
                 end)
    with (match s with
          | Some _ => []
          | None => trace (f x)
          end) by (destruct s; reflexivity).
  f_equal.
  destruct (result (collect f xs slots));
    cbn [ret trace snd]; rewrite app_nil_r; exact IH.
Qed.

Lemma done_pending_calls (xs : list A) (slots : list (option (pyres R))) :
  length slots = length xs ->
  Permutation (done_calls xs slots ++ pending_calls xs slots)
              (concat (map (fun x => trace (f x)) xs)).
Proof.
  revert slots. induction xs as [|x xs IH]; intros [|s slots] Hl;
    try discriminate; [reflexivity |].
  injection Hl as Hl. specialize (IH slots Hl).
  unfold done_calls, pending_calls in *. cbn [zip_with concat map].
  destruct s as [r|]; cbn [app].
  - rewrite <- app_assoc. apply Permutation_app_head, IH.
  - rewrite <- IH, !app_assoc.
    apply Permutation_app_tail, Permutation_app_comm.
Qed.

(** Whatever the order in which the workers finish, and even if the
    schedule names a task twice or names no such task, no task runs
    more than once: the calls of [executor.map] are calls of the tasks,
    each made at most once. When no task raises, every task runs
    exactly once: the calls are those of the tasks, up to their order. *)
Theorem executor_map_runs_each_task_once (xs : list A) (sched : list nat) :
  submseteq (trace (executor_map f xs sched))
            (concat (map (fun x => trace (f x)) xs)) /\
  (Forall (fun x => exists r, result (f x) = Ret r) xs ->
   Permutation (trace (executor_map f xs sched))
               (concat (map (fun x => trace (f x)) xs))).
Proof.
  unfold executor_map. destruct (run_pool_trace xs sched) as [Hp Hl].
  pose proof (run_pool_ok f xs sched) as Hok.
  destruct (run_pool f xs sched) as [slots t]. cbn [fst snd] in Hp, Hl, Hok.
  unfold emit_all. rewrite trace_bind. cbn [trace result fst snd].
  split.
  - rewrite <- (done_pending_calls xs slots Hl), Hp.
    apply submseteq_skips_l, collect_trace_sub.
  - intros Hret. rewrite (collect_trace_all xs slots Hret Hok), Hp.
    apply done_pending_calls, Hl.
Qed.
End ExecutorTrace.

(** ** The order of the stills *)

From Stdlib Require Import Sorted.

(** The order [sorted] uses on file names. *)
Definition str_le (a b : str) : Prop := str_leb a b = true.

Lemma str_leb_total (a b : str) : str_leb a b = true \/ str_leb b a = true.
Proof.
  revert b. induction a as [|x a IH]; intros [|y b]; simpl; auto.
  destruct (N.ltb_spec x y), (N.ltb_spec y x); auto; lia.
Qed.

Lemma str_leb_antisym (a b : str) :
  str_leb a b = true -> str_leb b a = true -> a = b.
Proof.
  revert b. induction a as [|x a IH]; intros [|y b]; simpl;
    try reflexivity; try discriminate.
  destruct (N.ltb_spec x y), (N.ltb_spec y x); try discriminate; try lia.
  intros Hab Hba. f_equal; [lia | apply IH; assumption].
Qed.

Lemma str_leb_trans (a b c : str) :
  str_leb a b = true -> str_leb b c = true -> str_leb a c = true.
Proof.
  revert b c. induction a as [|x a IH]; intros [|y b] [|z c]; simpl;
    try reflexivity; try discriminate.
  destruct (N.ltb_spec x y), (N.ltb_spec y x), (N.ltb_spec y z),
    (N.ltb_spec z y), (N.ltb_spec x z), (N.ltb_spec z x);
    try discriminate; try reflexivity; try lia.
  apply IH.
Qed.

(** Two sorted lists with the same elements are equal. *)
Lemma sorted_unique (l1 l2 : list str) :
  StronglySorted str_le l1 -> StronglySorted str_le l2 ->
  Permutation l1 l2 -> l1 = l2.
Proof.
  intros H1. revert l2. induction H1 as [|x l1 Hs1 IH Hx]; intros l2 H2 Hp.
  - apply Permutation_nil in Hp. congruence.
  - destruct H2 as [|y l2 Hs2 Hy].
    { symmetry in Hp. apply Permutation_nil in Hp. discriminate Hp. }
    assert (Hxy : x = y).
    { assert (Hin1 : In y (x :: l1))
        by (eapply Permutation_in; [symmetry; exact Hp | left; reflexivity]).
      assert (Hin2 : In x (y :: l2))
        by (eapply Permutation_in; [exact Hp | left; reflexivity]).
      destruct Hin1 as [-> | Hin1]; [reflexivity |].
      destruct Hin2 as [-> | Hin2]; [reflexivity |].
      apply str_leb_antisym.
      - exact (proj1 (List.Forall_forall _ _) Hx y Hin1).
      - exact (proj1 (List.Forall_forall _ _) Hy x Hin2). }
    subst y. f_equal. apply IH; [exact Hs2 |].
    eapply Permutation_cons_inv. exact Hp.
Qed.

Lemma insert_sorted_perm (x : str) (l : list str) :
  Permutation (insert_sorted x l) (x :: l).
Proof.
  induction l as [|y l IH]; simpl; [reflexivity |].
  destruct (str_leb x y); [reflexivity |].
  rewrite IH. apply perm_swap.
Qed.

Lemma insert_sorted_sorted (x : str) (l : list str) :
  StronglySorted str_le l -> StronglySorted str_le (insert_sorted x l).
Proof.
  induction 1 as [|y l Hl IH Hy]; simpl.
  - repeat constructor.
  - destruct (str_leb x y) eqn:Hxy.
    + apply SSorted_cons; [apply SSorted_cons; assumption |].
      constructor; [exact Hxy |].
      eapply List.Forall_impl; [| exact Hy].
      intros z Hz. exact (str_leb_trans x y z Hxy Hz).
    + apply SSorted_cons; [exact IH |].
      rewrite (insert_sorted_perm x l). constructor; [| exact Hy].
      destruct (str_leb_total x y) as [H | H]; [congruence | exact H].
Qed.

Lemma sorted_perm (l : list str) : Permutation (sorted l) l.
Proof.
  unfold sorted. induction l as [|x l IH]; simpl; [reflexivity |].
  rewrite insert_sorted_perm, IH. reflexivity.
Qed.

Lemma sorted_sorted (l : list str) : StronglySorted str_le (sorted l).
Proof.
  unfold sorted. induction l as [|x l IH]; simpl; [constructor |].
  apply insert_sorted_sorted, IH.
Qed.

(** The stills are converted in the order of their names, whatever the
    order in which the directory lists them: they are the entries of
    the listing that end in [.png], sorted, and two listings of the same
    entries give the same sequence. *)
Theorem frame_files_sorted_png (W : world) :
  StronglySorted str_le (frame_files W) /\
  (forall f, In f (frame_files W) <->
             In f (listing W) /\ endswith f (lit ".png") = true) /\
  (forall W', Permutation (listing W) (listing W') ->
              frame_files W = frame_files W').
Proof.
  unfold frame_files. split; [apply sorted_sorted | split].
  - intros f. rewrite <- !list_elem_of_In, (sorted_perm _), list_elem_of_filter.
    tauto.
  - intros W' Hp.
    apply sorted_unique; try apply sorted_sorted.
    rewrite !sorted_perm. apply filter_Permutation, Hp.
Qed.

(** ** The batch conversion *)

(** Whatever the schedule of the workers, no still is converted more
    than once: the reports printed by the batch conversion are reports
    of the single conversions, each printed at most once. When no
    conversion raises, every still is converted exactly once: the
    reports are those of the single conversions, up to their order. *)
Theorem convert_frames_converts_each_once (cv : cv2_env) (ts : Z * Z)
    (files : list str) (sched : list nat) :
  submseteq
    (trace (convert_frames cv ts files sched))
    (concat (map (fun f => trace (_convert_to_ascii cv ts (frame_path f)))
                 files)) /\
  (Forall (fun f => exists r,
               result (_convert_to_ascii cv ts (frame_path f)) = Ret r)
          files ->
   Permutation
     (trace (convert_frames cv ts files sched))
     (concat (map (fun f => trace (_convert_to_ascii cv ts (frame_path f)))
                  files))).
Proof.
  assert (E : trace (convert_frames cv ts files sched)
              = trace (executor_map
                         (fun f => _convert_to_ascii cv ts (frame_path f))
                         files sched)).
  { unfold convert_frames. rewrite trace_bind.
    destruct (result (executor_map _ files sched)); cbn [trace ret snd];
      apply app_nil_r. }
  rewrite E.
  apply (executor_map_runs_each_task_once
           (fun f => _convert_to_ascii cv ts (frame_path f)) files sched).
Qed.

Lemma gather_length {R} (rs : list (pyres R)) (l : list R) :
  gather rs = Ret l -> length l = length rs.
Proof.
  revert l. induction rs as [|r rs IH]; intros l; simpl.
  - intros [= <-]. reflexivity.
  - destruct r as [a|e]; [| discriminate].
    destruct (gather rs) as [l'|e]; [| discriminate].
    intros [= <-]. simpl. rewrite (IH l' eq_refl). reflexivity.
Qed.

Lemma omap_truthy_facts (rs : list (option str)) :
  (length (omap truthy rs) <= length rs)%nat /\
  Forall (fun frame => frame <> []) (omap truthy rs).
Proof.
  induction rs as [|r rs [IH1 IH2]]; [split; [reflexivity | constructor] |].
  destruct r as [[|c s]|]; cbn [omap list_omap truthy length];
    try (split; [lia | exact IH2]).
  split; [simpl; lia | constructor; [discriminate | exact IH2]].
Qed.

(** What [convert_video] returns, for a player that has no frames yet:
    the flag tells whether the player now has frames; there are at most
    as many frames as stills, none of them empty; and the viewport is
    unchanged. *)
Theorem convert_video_flag (W : world) (self self' : player) (ok : bool) :
  ascii_frames self = [] ->
  result (convert_video W self) = Ret (ok, self') ->
  term_size self' = term_size self /\
  (ok = true <-> ascii_frames self' <> []) /\
  (length (ascii_frames self') <= length (frame_files W))%nat /\
  Forall (fun frame => frame <> []) (ascii_frames self').
Proof.
  intros Hnil. unfold convert_video, print.
  destruct (negb (video_exists W)).
  { cbn [result bind emit ret fst]. intros [= <- <-]. rewrite Hnil.
    split; [reflexivity | split; [split; congruence |]].
    split; [simpl; lia | constructor]. }
  rewrite result_bind. cbn [result emit fst].
  destruct (negb (ffmpeg_status W =? 0)).
  { cbn [result bind emit ret fst]. intros [= <- <-]. rewrite Hnil.
    split; [reflexivity | split; [split; congruence |]].
    split; [simpl; lia | constructor]. }
  rewrite result_bind. unfold convert_frames.
  rewrite result_bind, executor_map_result.
  destruct (gather _) as [rs|e] eqn:Hg; [| discriminate].
  cbn [result ret fst]. intros [= <- <-]. cbn [term_size ascii_frames].
  apply gather_length in Hg. rewrite length_map in Hg.
  destruct (omap_truthy_facts rs) as [Hlen Hne].
  split; [reflexivity | split; [| split; [lia | exact Hne]]].
  split; intros H.
  - apply negb_true_iff, bool_decide_eq_false in H. exact H.
  - apply negb_true_iff, bool_decide_eq_false. exact H.
Qed.

(** ** The script as a whole *)

Lemma all_calls_bind_result (P : event -> Prop) {A B} (m : M A) (k : A -> M B) :
  all_calls P m -> (forall a, result m = Ret a -> all_calls P (k a)) ->
  all_calls P (bind m k).
Proof.
  unfold all_calls. intros Hm Hk. rewrite trace_bind.
  apply Forall_app. split; [exact Hm |].
  destruct (result m) as [a|e]; [apply Hk; reflexivity | constructor].
Qed.

(** The player the script creates. *)
Definition new_player (W : world) : player :=
  {| term_size := _get_terminal_size (terminal_size W); ascii_frames := [] |}.

(** The statements of the script inside its [try]. *)
Definition main_try (W : world) : M unit :=
  print MsgConverting ;;
  r <- convert_video W (new_player W) ;;
  let '(ok, player) := r in
  (if negb ok then raise (SystemExit 1) else ret tt) ;;
  print (MsgReady (Z.of_nat (length (ascii_frames player)))
                  (fst (term_size player)) (snd (term_size player))) ;;
  play (term W) player.

(** The script: the creation of the player, the [try] block, the
    message of an interruption that it raised, and the cleanup. *)
Lemma main_shape (W : world) :
  main W
  = (match result (main_try W) with
     | Raise KeyboardInterrupt => Ret tt
     | r => r
     end,
     [EvPrint MsgBanner; EvMakedirs (lit "temp_frames");
      EvMakedirs (lit "ascii_cache")] ++
     trace (main_try W) ++
     match result (main_try W) with
     | Raise KeyboardInterrupt => [EvPrint MsgInterrupted]
     | _ => []
     end ++
     [EvRmtree (lit "temp_frames"); EvPrint MsgFinished]).
Proof.
  assert (E : main W
              = (_ <- print MsgBanner ;;
                 _ <- emit_all [EvMakedirs (lit "temp_frames");
                                EvMakedirs (lit "ascii_cache")] ;;
                 try_finally
                   (try_except (main_try W) is_KeyboardInterrupt
                               (fun _ => print MsgInterrupted))
                   (_ <- cleanup ;; print MsgFinished))) by reflexivity.
  rewrite E. clear E.
  rewrite (pair_result_trace (main_try W)).
  unfold cleanup, print, emit, emit_all, try_except, try_finally.
  destruct (result (main_try W)) as [[]|e]; cbn [result trace fst snd].
  - mrun. reflexivity.
  - destruct e; cbn [is_KeyboardInterrupt]; mrun;
      rewrite <- ?app_assoc; reflexivity.
Qed.

(** The calls of the terminal and of the timer. *)
Definition is_terminal_call (e : event) : bool :=
  is_curses_call e || is_sleep e.

Lemma convert_to_ascii_calls_gen (P : event -> Prop) (cv : cv2_env)
    (ts : Z * Z) (path : str) :
  (forall p e, P (EvPrint (MsgConvertError p e))) ->
  all_calls P (_convert_to_ascii cv ts path).
Proof.
  intros HP. unfold _convert_to_ascii.
  apply all_calls_try_except.
  - apply all_calls_bind; [apply all_calls_lift | intros img0].
    apply all_calls_bind.
    { destruct img0; [apply all_calls_ret | apply all_calls_lift]. }
    intros [img|]; [| apply all_calls_ret].
    apply all_calls_bind; [apply enhance_image_calls | intros img'].
    apply all_calls_bind; [apply all_calls_lift | intros gray0].
    apply all_calls_bind.
    { unfold grid_height.
      apply all_calls_bind; [apply all_calls_lift | intros r].
      apply all_calls_lift. }
    intros height.
    apply all_calls_bind; [apply all_calls_lift | intros gray].
    apply all_calls_bind; [| intros text; apply all_calls_ret].
    unfold all_calls. rewrite ascii_rows_eq. constructor.
  - intros e. apply all_calls_bind; [apply all_calls_emit, HP | intros u].
    apply all_calls_ret.
Qed.

Lemma convert_video_calls_gen (P : event -> Prop) (W : world) (self : player) :
  P (EvPrint MsgMissingVideo) -> P (EvPrint MsgFfmpegFailed) ->
  (forall p e, P (EvPrint (MsgConvertError p e))) ->
  (forall c, P (EvSystem c)) ->
  all_calls P (convert_video W self).
Proof.
  intros H1 H2 H3 H4. unfold convert_video, convert_frames, print.
  destruct (negb (video_exists W)).
  { apply all_calls_bind; [apply all_calls_emit, H1 | intros u].
    apply all_calls_ret. }
  apply all_calls_bind; [apply all_calls_emit, H4 | intros u].
  destruct (negb (ffmpeg_status W =? 0)).
  { apply all_calls_bind; [apply all_calls_emit, H2 | intros u'].
    apply all_calls_ret. }
  apply all_calls_bind; [| intros frames; apply all_calls_ret].
  apply all_calls_bind; [| intros rs; apply all_calls_ret].
  apply executor_map_calls. intros f. apply convert_to_ascii_calls_gen, H3.
Qed.

Lemma play_calls_gen (P : event -> Prop) (T : terminal) (self : player) :
  (ascii_frames self = [] -> P (EvPrint MsgNoFrames)) ->
  (forall e, is_terminal_call e = true -> P e) ->
  all_calls P (play T self).
Proof.
  intros Hnil HP.
  destruct (decide (ascii_frames self = [])) as [E | E].
  { unfold play. rewrite E.
    apply all_calls_bind; [apply all_calls_emit, Hnil, E | intros u].
    apply all_calls_ret. }
  rewrite (play_with_frames T self E). unfold play_body.
  apply all_calls_try_finally; [| apply all_calls_call, HP; reflexivity].
  repeat (first [ apply all_calls_call, HP; reflexivity
                | apply all_calls_ret
                | apply all_calls_for_loop; intros item;
                  apply play_frame_calls; intros; apply HP; reflexivity
                | apply all_calls_bind; [| intros ?]
                | apply all_calls_try_except; [| intros ?] ]).
Qed.

Lemma convert_video_true_frames (W : world) (self self' : player) :
  result (convert_video W self) = Ret (true, self') ->
  ascii_frames self' <> [].
Proof.
  unfold convert_video, print.
  destruct (negb (video_exists W)); [discriminate |].
  rewrite result_bind. cbn [result emit fst].
  destruct (negb (ffmpeg_status W =? 0)); [discriminate |].
  rewrite result_bind.
  destruct (result (convert_frames _ _ _ _)) as [frames|e]; [| discriminate].
  cbn [result ret fst]. intros [= H <-]. cbn [ascii_frames].
  apply negb_true_iff, bool_decide_eq_false in H. exact H.
Qed.

(** The calls of the [try] block of the script satisfy [P] when the
    messages and calls of the conversion and of a playback with frames
    do. *)
Lemma main_try_calls (P : event -> Prop) (W : world) :
  P (EvPrint MsgConverting) ->
  P (EvPrint MsgMissingVideo) -> P (EvPrint MsgFfmpegFailed) ->
  (forall p e, P (EvPrint (MsgConvertError p e))) ->
  (forall c, P (EvSystem c)) ->
  (forall n r c, P (EvPrint (MsgReady n r c))) ->
  (forall e, is_terminal_call e = true -> P e) ->
  all_calls P (main_try W).
Proof.
  intros H0 H1 H2 H3 H4 H5 H6. unfold main_try, print.
  apply all_calls_bind; [apply all_calls_emit, H0 | intros u].
  apply all_calls_bind_result;
    [apply convert_video_calls_gen; assumption | intros [ok self'] Hr].
  destruct ok; cbn [negb].
  - apply all_calls_bind; [apply all_calls_ret | intros u1].
    apply all_calls_bind; [apply all_calls_emit, H5 | intros u2].
    apply play_calls_gen; [| exact H6].
    intros Hnil. exfalso.
    exact (convert_video_true_frames W _ _ Hr Hnil).
  - apply all_calls_bind_result; [apply all_calls_raise | intros u1 Hu].
    discriminate Hu.
Qed.

(** The [try] block of the script in terms of the conversion and of the
    playback. *)
Lemma main_try_shape (W : world) :
  main_try W
  = (match result (convert_video W (new_player W)) with
     | Ret (true, self) => result (play (term W) self)
     | Ret (false, _) => Raise (SystemExit 1)
     | Raise e => Raise e
     end,
     [EvPrint MsgConverting] ++
     trace (convert_video W (new_player W)) ++
     match result (convert_video W (new_player W)) with
     | Ret (true, self) =>
         [EvPrint (MsgReady (Z.of_nat (length (ascii_frames self)))
                            (fst (term_size self)) (snd (term_size self)))] ++
         trace (play (term W) self)
     | _ => []
     end).
Proof.
  unfold main_try, print, emit, raise, ret.
  rewrite (pair_result_trace (convert_video W (new_player W))).
  destruct (result (convert_video W (new_player W))) as [[[|] self]|e];
    cbn [result trace fst snd negb]; mrun; rewrite ?app_nil_r; reflexivity.
Qed.

Definition is_rmtree (e : event) : bool :=
  match e with EvRmtree _ => true | _ => false end.

(** [os.makedirs(dir, exist_ok=True)] can raise: the path exists and is
    no directory, the parent directory cannot be written, or an
    interruption arrives. [mk dir] is what it raises for [dir], if
    anything. *)
Definition makedirs (mk : str -> option exn) (dir : str) : M unit :=
  match mk dir with
  | Some x => (Raise x, [EvMakedirs dir])
  | None => (Ret tt, [EvMakedirs dir])
  end.

(** [_prepare_dirs] *)
Definition _prepare_dirs (mk : str -> option exn) : M unit :=
  makedirs mk (lit "temp_frames") ;;
  makedirs mk (lit "ascii_cache").

(** [HDAsciiPlayer.__init__], with directories whose creation can
    fail. *)
Definition HDAsciiPlayer_init (mk : str -> option exn) (W : world) : M player :=
  let self := {| term_size := _get_terminal_size (terminal_size W);
                 ascii_frames := [] |} in
  _prepare_dirs mk ;;
  ret self.

(** The script, lines 157 to 174, with this constructor: the player is
    created before the [try]. *)
Definition script (mk : str -> option exn) (W : world) : M unit :=
  print MsgBanner ;;
  player <- HDAsciiPlayer_init mk W ;;
  try_finally
    (try_except
       (print MsgConverting ;;
        r <- convert_video W player ;;
        let '(ok, player) := r in
        (if negb ok then raise (SystemExit 1) else ret tt) ;;
        print (MsgReady (Z.of_nat (length (ascii_frames player)))
                        (fst (term_size player)) (snd (term_size player))) ;;
        play (term W) player)
       is_KeyboardInterrupt
       (fun _ => print MsgInterrupted))
    (cleanup ;; print MsgFinished).

(** When both directories are created, the script is [main]. *)
Lemma script_created (mk : str -> option exn) (W : world) :
  mk (lit "temp_frames") = None -> mk (lit "ascii_cache") = None ->
  script mk W = main W.
Proof.
  intros H1 H2. unfold script, main, HDAsciiPlayer_init, HDAsciiPlayer,
    _prepare_dirs, makedirs.
  rewrite H1, H2. reflexivity.
Qed.

(** The cleanup covers the [try] of the script, and nothing before it.
    When the constructor has created the two directories, then on every
    path through the [try] (missing video, failed decoding, no frame,
    playback to the end or to the quit key, whatever an OpenCV call, a
    terminal call or the timer raises) the directory of the stills is
    removed exactly once, as the last action before the final message,
    and the cache directory is created and not removed. When
    [os.makedirs] raises in the constructor, which runs before the
    [try], the exception leaves the script at once: nothing is removed
    and the final message is not printed. *)
Theorem cleanup_on_every_path (mk : str -> option exn) (W : world) :
  (mk (lit "temp_frames") = None -> mk (lit "ascii_cache") = None ->
   calls is_rmtree (trace (script mk W)) = 1%nat /\
   (exists t, trace (script mk W)
              = t ++ [EvRmtree (lit "temp_frames"); EvPrint MsgFinished]) /\
   In (EvMakedirs (lit "ascii_cache")) (trace (script mk W)) /\
   script mk W = main W) /\
  (forall x,
      mk (lit "temp_frames") = Some x \/
      (mk (lit "temp_frames") = None /\ mk (lit "ascii_cache") = Some x) ->
      result (script mk W) = Raise x /\
      trace (script mk W)
      = [EvPrint MsgBanner; EvMakedirs (lit "temp_frames")] ++
        match mk (lit "temp_frames") with
        | Some _ => []
        | None => [EvMakedirs (lit "ascii_cache")]
        end /\
      calls is_rmtree (trace (script mk W)) = 0%nat /\
      ~ In (EvPrint MsgFinished) (trace (script mk W))).
Proof.
  split.
  - intros H1 H2. rewrite (script_created mk W H1 H2).
    rewrite main_shape. cbn [trace snd].
    assert (Hb : calls is_rmtree (trace (main_try W)) = 0%nat).
    { apply calls_none. apply (main_try_calls (fun e => is_rmtree e = false));
        try reflexivity.
      intros e He. destruct e; try reflexivity. discriminate He. }
    split; [| split; [| split]].
    + rewrite !calls_app, Hb.
      destruct (result (main_try W)) as [u|[]]; reflexivity.
    + exists ([EvPrint MsgBanner; EvMakedirs (lit "temp_frames");
               EvMakedirs (lit "ascii_cache")] ++
              trace (main_try W) ++
              match result (main_try W) with
              | Raise KeyboardInterrupt => [EvPrint MsgInterrupted]
              | _ => []
              end).
      rewrite <- !app_assoc. reflexivity.
    + simpl. auto.
    + reflexivity.
  - intros x Hx.
    assert (E : script mk W
                = (Raise x,
                   [EvPrint MsgBanner; EvMakedirs (lit "temp_frames")] ++
                   match mk (lit "temp_frames") with
                   | Some _ => []
                   | None => [EvMakedirs (lit "ascii_cache")]
                   end)).
    { unfold script, HDAsciiPlayer_init, _prepare_dirs, makedirs, print, emit.
      destruct Hx as [H1 | [H1 H2]].
      - rewrite H1. reflexivity.
      - rewrite H1, H2. reflexivity. }
    rewrite E. cbn [result trace fst snd].
    split; [reflexivity | split; [reflexivity |]].
    destruct (mk (lit "temp_frames")); split;
      try reflexivity;
      intros Hin; simpl in Hin;
      repeat (destruct Hin as [Hin | Hin]; [discriminate Hin |]);
      exact Hin.
Qed.

(** The script calls [play] only for a player with frames: the message
    of a playback without frames is never printed, and whenever curses
    is started the number of frames announced before is at least 1. *)
Theorem script_plays_only_with_frames (W : world) :
  Forall (fun e => e <> EvPrint MsgNoFrames) (trace (main W)) /\
  (In EvInitscr (trace (main W)) ->
   exists n rows cols,
     1 <= n /\ In (EvPrint (MsgReady n rows cols)) (trace (main W))).
Proof.
  rewrite main_shape. cbn [trace snd]. split.
  - apply Forall_app. split; [repeat constructor; discriminate |].
    apply Forall_app. split.
    + apply (main_try_calls (fun e => e <> EvPrint MsgNoFrames));
        try discriminate.
      intros e He. destruct e; try discriminate.
    + apply Forall_app. split.
      * destruct (result (main_try W)) as [u|[]]; repeat constructor;
          discriminate.
      * repeat constructor; discriminate.
  - intros Hin. rewrite main_try_shape in *. cbn [trace result fst snd] in *.
    pose proof (convert_video_calls W (new_player W)) as Hc.
    unfold all_calls in Hc. rewrite List.Forall_forall in Hc.
    destruct (result (convert_video W (new_player W)))
      as [[[|] self]|e] eqn:Hr.
    + pose proof (convert_video_true_frames W _ _ Hr) as Hne.
      exists (Z.of_nat (length (ascii_frames self))),
        (fst (term_size self)), (snd (term_size self)).
      split.
      * destruct (ascii_frames self); [congruence | simpl; lia].
      * rewrite !in_app_iff. right. left. right. right. left.
        left. reflexivity.
    + exfalso. rewrite !in_app_iff in Hin.
      destruct Hin as [Hin | [[Hin | [Hin | Hin]] | [Hin | Hin]]];
        simpl in Hin; try tauto;
        try (apply Hc in Hin; discriminate Hin);
        repeat (destruct Hin as [Hin | Hin]; [discriminate Hin |]);
        exact Hin.
    + exfalso. rewrite !in_app_iff in Hin.
      destruct Hin as [Hin | [[Hin | [Hin | Hin]] | [Hin | Hin]]];
        simpl in Hin; try tauto;
        try (apply Hc in Hin; discriminate Hin);
        try (destruct e; simpl in Hin);
        repeat (destruct Hin as [Hin | Hin]; [discriminate Hin |]);
        exact Hin.
Qed.

(** An interruption that arrives during the playback and leaves
    [play]: the terminal has been restored, the script reports the
    interruption, removes the stills, prints the final message and ends
    normally, with status 0. *)
Theorem interrupt_is_reported (W : world) (self : player) :
  result (convert_video W (new_player W)) = Ret (true, self) ->
  result (play (term W) self) = Raise KeyboardInterrupt ->
  result (main W) = Ret tt /\
  exit_status (result (main W)) = 0 /\
  exists t, trace (main W)
            = t ++ [EvEndwin; EvPrint MsgInterrupted;
                    EvRmtree (lit "temp_frames"); EvPrint MsgFinished].
Proof.
  intros Hc Hp. rewrite main_shape. cbn [result trace fst snd].
  rewrite main_try_shape. cbn [result trace fst snd].
  rewrite Hc, Hp. split; [reflexivity | split; [reflexivity |]].
  pose proof (convert_video_true_frames W _ _ Hc) as Hne.
  rewrite (play_with_frames _ _ Hne), trace_try_finally, trace_call.
  exists ([EvPrint MsgBanner; EvMakedirs (lit "temp_frames");
           EvMakedirs (lit "ascii_cache"); EvPrint MsgConverting] ++
          trace (convert_video W (new_player W)) ++
          [EvPrint (MsgReady (Z.of_nat (length (ascii_frames self)))
                             (fst (term_size self)) (snd (term_size self)))] ++
          trace (play_body (term W) self)).
  repeat first [progress rewrite <- app_assoc | progress cbn [app]].
  reflexivity.
Qed.

(** Without the video, or when the decoder fails, the script converts
    nothing and plays nothing: it prints the error, removes the stills
    directory and exits with status 1; the decoder is not even started
    when the video is missing. *)
Theorem script_aborts_without_stills (W : world) :
  video_exists W = false \/ ffmpeg_status W <> 0 ->
  exit_status (result (main W)) = 1 /\
  trace (main W)
  = [EvPrint MsgBanner; EvMakedirs (lit "temp_frames");
     EvMakedirs (lit "ascii_cache"); EvPrint MsgConverting] ++
    (if video_exists W
     then [EvSystem ffmpeg_cmd; EvPrint MsgFfmpegFailed]
     else [EvPrint MsgMissingVideo]) ++
    [EvRmtree (lit "temp_frames"); EvPrint MsgFinished].
Proof.
  intros H.
  assert (E : convert_video W (new_player W)
              = (Ret (false, new_player W),
                 if video_exists W
                 then [EvSystem ffmpeg_cmd; EvPrint MsgFfmpegFailed]
                 else [EvPrint MsgMissingVideo])).
  { unfold convert_video, print, emit, ret.
    destruct (video_exists W); cbn [negb]; [| reflexivity].
    destruct H as [H | H]; [discriminate H |].
    apply Z.eqb_neq in H. rewrite H. cbn [negb]. reflexivity. }
  rewrite main_shape, main_try_shape, E. cbn [result trace fst snd].
  split; [reflexivity |].
  destruct (video_exists W); reflexivity.
Qed.

(** ** Playback on a terminal that raises *)

Lemma bind_assoc {A B C} (m : M A) (f : A -> M B) (g : B -> M C) :
  bind (bind m f) g = bind m (fun x => bind (f x) g).
Proof.
  unfold bind. destruct m as [[a|e] t]; [| reflexivity].
  destruct (f a) as [[b|e] t1]; [| reflexivity].
  destruct (g b) as [r t2]. rewrite app_assoc. reflexivity.
Qed.

Lemma bind_ret_l {A B} (a : A) (k : A -> M B) : bind (ret a) k = k a.
Proof. unfold bind, ret. destruct (k a); reflexivity. Qed.

Lemma bind_ext {A B} (m : M A) (f g : A -> M B) :
  (forall a, f a = g a) -> bind m f = bind m g.
Proof.
  intros H. unfold bind. destruct m as [[a|e] t]; [| reflexivity].
  rewrite H. reflexivity.
Qed.

(** A sequence of calls, up to the first one that raises. *)
Fixpoint run_calls (T : terminal) (cs : list (site * event)) : M unit :=
  match cs with
  | [] => ret tt
  | (s, e) :: cs' => _ <- call T s e ;; run_calls T cs'
  end.

Lemma run_calls_app (T : terminal) (cs cs' : list (site * event)) :
  run_calls T (cs ++ cs') = (_ <- run_calls T cs ;; run_calls T cs').
Proof.
  induction cs as [|[s e] cs IH]; cbn [app run_calls].
  - rewrite bind_ret_l. reflexivity.
  - rewrite bind_assoc, IH. reflexivity.
Qed.

Lemma run_calls_quiet (T : terminal) (cs : list (site * event)) :
  (forall c, In c cs -> fault T (fst c) = None) ->
  run_calls T cs = (Ret tt, map snd cs).
Proof.
  induction cs as [|[s e] cs IH]; intros H; [reflexivity |].
  cbn [run_calls map snd]. unfold call.
  pose proof (H (s, e) (or_introl eq_refl)) as Hs. cbn [fst] in Hs.
  rewrite Hs. mrun.
  rewrite IH by (intros c Hc; apply H; right; exact Hc). reflexivity.
Qed.

(** When one of the calls raises, the sequence raises what the first
    such call raises, after calls of the sequence only. *)
Lemma run_calls_fault (T : terminal) (cs : list (site * event)) :
  (exists c, In c cs /\ fault T (fst c) <> None) ->
  exists c x,
    In c cs /\ fault T (fst c) = Some x /\
    result (run_calls T cs) = Raise x /\
    incl (trace (run_calls T cs)) (map snd cs).
Proof.
  induction cs as [|[s e] cs IH]; intros (c & Hin & Hf); [destruct Hin |].
  cbn [run_calls]. unfold call.
  destruct (fault T s) as [x|] eqn:Hs.
  - exists (s, e), x. cbn [fst]. rewrite bind_Raise. cbn [result trace fst snd map].
    split; [left; reflexivity | split; [exact Hs | split; [reflexivity |]]].
    intros ev [<- | []]. left. reflexivity.
  - destruct Hin as [<- | Hin]; [cbn [fst] in Hf; congruence |].
    destruct (IH (ex_intro _ c (conj Hin Hf))) as (c' & x & Hin' & Hx & Hr & Ht).
    exists c', x. mrun.
    split; [right; exact Hin' | split; [exact Hx | split; [exact Hr |]]].
    cbn [map snd]. intros ev [<- | Hev]; [left; reflexivity |].
    right. apply Ht, Hev.
Qed.

(** The sites and calls that draw the content rows [ls] from screen row
    [k] on. *)
Fixpoint row_sites_from (idx k : nat) (ls : list str) (max_cols : Z)
  : list (site * event) :=
  match ls with
  | [] => []
  | l :: ls' =>
      (AtAddstr idx (Z.of_nat k),
       EvAddstr (Z.of_nat k) 0 (py_slice_to l (max_cols - 1)))
      :: row_sites_from idx (S k) ls' max_cols
  end.

(** The sites and calls that draw a frame: its rows, its status line,
    and the flush. *)
Definition draw_sites (ts : Z * Z) (total : Z) (idx : nat) (frame : str)
  : list (site * event) :=
  let lines := splitlines frame in
  row_sites_from idx 0 (take (rows_drawn lines (fst ts)) lines) (snd ts) ++
  [(AtStatus idx, status_call lines (fst ts) (snd ts) idx total);
   (AtRefresh idx, EvRefresh)].

Lemma map_snd_row_sites_from (idx k : nat) (ls : list str) (max_cols : Z) :
  map snd (row_sites_from idx k ls max_cols) = row_calls_from k ls max_cols.
Proof.
  revert k. induction ls as [|l ls IH]; intros k; [reflexivity |].
  cbn [row_sites_from row_calls_from map snd]. rewrite IH. reflexivity.
Qed.

Lemma draw_rows_from_run (T : terminal) (idx : nat) (lines : list str)
    (max_cols : Z) (m k : nat) :
  (k + m <= length lines)%nat ->
  (_ <- mapM (fun i =>
                line <- lift (py_index lines i) ;;
                call T (AtAddstr idx i)
                     (EvAddstr i 0 (py_slice_to line (max_cols - 1))))
             (map Z.of_nat (seq k m)) ;;
   ret tt)
  = run_calls T (row_sites_from idx k (take m (drop k lines)) max_cols).
Proof.
  revert k. induction m as [|m IH]; intros k Hk.
  - rewrite take_0. cbn [seq map mapM row_sites_from run_calls].
    exact (bind_ret_l [] (fun _ => ret tt)).
  - destruct (lines !! k) as [l|] eqn:Hl;
      [| apply lookup_ge_None in Hl; lia].
    rewrite (drop_S _ _ _ Hl).
    cbn [seq map mapM take row_sites_from run_calls].
    rewrite (py_index_lookup _ _ _ Hl). unfold lift at 1.
    rewrite (bind_Ret l). cbn [result trace fst snd app].
    rewrite <- (pair_result_trace (call T _ _)).
    rewrite !bind_assoc. apply bind_ext. intros y.
    rewrite <- (IH (S k)) by lia. rewrite bind_assoc.
    apply bind_ext. intros ys.
    exact (bind_ret_l (y :: ys) (fun _ => ret tt)).
Qed.

Lemma draw_rows_run (T : terminal) (idx : nat) (lines : list str)
    (max_rows max_cols : Z) :
  draw_rows T idx lines max_rows max_cols
  = run_calls T (row_sites_from idx 0 (take (rows_drawn lines max_rows) lines)
                                max_cols).
Proof.
  unfold draw_rows, py_range. fold (rows_drawn lines max_rows).
  apply (draw_rows_from_run T idx lines max_cols (rows_drawn lines max_rows) 0).
  unfold rows_drawn. lia.
Qed.

(** The body of the loop: the screen is cleared; then, inside the
    [try], the frame is drawn, the key is polled and, unless it is the
    quit key, the delay is slept. *)
Lemma play_frame_run (T : terminal) (ts : Z * Z) (total : Z) (idx : nat)
    (frame : str) :
  play_frame T ts total (idx, frame)
  = (_ <- call T (AtClear idx) EvClear ;;
     try_except
       (_ <- run_calls T (draw_sites ts total idx frame) ;;
        _ <- call T (AtGetch idx) EvGetch ;;
        if key T idx =? quit_key then ret Break
        else _ <- call T (AtSleep idx) (EvSleep 1 FPS) ;; ret Continue)
       is_curses_error
       (fun _ => ret Continue)).
Proof.
  destruct ts as [max_rows max_cols]. unfold play_frame, draw_sites.
  cbn [fst snd]. rewrite run_calls_app, draw_rows_run.
  cbn [run_calls]. rewrite !bind_assoc.
  apply bind_ext. intros u. f_equal.
  apply bind_ext. intros u1. unfold status_call.
  apply bind_ext. intros u2. apply bind_ext. intros u3.
  rewrite bind_ret_l. reflexivity.
Qed.

(** The sites of the calls made for the frames. *)
Definition is_frame_site (s : site) : bool :=
  match s with
  | AtClear _ | AtAddstr _ _ | AtStatus _ | AtRefresh _ | AtGetch _
  | AtSleep _ => true
  | _ => false
  end.

(** The sites inside the [try] of the loop body. *)
Definition in_frame_try (s : site) : bool :=
  match s with
  | AtAddstr _ _ | AtStatus _ | AtRefresh _ | AtGetch _ | AtSleep _ => true
  | _ => false
  end.

Definition is_getch (e : event) : bool :=
  match e with EvGetch => true | _ => false end.

Lemma row_sites_from_facts (idx k : nat) (ls : list str) (max_cols : Z) :
  Forall (fun c => in_frame_try (fst c) = true /\
                   is_getch (snd c) = false /\ is_sleep (snd c) = false /\
                   is_clear (snd c) = false)
         (row_sites_from idx k ls max_cols).
Proof.
  revert k. induction ls as [|l ls IH]; intros k; constructor; auto.
Qed.

Lemma draw_sites_facts (ts : Z * Z) (total : Z) (idx : nat) (frame : str) :
  Forall (fun c => in_frame_try (fst c) = true /\
                   is_getch (snd c) = false /\ is_sleep (snd c) = false /\
                   is_clear (snd c) = false)
         (draw_sites ts total idx frame).
Proof.
  unfold draw_sites. apply Forall_app. split; [apply row_sites_from_facts |].
  repeat constructor.
Qed.

Lemma map_snd_draw_sites (ts : Z * Z) (total : Z) (idx : nat) (frame : str) :
  map snd (draw_sites ts total idx frame)
  = row_calls (splitlines frame) (fst ts) (snd ts) ++
    [status_call (splitlines frame) (fst ts) (snd ts) idx total; EvRefresh].
Proof.
  unfold draw_sites, row_calls. rewrite map_app, map_snd_row_sites_from.
  reflexivity.
Qed.

(** A frame in whose drawing (a row, the status line or the flush) a
    curses error is raised is given up: the key is not polled, even if
    it is the quit key, the delay is not slept, and the loop goes on
    with the next frame. *)
Theorem glitch_skips_poll_and_sleep (T : terminal) (ts : Z * Z) (total : Z)
    (idx : nat) (frame : str) :
  fault T (AtClear idx) = None ->
  (forall c, In c (draw_sites ts total idx frame) ->
             fault T (fst c) = None \/ fault T (fst c) = Some CursesError) ->
  (exists c, In c (draw_sites ts total idx frame) /\
             fault T (fst c) = Some CursesError) ->
  result (play_frame T ts total (idx, frame)) = Ret Continue /\
  calls is_getch (trace (play_frame T ts total (idx, frame))) = 0%nat /\
  calls is_sleep (trace (play_frame T ts total (idx, frame))) = 0%nat.
Proof.
  intros Hclear Hall (c0 & Hin0 & Hf0).
  destruct (run_calls_fault T (draw_sites ts total idx frame))
    as (c & x & Hin & Hx & Hr & Ht).
  { exists c0. split; [exact Hin0 | congruence]. }
  assert (x = CursesError) as ->.
  { destruct (Hall c Hin) as [H | H]; congruence. }
  assert (E : play_frame T ts total (idx, frame)
              = (Ret Continue,
                 [EvClear] ++
                 trace (run_calls T (draw_sites ts total idx frame)))).
  { rewrite play_frame_run. unfold call at 1. rewrite Hclear.
    rewrite (pair_result_trace (run_calls T _)), Hr.
    rewrite bind_Raise. unfold try_except, ret. cbn [is_curses_error].
    mrun. rewrite app_nil_r. reflexivity. }
  rewrite E. cbn [result trace fst snd].
  pose proof (draw_sites_facts ts total idx frame) as Hfacts.
  rewrite List.Forall_forall in Hfacts.
  assert (Hev : forall p, (forall c, In c (draw_sites ts total idx frame) ->
                                     p (snd c) = false) ->
                          calls p (trace (run_calls T (draw_sites ts total idx frame)))
                          = 0%nat).
  { intros p Hp. apply calls_none, List.Forall_forall. intros ev Hev.
    apply Ht, in_map_iff in Hev as (c' & <- & Hc'). apply Hp, Hc'. }
  split; [reflexivity |].
  rewrite !calls_app.
  rewrite (Hev is_getch) by (intros c' Hc'; apply Hfacts, Hc').
  rewrite (Hev is_sleep) by (intros c' Hc'; apply Hfacts, Hc').
  split; reflexivity.
Qed.

(** A terminal on which nothing but curses errors is raised, and only
    by the calls inside the [try] of the loop body. *)
Definition glitchy (T : terminal) : Prop :=
  forall s, fault T s = None \/
            (fault T s = Some CursesError /\ in_frame_try s = true).

(** A computation raises nothing but curses errors. *)
Definition raises_curses_only {A} (m : M A) : Prop :=
  match result m with
  | Raise e => e = CursesError
  | Ret _ => True
  end.

Lemma raises_curses_only_bind {A B} (m : M A) (k : A -> M B) :
  raises_curses_only m -> (forall a, raises_curses_only (k a)) ->
  raises_curses_only (bind m k).
Proof.
  unfold raises_curses_only. rewrite result_bind.
  destruct (result m) as [a|e]; [intros _ H; apply H | auto].
Qed.

Lemma raises_curses_only_call (T : terminal) (s : site) (e : event) :
  glitchy T -> raises_curses_only (call T s e).
Proof.
  intros HT. unfold raises_curses_only, call.
  destruct (HT s) as [-> | [-> _]]; simpl; auto.
Qed.

Lemma raises_curses_only_run_calls (T : terminal) (cs : list (site * event)) :
  glitchy T -> raises_curses_only (run_calls T cs).
Proof.
  intros HT. induction cs as [|[s e] cs IH]; [exact I |].
  cbn [run_calls]. apply raises_curses_only_bind;
    [apply raises_curses_only_call, HT | intros _; exact IH].
Qed.

(** The loop body clears the screen once, whatever the terminal does. *)
Lemma play_frame_clears_once (T : terminal) (ts : Z * Z) (total : Z)
    (idx : nat) (frame : str) :
  calls is_clear (trace (play_frame T ts total (idx, frame))) = 1%nat.
Proof.
  rewrite play_frame_run, trace_bind, trace_call, calls_app.
  replace (calls is_clear [EvClear]) with 1%nat by reflexivity.
  rewrite calls_none; [reflexivity |].
  destruct (result (call T (AtClear idx) EvClear)); [| constructor].
  apply all_calls_try_except; [| intros e; apply all_calls_ret].
  apply all_calls_bind; [| intros u].
  - unfold all_calls.
    pose proof (draw_sites_facts ts total idx frame) as Hfacts.
    induction Hfacts as [|[s e] cs Hc _ IH]; [constructor |].
    cbn [run_calls]. rewrite trace_bind, trace_call.
    apply Forall_app. split; [repeat constructor; apply Hc |].
    destruct (result (call T s e)); [exact IH | constructor].
  - apply all_calls_bind; [apply all_calls_call; reflexivity | intros u1].
    destruct (key T idx =? quit_key); [apply all_calls_ret |].
    apply all_calls_bind; [apply all_calls_call; reflexivity | intros u2].
    apply all_calls_ret.
Qed.

(** On a glitchy terminal the loop body never raises, and it ends the
    loop only when the poll returns the quit key. *)
Lemma play_frame_glitchy (T : terminal) (ts : Z * Z) (total : Z) (idx : nat)
    (frame : str) :
  glitchy T ->
  exists c,
    result (play_frame T ts total (idx, frame)) = Ret c /\
    (c = Break -> key T idx = quit_key).
Proof.
  intros HT.
  rewrite play_frame_run, result_bind.
  unfold call at 1.
  destruct (HT (AtClear idx)) as [Hc | [_ Hc]]; [| discriminate Hc].
  rewrite Hc. cbn [result fst].
  match goal with |- context [try_except ?b _ _] => set (body := b) end.
  assert (Hb : raises_curses_only body).
  { subst body. apply raises_curses_only_bind;
      [apply raises_curses_only_run_calls, HT | intros u].
    apply raises_curses_only_bind;
      [apply raises_curses_only_call, HT | intros u1].
    destruct (key T idx =? quit_key); [exact I |].
    apply raises_curses_only_bind;
      [apply raises_curses_only_call, HT | intros u2; exact I]. }
  assert (Hq : result body = Ret Break -> key T idx = quit_key).
  { subst body. intros H.
    apply bind_result_Ret in H as (u & _ & H).
    apply bind_result_Ret in H as (u1 & _ & H).
    destruct (key T idx =? quit_key) eqn:Hk; [apply Z.eqb_eq, Hk |].
    apply bind_result_Ret in H as (u2 & _ & H). discriminate H. }
  unfold raises_curses_only in Hb. unfold try_except.
  destruct body as [[c|e] t]; cbn [result fst] in *.
  - exists c. split; [reflexivity |].
    intros ->. apply Hq. reflexivity.
  - subst e. cbn [is_curses_error]. exists Continue.
    split; [reflexivity | discriminate].
Qed.

Lemma for_loop_glitchy (T : terminal) (ts : Z * Z) (total : Z) (k : nat)
    (frames : list str) :
  glitchy T ->
  result (for_loop (enumerate_from k frames) (play_frame T ts total)) = Ret tt /\
  ((forall idx, key T idx <> quit_key) ->
   calls is_clear
     (trace (for_loop (enumerate_from k frames) (play_frame T ts total)))
   = length frames).
Proof.
  intros HT. revert k. induction frames as [|frame frames IH]; intros k.
  - split; reflexivity.
  - cbn [enumerate_from for_loop].
    destruct (play_frame_glitchy T ts total k frame HT) as (c & Hr & Hq).
    pose proof (play_frame_clears_once T ts total k frame) as Hc.
    destruct (IH (S k)) as [IHr IHc].
    rewrite result_bind, trace_bind, Hr, calls_app, Hc. destruct c.
    + split; [exact IHr |]. intros Hk. rewrite (IHc Hk). reflexivity.
    + split; [reflexivity |]. intros Hk. exfalso.
      exact (Hk k (Hq eq_refl)).
Qed.

(** Rendering errors do not end the playback: when the only exceptions
    are curses errors raised while a frame is drawn, polled or slept
    on, [play] returns normally, and without the quit key it goes
    through all the frames. *)
Theorem playback_survives_glitches (T : terminal) (self : player) :
  glitchy T ->
  result (play T self) = Ret tt /\
  ((forall idx, key T idx <> quit_key) ->
   calls is_clear (trace (play T self)) = length (ascii_frames self)).
Proof.
  intros HT.
  destruct (decide (ascii_frames self = [])) as [E | E].
  { unfold play. rewrite E. split; reflexivity. }
  assert (Hq : forall s, in_frame_try s = false -> fault T s = None).
  { intros s Hs. destruct (HT s) as [H | [_ H]]; [exact H | congruence]. }
  destruct (for_loop_glitchy T (term_size self)
              (Z.of_nat (length (ascii_frames self))) 0 (ascii_frames self) HT)
    as [Hr Hc].
  rewrite (play_with_frames T self E). unfold play_body, enumerate.
  rewrite (pair_result_trace (for_loop _ _)), Hr.
  unfold call, try_except, try_finally, ret.
  rewrite !Hq by reflexivity. mrun. split; [reflexivity |].
  intros Hk. specialize (Hc Hk). unfold enumerate in Hc.
  change (?a :: ?b :: ?c :: ?d :: ?e :: ?f :: ?t ++ [EvEndwin])
    with ([a; b; c; d; e; f] ++ t ++ [EvEndwin]).
  rewrite !calls_app, Hc. cbn. lia.
Qed.

(** ** Colours are optional *)

Lemma play_frame_frame_quiet (T : terminal) (ts : Z * Z) (total : Z)
    (idx : nat) (frame : str) :
  (forall s, is_frame_site s = true -> fault T s = None) ->
  play_frame T ts total (idx, frame)
  = (Ret (if key T idx =? quit_key then Break else Continue),
     shown_frame T ts total idx frame).
Proof.
  intros HT. rewrite play_frame_run. unfold call.
  rewrite !HT by reflexivity.
  rewrite run_calls_quiet, map_snd_draw_sites.
  - unfold shown_frame, try_except, ret.
    destruct (key T idx =? quit_key); mrun;
      rewrite ?app_nil_r, <- ?app_assoc; reflexivity.
  - intros c Hc. apply HT.
    pose proof (draw_sites_facts ts total idx frame) as Hfacts.
    rewrite List.Forall_forall in Hfacts.
    destruct (Hfacts c Hc) as [Hs _]. destruct (fst c); try discriminate Hs;
      reflexivity.
Qed.

Lemma for_loop_frame_quiet (T : terminal) (ts : Z * Z) (total : Z) (k : nat)
    (frames : list str) :
  (forall s, is_frame_site s = true -> fault T s = None) ->
  for_loop (enumerate_from k frames) (play_frame T ts total)
  = (Ret tt, loop_calls T ts total k frames).
Proof.
  intros HT. revert k. induction frames as [|frame frames IH]; intros k;
    [reflexivity |].
  cbn [enumerate_from for_loop loop_calls].
  rewrite (play_frame_frame_quiet _ _ _ _ _ HT). mrun.
  destruct (key T k =? quit_key).
  - reflexivity.
  - rewrite IH. reflexivity.
Qed.

(** Whatever [curses.start_color] or [curses.use_default_colors]
    raises, an interruption included, is dropped: the playback goes on
    as it does with colours, only without the call of
    [use_default_colors] when [start_color] raised. *)
Theorem colours_are_optional (T : terminal) (self : player) :
  ascii_frames self <> [] ->
  (forall s, s <> AtStartColor -> s <> AtUseDefaultColors -> fault T s = None) ->
  play T self
  = (Ret tt,
     [EvInitscr; EvCursSet 0; EvNoecho; EvNodelay 1; EvStartColor] ++
     match fault T AtStartColor with
     | Some _ => []
     | None => [EvUseDefaultColors]
     end ++
     loop_calls T (term_size self) (Z.of_nat (length (ascii_frames self))) 0
                (ascii_frames self) ++
     [EvEndwin]).
Proof.
  intros Hne HT. rewrite (play_with_frames _ _ Hne).
  unfold play_body, enumerate.
  rewrite for_loop_frame_quiet.
  2: { intros s Hs. apply HT; intros ->; discriminate Hs. }
  unfold call, try_except, try_finally, ret.
  rewrite (HT AtInitscr), (HT AtCursSet), (HT AtNoecho), (HT AtNodelay),
    (HT AtEndwin) by discriminate.
  destruct (fault T AtStartColor) as [e|]; mrun.
  - rewrite ?app_nil_r. reflexivity.
  - destruct (fault T AtUseDefaultColors) as [e|]; mrun;
      rewrite ?app_nil_r; reflexivity.
Qed.

(** ** What is drawn, and where *)

Lemma all_calls_run_calls (P : event -> Prop) (T : terminal)
    (cs : list (site * event)) :
  (forall c, In c cs -> P (snd c)) -> all_calls P (run_calls T cs).
Proof.
  induction cs as [|[s e] cs IH]; intros H; [apply all_calls_ret |].
  cbn [run_calls]. apply all_calls_bind.
  - apply all_calls_call. exact (H (s, e) (or_introl eq_refl)).
  - intros u. apply IH. intros c Hc. apply H. right. exact Hc.
Qed.

Lemma length_py_slice_to {A} (s : list A) (k : Z) :
  0 <= k -> Z.of_nat (length (py_slice_to s k)) = Z.min k (Z.of_nat (length s)).
Proof.
  intros Hk. rewrite py_slice_to_take by exact Hk. rewrite length_take. lia.
Qed.

Lemma row_sites_from_bounds (idx k : nat) (ls : list str) (max_cols : Z) :
  1 <= max_cols ->
  forall c, In c (row_sites_from idx k ls max_cols) ->
  exists y s, snd c = EvAddstr y 0 s /\
              Z.of_nat k <= y < Z.of_nat (k + length ls) /\
              Z.of_nat (length s) <= max_cols - 1.
Proof.
  intros Hc. revert k. induction ls as [|l ls IH]; intros k c Hin;
    [destruct Hin |].
  destruct Hin as [<- | Hin].
  - eexists _, _. split; [reflexivity |]. cbn [length].
    rewrite length_py_slice_to by lia. lia.
  - destruct (IH (S k) c Hin) as (y & s & Hs & Hy & Hl).
    exists y, s. cbn [length]. split; [exact Hs | split; [lia | exact Hl]].
Qed.

(** Where an event draws: inside a window of [rows] by [cols], from the
    first column, and short of the last one. *)
Definition draws_inside (rows cols : Z) (e : event) : Prop :=
  match e with
  | EvAddstr y x s =>
      0 <= y < rows /\ x = 0 /\ Z.of_nat (length s) < cols
  | _ => True
  end.

(** Whatever the frame holds and whatever the terminal does, every
    string that the loop body draws lies inside the viewport; and the
    viewport computed for a terminal of at least 24 rows and 80 columns
    lies inside that terminal. *)
Theorem drawing_stays_inside (T : terminal) (tcols trows total : Z)
    (idx : nat) (frame : str) :
  let vp := _get_terminal_size (Ret (tcols, trows)) in
  Forall (draws_inside (fst vp) (snd vp))
         (trace (play_frame T vp total (idx, frame))) /\
  (24 <= trows -> 80 <= tcols ->
   Forall (draws_inside trows tcols)
          (trace (play_frame T vp total (idx, frame)))).
Proof.
  intros vp.
  assert (Hvp : 24 <= fst vp /\ 80 <= snd vp) by (subst vp; simpl; lia).
  assert (H : forall rows cols, fst vp <= rows -> snd vp <= cols ->
              Forall (draws_inside rows cols)
                     (trace (play_frame T vp total (idx, frame)))).
  { intros rows cols Hr Hc. rewrite play_frame_run.
    apply all_calls_bind; [apply all_calls_call; exact I | intros u].
    apply all_calls_try_except; [| intros e; apply all_calls_ret].
    apply all_calls_bind; [| intros u1].
    - apply all_calls_run_calls. intros c Hin. unfold draw_sites in Hin.
      apply in_app_or in Hin as [Hin | Hin].
      + destruct (row_sites_from_bounds idx 0 _ (snd vp) ltac:(lia) c Hin)
          as (y & s & -> & Hy & Hl).
        rewrite length_take in Hy. unfold rows_drawn in Hy.
        simpl. lia.
      + destruct Hin as [<- | [<- | []]]; [| exact I].
        unfold status_call. cbn [snd draws_inside].
        rewrite length_py_slice_to by lia. lia.
    - apply all_calls_bind; [apply all_calls_call; exact I | intros u2].
      destruct (key T idx =? quit_key); [apply all_calls_ret |].
      apply all_calls_bind; [apply all_calls_call; exact I | intros u3].
      apply all_calls_ret. }
  split; [apply H; lia |].
  intros Hr Hc. apply H; subst vp; simpl; lia.
Qed.

(** ** A run that plays *)

(** When the conversion leaves frames, on a terminal where no call
    raises and the quit key is not pressed, the script announces the
    number of frames and the viewport, shows every frame once, each
    followed by its delay, and ends with status 0. *)
Theorem script_plays_all_frames (W : world) (self : player) :
  result (convert_video W (new_player W)) = Ret (true, self) ->
  quiet (term W) ->
  (forall idx, key (term W) idx <> quit_key) ->
  exit_status (result (main W)) = 0 /\
  calls is_refresh (trace (main W)) = length (ascii_frames self) /\
  calls is_sleep (trace (main W)) = length (ascii_frames self) /\
  In (EvPrint (MsgReady (Z.of_nat (length (ascii_frames self)))
                        (fst (_get_terminal_size (terminal_size W)))
                        (snd (_get_terminal_size (terminal_size W)))))
     (trace (main W)).
Proof.
  intros Hc HT Hk.
  pose proof (convert_video_true_frames W _ _ Hc) as Hne.
  assert (Hts : term_size self = _get_terminal_size (terminal_size W)).
  { revert Hc. unfold convert_video, print.
    destruct (negb (video_exists W)); [discriminate |].
    rewrite result_bind. cbn [result emit fst].
    destruct (negb (ffmpeg_status W =? 0)); [discriminate |].
    rewrite result_bind.
    destruct (result (convert_frames _ _ _ _)); [| discriminate].
    cbn [result ret fst]. intros [= _ <-]. reflexivity. }
  set (n := length (ascii_frames self)).
  assert (Hloop : loop_calls (term W) (term_size self) (Z.of_nat n) 0
                             (ascii_frames self)
                  = frames_shown (term W) (term_size self) (Z.of_nat n) 0
                                 (take (S n) (ascii_frames self))).
  { apply loop_calls_until_quit; [intros j _; apply Hk | subst n; lia]. }
  destruct (calls_frames_shown (term W) (term_size self) (Z.of_nat n)
              (ascii_frames self) n 0) as (_ & Hrefresh & Hsleep);
    [intros j _; apply Hk | subst n; lia |].
  cbv zeta in Hrefresh, Hsleep. rewrite <- Hloop in Hrefresh, Hsleep.
  assert (Hcv0 : forall p, (forall m, p (EvPrint m) = false) ->
                           (forall c, p (EvSystem c) = false) ->
                           calls p (trace (convert_video W (new_player W))) = 0%nat).
  { intros p Hp1 Hp2. apply calls_none.
    apply (convert_video_calls_gen (fun e => p e = false)); auto. }
  rewrite main_shape, main_try_shape, Hc, (play_quiet _ _ HT Hne).
  cbn [result trace fst snd]. fold n. rewrite <- Hts.
  split; [reflexivity |].
  rewrite !calls_app, !Hcv0, Hrefresh, Hsleep by reflexivity.
  split; [cbn; lia | split; [cbn; lia |]].
  rewrite !in_app_iff. right. left. right. right. left. left. reflexivity.
Qed.

(** ** How the ramp is used *)

Lemma pixel_of_value (v : Z) :
  0 <= v <= 255 -> exists p : pixel, pixel_value p = v.
Proof.
  intros Hv. destruct (Byte.of_N (Z.to_N v)) as [p|] eqn:Hp.
  - exists p. unfold pixel_value.
    pose proof (Byte.to_of_N _ Hp) as E. rewrite E. lia.
  - apply Byte.of_N_None_iff in Hp. lia.
Qed.

(** The index before the clamp of [ramp_index]. *)
Definition raw_ramp_index (p : Z) : pyres Z :=
  Float64.to_int
    (Float64.mul (Float64.div (Float64.of_int p) (Float64.of_int 255))
                 (Float64.of_int (ramp_len - 1))).

Definition pyres_Z_eqb (a b : pyres Z) : bool :=
  match a, b with
  | Ret x, Ret y => x =? y
  | _, _ => false
  end.

Definition glyph_is (v : Z) (c : char) : bool :=
  match glyph v with
  | Ret c' => (c' =? c)%N
  | Raise _ => false
  end.

Lemma glyph_is_spec (v : Z) (c : char) :
  glyph_is v c = true <-> glyph v = Ret c.
Proof.
  unfold glyph_is. destruct (glyph v) as [c'|e].
  - rewrite N.eqb_eq. split; [intros ->; reflexivity | intros [= ->]; reflexivity].
  - split; discriminate.
Qed.

(** Every glyph of the ramp is used, the first ('@') for the samples 0
    to 9 and the last (the blank) for the sample 255 only; and on pixels
    the clamp at the high end never changes the index. *)
Theorem ramp_fully_used :
  (forall c, In c ENHANCED_ASCII ->
             exists p : pixel, glyph (pixel_value p) = Ret c) /\
  (forall (p : pixel) (c : char),
      head ENHANCED_ASCII = Some c ->
      (glyph (pixel_value p) = Ret c <-> pixel_value p <= 9)) /\
  (forall (p : pixel) (c : char),
      list.last ENHANCED_ASCII = Some c ->
      (glyph (pixel_value p) = Ret c <-> pixel_value p = 255)) /\
  (forall p : pixel, raw_ramp_index (pixel_value p) = ramp_index (pixel_value p)).
Proof.
  split; [| split; [| split]].
  - assert (H : forallb (fun c => existsb (fun v => glyph_is v c) (samples 256))
                        ENHANCED_ASCII = true) by (vm_compute; reflexivity).
    intros c Hc. pose proof (proj1 (forallb_forall _ _) H c Hc) as He.
    apply existsb_exists in He as (v & Hv & Hg).
    apply glyph_is_spec in Hg.
    unfold samples in Hv. apply in_map_iff in Hv as (n & <- & Hn).
    apply in_seq in Hn.
    destruct (pixel_of_value (Z.of_nat n) ltac:(lia)) as [p Hp].
    exists p. rewrite Hp. exact Hg.
  - assert (H : check_from (fun v => Bool.eqb (glyph_is v 64%N) (v <=? 9))
                           256 0 = true) by (vm_compute; reflexivity).
    intros p c Hc. assert (c = 64%N) as -> by (vm_compute in Hc; congruence).
    pose proof (check_from_spec _ _ _ (pixel_value p) H) as Hp.
    pose proof (pixel_value_range p) as Hr.
    specialize (Hp ltac:(lia)). apply Bool.eqb_prop in Hp.
    rewrite <- glyph_is_spec, Hp. apply Z.leb_le.
  - assert (H : check_from (fun v => Bool.eqb (glyph_is v 32%N) (v =? 255))
                           256 0 = true) by (vm_compute; reflexivity).
    intros p c Hc. assert (c = 32%N) as -> by (vm_compute in Hc; congruence).
    pose proof (check_from_spec _ _ _ (pixel_value p) H) as Hp.
    pose proof (pixel_value_range p) as Hr.
    specialize (Hp ltac:(lia)). apply Bool.eqb_prop in Hp.
    rewrite <- glyph_is_spec, Hp. apply Z.eqb_eq.
  - assert (H : check_from (fun v => pyres_Z_eqb (raw_ramp_index v) (ramp_index v))
                           256 0 = true) by (vm_compute; reflexivity).
    intros p.
    pose proof (check_from_spec _ _ _ (pixel_value p) H) as Hp.
    pose proof (pixel_value_range p) as Hr.
    specialize (Hp ltac:(lia)). unfold pyres_Z_eqb in Hp.
    destruct (raw_ramp_index (pixel_value p)) as [x|]; [| discriminate Hp].
    destruct (ramp_index (pixel_value p)) as [y|]; [| discriminate Hp].
    apply Z.eqb_eq in Hp. congruence.
Qed.

(** ** The frames of a run *)

Lemma gather_Ret_inv {A R} (f : A -> M R) (xs : list A) (rs : list R) :
  gather (map (fun x => result (f x)) xs) = Ret rs ->
  Forall2 (fun x r => result (f x) = Ret r) xs rs.
Proof.
  revert rs. induction xs as [|x xs IH]; intros rs; cbn [map gather].
  - intros [= <-]. constructor.
  - destruct (result (f x)) as [a|e] eqn:Hx; [| discriminate].
    destruct (gather _) as [l|e]; [| discriminate].
    intros [= <-]. constructor; [exact Hx | apply IH; reflexivity].
Qed.

Lemma truthy_Some (r : option str) (frame : str) :
  truthy r = Some frame -> r = Some frame.
Proof. destruct r as [[|c s]|]; simpl; congruence. Qed.

(** Every frame that [convert_video] leaves in the player is the result
    of the conversion of one of the stills. *)
Lemma convert_video_frames_converted (W : world) (self self' : player)
    (ok : bool) (frame : str) :
  ascii_frames self = [] ->
  result (convert_video W self) = Ret (ok, self') ->
  In frame (ascii_frames self') ->
  exists f, In f (frame_files W) /\
            result (_convert_to_ascii (cv2 W) (term_size self) (frame_path f))
            = Ret (Some frame).
Proof.
  intros Hnil. unfold convert_video, print.
  destruct (negb (video_exists W)).
  { cbn [result bind emit ret fst]. intros [= _ <-]. rewrite Hnil. intros []. }
  rewrite result_bind. cbn [result emit fst].
  destruct (negb (ffmpeg_status W =? 0)).
  { cbn [result bind emit ret fst]. intros [= _ <-]. rewrite Hnil. intros []. }
  rewrite result_bind. unfold convert_frames.
  rewrite result_bind, executor_map_result.
  destruct (gather _) as [rs|e] eqn:Hg; [| discriminate].
  cbn [result ret fst]. intros [= _ <-]. cbn [ascii_frames]. intros Hin.
  apply gather_Ret_inv in Hg.
  apply list_elem_of_In, list_elem_of_omap in Hin as (r & Hr & Ht).
  apply truthy_Some in Ht. subst r.
  clear - Hg Hr. induction Hg as [|f r fs rs Hf _ IH].
  - apply elem_of_nil in Hr. destruct Hr.
  - apply elem_of_cons in Hr as [<- | Hr].
    + exists f. split; [left; reflexivity | exact Hf].
    + destruct (IH Hr) as (f' & Hin' & Hf').
      exists f'. split; [right; exact Hin' | exact Hf'].
Qed.

(** All frames of a run have the same size, the grid of the viewport:
    floor(rows * 0.9) lines of min(ASCII_WIDTH, cols) characters, where
    (rows, cols) is the viewport for the terminal. *)
Theorem frames_share_grid (W : world) (self : player) (ok : bool) :
  resize_contract (cv2 W) ->
  fst (_get_terminal_size (terminal_size W)) <= max_terminal_rows ->
  result (convert_video W (new_player W)) = Ret (ok, self) ->
  let rows := fst (_get_terminal_size (terminal_size W)) in
  let cols := snd (_get_terminal_size (terminal_size W)) in
  Forall (fun frame =>
            Z.of_nat (length (splitlines frame)) = rows * 9 / 10 /\
            Forall (fun line => Z.of_nat (length line) = Z.min ASCII_WIDTH cols)
                   (splitlines frame))
         (ascii_frames self).
Proof.
  intros Hcv Hmax Hc rows cols. apply List.Forall_forall. intros frame Hin.
  destruct (convert_video_frames_converted W (new_player W) self ok frame
              eq_refl Hc Hin) as (f & _ & Hf).
  cbn [new_player term_size] in Hf.
  destruct (convert_to_ascii_Some _ _ _ _ Hcv Hf)
    as (gray & height & Hh & Hpos & Hw & Hlen & Hrow & ->).
  assert (Hrows : 0 <= rows <= max_terminal_rows).
  { subst rows. split; [| exact Hmax].
    destruct (terminal_size W) as [[c r]|e]; simpl; lia. }
  rewrite (grid_height_eq _ Hrows) in Hh. cbn [result fst] in Hh.
  injection Hh as <-. unfold spec_grid_height in *.
  rewrite splitlines_ascii_text. split.
  - rewrite length_map, Hlen. unfold rows. apply Z2Nat.id. lia.
  - apply List.Forall_forall. intros line Hl.
    apply in_map_iff in Hl as (row & <- & Hl).
    rewrite length_map, (proj1 (List.Forall_forall _ _) Hrow row Hl).
    unfold grid_width, cols in *. lia.
Qed.

(** * Further concrete runs *)

Lemma demo_world_converts (T : terminal) :
  result (convert_video (demo_world T) (new_player (demo_world T)))
  = Ret (true, demo_player).
Proof. vm_compute. reflexivity. Qed.

(** An OpenCV stand-in for which [cv2.imread] finds an image only at
    paths ending in [a.png], and the second way of reading finds the
    same image at paths ending in [u.png]. *)
Definition fallback_cv : cv2_env := {|
  Mat := list (list pixel);
  imread := fun path =>
    if endswith path (lit "a.png") then Ret (Some [["000"%byte]])
    else Ret None;
  imdecode_fromfile := fun path =>
    if endswith path (lit "u.png") then Ret (Some [["000"%byte]])
    else Ret None;
  cvtColor := cvtColor demo_cv;
  split := split demo_cv;
  clahe_apply := clahe_apply demo_cv;
  merge := merge demo_cv;
  filter2D := filter2D demo_cv;
  resize := resize demo_cv;
  rows_of := rows_of demo_cv
|}.

(** An OpenCV stand-in for which [cv2.imread] raises an error at paths
    ending in [b.png]. *)
Definition broken_cv : cv2_env := {|
  Mat := list (list pixel);
  imread := fun path =>
    if endswith path (lit "b.png") then Raise Cv2Error
    else imread demo_cv path;
  imdecode_fromfile := imdecode_fromfile demo_cv;
  cvtColor := cvtColor demo_cv;
  split := split demo_cv;
  clahe_apply := clahe_apply demo_cv;
  merge := merge demo_cv;
  filter2D := filter2D demo_cv;
  resize := resize demo_cv;
  rows_of := rows_of demo_cv
|}.

(** The error that [cv2.imread] raises is the one reported, with the
    path. *)
Lemma convert_to_ascii_outcomes_witness :
  _convert_to_ascii broken_cv (24, 80) (lit "temp_frames/b.png")
  = (Ret None,
     [EvPrint (MsgConvertError (lit "temp_frames/b.png") Cv2Error)]).
Proof.
  exact (proj1 (proj2 (proj2 (convert_to_ascii_outcomes broken_cv (24, 80)
                                (lit "temp_frames/b.png"))))
               Cv2Error eq_refl).
Defined.

(** Three stills of which the second is reported as an error, with the
    workers finishing the third and then the first: no conversion
    raises, and the one report is printed once. *)
Lemma convert_frames_converts_each_once_witness :
  Permutation
    (trace (convert_frames broken_cv (24, 80)
              [lit "a.png"; lit "b.png"; lit "c.png"] [2; 0]%nat))
    (concat (map (fun f => trace (_convert_to_ascii broken_cv (24, 80)
                                                    (frame_path f)))
                 [lit "a.png"; lit "b.png"; lit "c.png"])).
Proof.
  apply (proj2 (convert_frames_converts_each_once broken_cv (24, 80)
                  [lit "a.png"; lit "b.png"; lit "c.png"] [2; 0]%nat)).
  apply Forall_cons;
    [exists (Some (flat_frame 21 80 64%N)); vm_compute; reflexivity |].
  apply Forall_cons; [exists None; vm_compute; reflexivity |].
  apply Forall_cons;
    [exists (Some (flat_frame 21 80 32%N)); vm_compute; reflexivity |].
  apply Forall_nil.
Defined.

Lemma image_read_fallback_witness :
  result (_convert_to_ascii fallback_cv (24, 80) (lit "u.png"))
  = result (_convert_to_ascii fallback_cv (24, 80) (lit "a.png")).
Proof.
  apply (image_read_fallback fallback_cv (24, 80) (lit "a.png") (lit "u.png")
           [["000"%byte]]); vm_compute; reflexivity.
Defined.

Lemma frame_files_sorted_png_witness :
  frame_files (demo_world silent_terminal)
  = frame_files {| terminal_size := Ret (84, 26); video_exists := true;
                   ffmpeg_status := 0;
                   listing := [lit "b.png"; lit "a.png"; lit "notes.txt";
                               lit "c.png"];
                   cv2 := demo_cv; sched := []; term := silent_terminal |}.
Proof.
  apply (proj2 (proj2 (frame_files_sorted_png (demo_world silent_terminal)))).
  cbn [listing demo_world].
  apply perm_trans with ([lit "notes.txt"; lit "c.png"; lit "a.png"; lit "b.png"]).
  - apply perm_swap.
  - apply perm_trans with ([lit "notes.txt"; lit "a.png"; lit "c.png"; lit "b.png"]).
    + apply perm_skip, perm_swap.
    + apply perm_trans with ([lit "a.png"; lit "notes.txt"; lit "c.png"; lit "b.png"]).
      * apply perm_swap.
      * apply perm_trans with ([lit "a.png"; lit "notes.txt"; lit "b.png"; lit "c.png"]).
        -- do 2 apply perm_skip. apply perm_swap.
        -- apply perm_trans with ([lit "a.png"; lit "b.png"; lit "notes.txt"; lit "c.png"]).
           ++ apply perm_skip, perm_swap.
           ++ apply perm_swap.
Defined.

Lemma convert_video_flag_witness :
  term_size demo_player = (24, 80) /\
  (true = true <-> ascii_frames demo_player <> []) /\
  (length (ascii_frames demo_player)
   <= length (frame_files (demo_world silent_terminal)))%nat /\
  Forall (fun frame => frame <> []) (ascii_frames demo_player).
Proof.
  apply (convert_video_flag (demo_world silent_terminal)
           (new_player (demo_world silent_terminal)) demo_player true).
  - reflexivity.
  - vm_compute. reflexivity.
Defined.

Definition is_initscr (e : event) : bool :=
  match e with EvInitscr => true | _ => false end.

Lemma script_plays_only_with_frames_witness :
  exists n rows cols,
    1 <= n /\
    In (EvPrint (MsgReady n rows cols)) (trace (main (demo_world silent_terminal))).
Proof.
  apply (proj2 (script_plays_only_with_frames (demo_world silent_terminal))).
  assert (H : existsb is_initscr (trace (main (demo_world silent_terminal)))
              = true) by (vm_compute; reflexivity).
  apply existsb_exists in H as (e & Hin & He).
  destruct e; try discriminate He. exact Hin.
Defined.

Lemma interrupt_is_reported_witness :
  result (main (demo_world interrupted_terminal)) = Ret tt /\
  exit_status (result (main (demo_world interrupted_terminal))) = 0 /\
  exists t, trace (main (demo_world interrupted_terminal))
            = t ++ [EvEndwin; EvPrint MsgInterrupted;
                    EvRmtree (lit "temp_frames"); EvPrint MsgFinished].
Proof.
  apply (interrupt_is_reported (demo_world interrupted_terminal) demo_player).
  - vm_compute. reflexivity.
  - vm_compute. reflexivity.
Defined.

(** Directories of which the second cannot be created. *)
Definition no_cache_dir (dir : str) : option exn :=
  if bool_decide (dir = lit "ascii_cache") then Some OSError else None.

Lemma cleanup_on_every_path_witness :
  calls is_rmtree (trace (script (fun _ => None) (demo_world silent_terminal)))
  = 1%nat /\
  result (script no_cache_dir (demo_world silent_terminal)) = Raise OSError /\
  calls is_rmtree (trace (script no_cache_dir (demo_world silent_terminal)))
  = 0%nat.
Proof.
  destruct (cleanup_on_every_path (fun _ => None) (demo_world silent_terminal))
    as [H _].
  destruct (H eq_refl eq_refl) as (H1 & _).
  destruct (cleanup_on_every_path no_cache_dir (demo_world silent_terminal))
    as [_ H'].
  destruct (H' OSError) as (H2 & _ & H3 & _).
  { right. split; vm_compute; reflexivity. }
  split; [exact H1 | split; [exact H2 | exact H3]].
Defined.

(** A run without the video. *)
Definition no_video_world : world := {|
  terminal_size := Raise OSError;
  video_exists := false;
  ffmpeg_status := 0;
  listing := [];
  cv2 := demo_cv;
  sched := [];
  term := silent_terminal
|}.

Lemma script_aborts_without_stills_witness :
  exit_status (result (main no_video_world)) = 1 /\
  trace (main no_video_world)
  = [EvPrint MsgBanner; EvMakedirs (lit "temp_frames");
     EvMakedirs (lit "ascii_cache"); EvPrint MsgConverting] ++
    [EvPrint MsgMissingVideo] ++
    [EvRmtree (lit "temp_frames"); EvPrint MsgFinished].
Proof.
  apply (script_aborts_without_stills no_video_world).
  left. reflexivity.
Defined.

(** A terminal on which the status line of the first frame cannot be
    drawn, while the key [k] is waiting at every poll. *)
Definition glitch_terminal (k : Z) : terminal :=
  {| fault := fun s => match s with
                       | AtStatus 0 => Some CursesError
                       | _ => None
                       end;
     key := fun _ => k |}.

Lemma glitch_terminal_glitchy (k : Z) : glitchy (glitch_terminal k).
Proof.
  intros s. destruct s; try (left; reflexivity).
  destruct idx; [right; split; reflexivity | left; reflexivity].
Qed.

(** The quit key is waiting, and yet the frame whose status line cannot
    be drawn does not end the loop. *)
Lemma glitch_skips_poll_and_sleep_witness :
  result (play_frame (glitch_terminal quit_key) (24, 80) 3
                     (0%nat, flat_frame 2 3 64%N)) = Ret Continue /\
  calls is_getch (trace (play_frame (glitch_terminal quit_key) (24, 80) 3
                                    (0%nat, flat_frame 2 3 64%N))) = 0%nat /\
  calls is_sleep (trace (play_frame (glitch_terminal quit_key) (24, 80) 3
                                    (0%nat, flat_frame 2 3 64%N))) = 0%nat.
Proof.
  apply (glitch_skips_poll_and_sleep (glitch_terminal quit_key) (24, 80) 3 0
           (flat_frame 2 3 64%N)).
  - reflexivity.
  - intros c Hc.
    destruct (glitch_terminal_glitchy quit_key (fst c)) as [H | [H _]]; auto.
  - exists (AtStatus 0,
            status_call (splitlines (flat_frame 2 3 64%N)) 24 80 0 3).
    split; [| reflexivity].
    unfold draw_sites. apply in_or_app. right. left. reflexivity.
Defined.

Lemma playback_survives_glitches_witness :
  result (play (glitch_terminal (-1)) three_frames) = Ret tt /\
  calls is_clear (trace (play (glitch_terminal (-1)) three_frames)) = 3%nat.
Proof.
  destruct (playback_survives_glitches (glitch_terminal (-1)) three_frames
              (glitch_terminal_glitchy (-1))) as [Hr Hc].
  split; [exact Hr |]. apply Hc. intros idx. vm_compute. discriminate.
Defined.

(** A terminal on which an interruption arrives in [start_color]. *)
Definition no_colour_terminal : terminal :=
  {| fault := fun s => match s with
                       | AtStartColor => Some KeyboardInterrupt
                       | _ => None
                       end;
     key := fun _ => -1 |}.

Lemma colours_are_optional_witness :
  result (play no_colour_terminal three_frames) = Ret tt.
Proof.
  rewrite (colours_are_optional no_colour_terminal three_frames).
  - reflexivity.
  - discriminate.
  - intros s H1 H2. destruct s; try reflexivity. congruence.
Defined.

Lemma drawing_stays_inside_witness :
  Forall (draws_inside 26 84)
         (trace (play_frame silent_terminal
                            (_get_terminal_size (Ret (84, 26))) 1
                            (0%nat, flat_frame 30 120 64%N))).
Proof.
  apply (proj2 (drawing_stays_inside silent_terminal 84 26 1 0
                  (flat_frame 30 120 64%N))); lia.
Defined.

Lemma script_plays_all_frames_witness :
  exit_status (result (main (demo_world silent_terminal))) = 0 /\
  calls is_refresh (trace (main (demo_world silent_terminal))) = 2%nat.
Proof.
  destruct (script_plays_all_frames (demo_world silent_terminal) demo_player)
    as (H1 & H2 & _).
  - vm_compute. reflexivity.
  - exact silent_terminal_quiet.
  - intros idx. vm_compute. discriminate.
  - split; [exact H1 | exact H2].
Defined.

Lemma ramp_fully_used_witness :
  exists p : pixel, glyph (pixel_value p) = Ret 35%N.
Proof.
  apply (proj1 ramp_fully_used 35%N). vm_compute. tauto.
Defined.

Lemma frames_share_grid_witness :
  Forall (fun frame =>
            Z.of_nat (length (splitlines frame)) = 24 * 9 / 10 /\
            Forall (fun line => Z.of_nat (length line) = Z.min ASCII_WIDTH 80)
                   (splitlines frame))
         (ascii_frames demo_player).
Proof.
  apply (frames_share_grid (demo_world silent_terminal) demo_player true).
  - exact demo_cv_contract.
  - vm_compute. discriminate.
  - vm_compute. reflexivity.
Defined.

(** ** The grid height in binary64 *)

(** [int(rows * 0.9)] is computed in binary64: the product of [rows]
    and the double nearest to 0.9 is rounded to 53 digits and then
    truncated. The lemmas below follow this computation on the
    definitions of [SpecFloat]. *)

Lemma digits2_pos_bounds (p : positive) :
  2 ^ (Zpos (digits2_pos p) - 1) <= Zpos p < 2 ^ Zpos (digits2_pos p).
Proof.
  induction p as [p IH | p IH |]; cbn [digits2_pos].
  - rewrite Pos2Z.inj_succ.
    replace (Z.succ (Zpos (digits2_pos p)) - 1) with (Z.succ (Zpos (digits2_pos p) - 1)) by lia.
    rewrite !Z.pow_succ_r by lia. lia.
  - rewrite Pos2Z.inj_succ.
    replace (Z.succ (Zpos (digits2_pos p)) - 1) with (Z.succ (Zpos (digits2_pos p) - 1)) by lia.
    rewrite !Z.pow_succ_r by lia. lia.
  - simpl. lia.
Qed.

Lemma digits2_pos_unique (p : positive) (d : Z) :
  2 ^ (d - 1) <= Zpos p < 2 ^ d -> Zpos (digits2_pos p) = d.
Proof.
  intros [Hlo Hhi]. pose proof (digits2_pos_bounds p) as [Hlo' Hhi'].
  assert (0 < d).
  { destruct (Z.lt_ge_cases 0 d) as [H|H]; [exact H |].
    assert (2 ^ d <= 2 ^ 0) by (apply Z.pow_le_mono_r; lia). simpl in *. lia. }
  assert (Zpos (digits2_pos p) - 1 < d).
  { apply (Z.pow_lt_mono_r_iff 2); lia. }
  assert (d - 1 < Zpos (digits2_pos p)).
  { apply (Z.pow_lt_mono_r_iff 2); lia. }
  lia.
Qed.

Lemma iter_xO_spec (m d : positive) :
  Zpos (Pos.iter xO m d) = Zpos m * 2 ^ Zpos d.
Proof.
  induction d as [|d IH] using Pos.peano_ind.
  - simpl. lia.
  - rewrite Pos.iter_succ, Pos2Z.inj_succ, Z.pow_succ_r by lia.
    rewrite Pos2Z.inj_xO, IH. lia.
Qed.

Lemma shr_1_m (mrs : shr_record) :
  0 <= shr_m mrs -> shr_m (shr_1 mrs) = shr_m mrs / 2 /\ 0 <= shr_m (shr_1 mrs).
Proof.
  destruct mrs as [m r s]. cbn [shr_m]. intros Hm.
  destruct m as [|[p|p|]|p]; cbn [shr_1 shr_m]; try lia.
  - split; [reflexivity | lia].
  - split; [| lia].
    apply Z.div_unique with 1; lia.
  - split; [| lia].
    apply Z.div_unique with 0; lia.
  - split; [reflexivity | lia].
Qed.

Lemma pow2_xI (n : positive) : 2 ^ Zpos n~1 = 2 * 2 ^ Zpos n * 2 ^ Zpos n.
Proof.
  replace (Zpos n~1) with (1 + Zpos n + Zpos n) by lia.
  rewrite !Z.pow_add_r by lia. reflexivity.
Qed.

Lemma pow2_xO (n : positive) : 2 ^ Zpos n~0 = 2 ^ Zpos n * 2 ^ Zpos n.
Proof.
  replace (Zpos n~0) with (Zpos n + Zpos n) by lia.
  rewrite !Z.pow_add_r by lia. reflexivity.
Qed.

Lemma iter_shr_1_m (n : positive) (mrs : shr_record) :
  0 <= shr_m mrs ->
  shr_m (SpecFloat.iter_pos shr_1 n mrs) = shr_m mrs / 2 ^ Zpos n /\
  0 <= shr_m (SpecFloat.iter_pos shr_1 n mrs).
Proof.
  revert mrs. induction n as [n IH | n IH |]; intros mrs Hm; cbn [SpecFloat.iter_pos].
  - destruct (shr_1_m mrs Hm) as [E1 P1].
    destruct (IH _ P1) as [E2 P2]. destruct (IH _ P2) as [E3 P3].
    split; [| exact P3]. rewrite E3, E2, E1, pow2_xI.
    assert (0 < 2 ^ Zpos n) by (apply Z.pow_pos_nonneg; lia).
    rewrite !Z.div_div by lia. f_equal. lia.
  - destruct (IH _ Hm) as [E2 P2]. destruct (IH _ P2) as [E3 P3].
    split; [| exact P3]. rewrite E3, E2, pow2_xO.
    assert (0 < 2 ^ Zpos n) by (apply Z.pow_pos_nonneg; lia).
    rewrite !Z.div_div by lia. reflexivity.
  - destruct (shr_1_m mrs Hm) as [E1 P1]. split; [| exact P1].
    rewrite E1. reflexivity.
Qed.

Lemma fexp_eq (e : Z) : -1021 <= e -> fexp Float64.prec Float64.emax e = e - 53.
Proof. intros H. unfold fexp, emin, Float64.prec, Float64.emax. lia. Qed.

(** A positive integer of exactly 53 digits is stored as it is. *)
Lemma round_aux_exact (m : positive) (e : Z) :
  Zpos (digits2_pos m) = 53 -> -1074 <= e <= 971 ->
  binary_round_aux Float64.prec Float64.emax false (Zpos m) e loc_Exact = S754_finite false m e.
Proof.
  intros Hd He. unfold binary_round_aux, shr_fexp.
  cbn [Zdigits2 shr_record_of_loc]. rewrite Hd.
  rewrite fexp_eq by lia. replace (53 + e - 53 - e) with 0 by lia.
  cbn [shr shr_m loc_of_shr_record round_nearest_even Zdigits2].
  rewrite Hd, fexp_eq by lia. replace (53 + e - 53 - e) with 0 by lia.
  cbn [shr shr_m shr_record_of_loc].
  replace (e <=? Float64.emax - Float64.prec) with true by (unfold Float64.emax, Float64.prec; lia).
  reflexivity.
Qed.

Lemma round_nearest_even_cases (m : Z) (l : location) :
  round_nearest_even m l = m \/ round_nearest_even m l = m + 1.
Proof.
  destruct l as [|[| |]]; cbn [round_nearest_even]; auto.
  destruct (Z.even m); auto.
Qed.

(** A positive integer of [53 + s] digits is rounded to 53 digits: its
    [s] low digits are dropped, and the result is that or one more. *)
Lemma round_aux_round (P s : positive) (e0 : Z) :
  Zpos (digits2_pos P) = 53 + Zpos s ->
  -1021 <= 53 + Zpos s + e0 -> e0 + Zpos s + 1 <= 971 ->
  exists m1 m2 e2,
    (m1 = Zpos P / 2 ^ Zpos s \/ m1 = Zpos P / 2 ^ Zpos s + 1) /\
    binary_round_aux Float64.prec Float64.emax false (Zpos P) e0 loc_Exact
    = S754_finite false m2 e2 /\
    ((Zpos m2 = m1 /\ e2 = e0 + Zpos s) \/
     (2 * Zpos m2 = m1 /\ e2 = e0 + Zpos s + 1)).
Proof.
  intros Hd Hlo Hhi.
  pose proof (digits2_pos_bounds P) as HP. rewrite Hd in HP.
  assert (Hs : 0 < 2 ^ Zpos s) by (apply Z.pow_pos_nonneg; lia).
  assert (Hm0 : 2 ^ 52 <= Zpos P / 2 ^ Zpos s < 2 ^ 53).
  { replace (53 + Zpos s - 1) with (52 + Zpos s) in HP by lia.
    rewrite !Z.pow_add_r in HP by lia. split.
    - apply Z.div_le_lower_bound; lia.
    - apply Z.div_lt_upper_bound; lia. }
  unfold binary_round_aux, shr_fexp.
  cbn [Zdigits2 shr_record_of_loc]. rewrite Hd, fexp_eq by lia.
  replace (53 + Zpos s + e0 - 53 - e0) with (Zpos s) by lia.
  cbn [shr].
  destruct (iter_shr_1_m s {| shr_m := Zpos P; shr_r := false; shr_s := false |})
    as [E0 _]; [cbn; lia |].
  cbn [shr_m] in E0.
  set (mrs' := SpecFloat.iter_pos shr_1 s _) in *.
  destruct (round_nearest_even_cases (shr_m mrs') (loc_of_shr_record mrs'))
    as [E1 | E1]; rewrite E1, E0.
  - (* not rounded up *)
    destruct (Zpos P / 2 ^ Zpos s) as [|p1|p1] eqn:Ep; try lia.
    assert (Hd1 : Zpos (digits2_pos p1) = 53)
      by (apply digits2_pos_unique; simpl; lia).
    cbn [Zdigits2]. rewrite Hd1, fexp_eq by lia.
    replace (53 + (e0 + Zpos s) - 53 - (e0 + Zpos s)) with 0 by lia.
    cbn [shr shr_m].
    replace (e0 + Zpos s <=? Float64.emax - Float64.prec) with true
      by (unfold Float64.emax, Float64.prec; lia).
    exists (Zpos p1), p1, (e0 + Zpos s). auto.
  - (* rounded up *)
    destruct (Z.eq_dec (Zpos P / 2 ^ Zpos s + 1) (2 ^ 53)) as [Etop | Ntop].
    + rewrite Etop. change (2 ^ 53) with (Zpos 9007199254740992).
      cbn [Zdigits2].
      replace (Zpos (digits2_pos 9007199254740992)) with 54 by reflexivity.
      rewrite fexp_eq by lia.
      replace (54 + (e0 + Zpos s) - 53 - (e0 + Zpos s)) with 1 by lia.
      cbn [shr SpecFloat.iter_pos shr_1 shr_m].
      replace (e0 + Zpos s + 1 <=? Float64.emax - Float64.prec) with true
        by (unfold Float64.emax, Float64.prec; lia).
      exists (2 ^ 53), 4503599627370496%positive, (e0 + Zpos s + 1).
      split; [right; lia | split; [reflexivity | right; split; reflexivity]].
    + destruct (Zpos P / 2 ^ Zpos s + 1) as [|p1|p1] eqn:Ep; try lia.
      assert (Hd1 : Zpos (digits2_pos p1) = 53)
        by (apply digits2_pos_unique; simpl; lia).
      cbn [Zdigits2]. rewrite Hd1, fexp_eq by lia.
      replace (53 + (e0 + Zpos s) - 53 - (e0 + Zpos s)) with 0 by lia.
      cbn [shr shr_m].
      replace (e0 + Zpos s <=? Float64.emax - Float64.prec) with true
        by (unfold Float64.emax, Float64.prec; lia).
      exists (Zpos p1), p1, (e0 + Zpos s). auto.
Qed.

Lemma of_int_exact (r : positive) :
  Zpos r < 2 ^ 53 ->
  exists mz k,
    0 <= k /\ k = 53 - Zpos (digits2_pos r) /\
    binary_normalize Float64.prec Float64.emax (Zpos r) 0 false = S754_finite false mz (- k) /\
    Zpos mz = Zpos r * 2 ^ k /\
    Zpos (digits2_pos mz) = 53.
Proof.
  intros Hr. pose proof (digits2_pos_bounds r) as Hb.
  set (d := Zpos (digits2_pos r)) in *.
  assert (Hd : 1 <= d <= 53).
  { split; [subst d; lia |].
    assert (d - 1 < 53) by (apply (Z.pow_lt_mono_r_iff 2); lia). lia. }
  cbn [binary_normalize]. unfold binary_round. fold d.
  rewrite Z.add_0_r, fexp_eq by lia. unfold shl_align.
  destruct (d - 53 - 0) as [|dd|dd] eqn:Edd; try lia.
  - exists r, 0. assert (d = 53) by lia.
    replace (d - 53) with 0 by lia.
    split; [lia | split; [lia | split; [| split; [lia | lia]]]].
    apply round_aux_exact; lia.
  - exists (Pos.iter xO r dd), (Zpos dd).
    assert (Ek : Zpos dd = 53 - d) by lia.
    assert (Em : Zpos (Pos.iter xO r dd) = Zpos r * 2 ^ Zpos dd)
      by apply iter_xO_spec.
    assert (Hdig : Zpos (digits2_pos (Pos.iter xO r dd)) = 53).
    { apply digits2_pos_unique. rewrite Em.
      assert (0 < 2 ^ Zpos dd) by (apply Z.pow_pos_nonneg; lia).
      replace (2 ^ (53 - 1)) with (2 ^ (d - 1) * 2 ^ Zpos dd)
        by (rewrite <- Z.pow_add_r by lia; f_equal; lia).
      replace (2 ^ 53) with (2 ^ d * 2 ^ Zpos dd)
        by (rewrite <- Z.pow_add_r by lia; f_equal; lia).
      split; [apply Z.mul_le_mono_nonneg_r | apply Z.mul_lt_mono_pos_r]; lia. }
    split; [lia | split; [lia | split; [| split; [exact Em | exact Hdig]]]].
    replace (d - 53) with (- Zpos dd) by lia.
    apply round_aux_exact; [exact Hdig | lia].
Qed.

(** The mantissa of the literal [0.9]. *)
Definition mantissa_0_9 : positive := 8106479329266893.

Lemma div_sandwich (a b q : Z) : 0 < b -> q * b <= a < (q + 1) * b -> a / b = q.
Proof.
  intros Hb [Hlo Hhi]. symmetry. apply Z.div_unique with (a - q * b); lia.
Qed.

Lemma product_truncated (r : positive) :
  Zpos r < 2 ^ 48 ->
  Float64.to_int (Float64.mul (Float64.of_int (Zpos r)) Float64.lit_0_9)
  = Ret (Zpos r * 9 / 10).
Proof.
  intros Hr. unfold Float64.of_int, Float64.mul.
  destruct (of_int_exact r) as (mz & k & Hk0 & Hk & -> & Hmz & Hdz); [lia |].
  pose proof (digits2_pos_bounds r) as Hbr.
  set (d := Zpos (digits2_pos r)) in *.
  assert (Hd : 1 <= d <= 48).
  { split; [subst d; lia |].
    assert (d - 1 < 48) by (apply (Z.pow_lt_mono_r_iff 2); lia). lia. }
  pose proof (digits2_pos_bounds mz) as Hbz. rewrite Hdz in Hbz.
  unfold Float64.lit_0_9. fold mantissa_0_9. cbn [SFmul xorb].
  set (P := (mz * mantissa_0_9)%positive).
  assert (HP : Zpos P = Zpos mz * Zpos mantissa_0_9) by reflexivity.
  pose proof (digits2_pos_bounds P) as HbP.
  set (d' := Zpos (digits2_pos P)) in *.
  assert (Hmc : 2 ^ 52 <= Zpos mantissa_0_9 < 2 ^ 53) by (unfold mantissa_0_9; simpl; lia).
  assert (HPr : 2 ^ 104 <= Zpos P < 2 ^ 106).
  { rewrite HP. change (2 ^ 104) with (2 ^ 52 * 2 ^ 52).
    change (2 ^ 106) with (2 ^ 53 * 2 ^ 53).
    change (53 - 1) with 52 in Hbz. split.
    - apply Z.mul_le_mono_nonneg; lia.
    - apply Z.mul_lt_mono_nonneg; lia. }
  assert (Hd' : d' = 105 \/ d' = 106).
  { assert (d' - 1 < 106) by (apply (Z.pow_lt_mono_r_iff 2); lia).
    assert (104 < d') by (apply (Z.pow_lt_mono_r_iff 2); lia). lia. }
  destruct (round_aux_round P (Z.to_pos (d' - 53)) (- k + -53))
    as (m1 & m2 & e2 & Hm1 & -> & Hm2).
  { rewrite Z2Pos.id by lia. subst d'. lia. }
  { rewrite Z2Pos.id by lia. lia. }
  { rewrite Z2Pos.id by lia. lia. }
  rewrite Z2Pos.id in Hm1, Hm2 by lia.
  set (s := d' - 53) in *.
  set (t := 106 + k - d').
  assert (Ht : 5 <= t) by (subst t; lia).
  assert (Hst : s + t = 53 + k) by (subst s t; lia).
  set (q := Zpos r * 9 / 10).
  assert (Hq : 10 * q <= 9 * Zpos r < 10 * q + 10).
  { subst q. pose proof (Z.div_mod (Zpos r * 9) 10 ltac:(lia)).
    pose proof (Z.mod_pos_bound (Zpos r * 9) 10 ltac:(lia)). lia. }
  assert (HS : 0 < 2 ^ s) by (apply Z.pow_pos_nonneg; lia).
  assert (HT : 0 < 2 ^ t) by (apply Z.pow_pos_nonneg; lia).
  assert (HK : 0 < 2 ^ k) by (apply Z.pow_pos_nonneg; lia).
  assert (HST : 2 ^ s * 2 ^ t = 2 ^ 53 * 2 ^ k)
    by (rewrite <- !Z.pow_add_r by lia; f_equal; lia).
  assert (HSK : 2 ^ s <= 2 * Zpos r * 2 ^ k).
  { assert (2 ^ s <= 2 ^ d * 2 ^ k).
    { rewrite <- Z.pow_add_r by lia. apply Z.pow_le_mono_r; lia. }
    assert (E2 : 2 ^ d = 2 * 2 ^ (d - 1)).
    { replace d with (1 + (d - 1)) at 1 by lia.
      rewrite Z.pow_add_r by lia. reflexivity. }
    apply Z.le_trans with (2 ^ d * 2 ^ k); [assumption |].
    rewrite E2. apply Z.mul_le_mono_nonneg_r; lia. }
  assert (Hmcv : Zpos mantissa_0_9 = 8106479329266893) by reflexivity.
  assert (H53 : 2 ^ 53 = 9007199254740992) by reflexivity.
  assert (H48 : 2 ^ 48 = 281474976710656) by reflexivity.
  assert (HPv : Zpos P = Zpos r * Zpos mantissa_0_9 * 2 ^ k) by (rewrite HP, Hmz; ring).
  (* the rounded mantissa lies between q and q + 1, scaled *)
  assert (HL : q * 2 ^ t <= Zpos P / 2 ^ s).
  { apply Z.div_le_lower_bound; [lia |].
    replace (2 ^ s * (q * 2 ^ t)) with (q * (2 ^ s * 2 ^ t)) by ring.
    rewrite HST, HPv.
    replace (q * (2 ^ 53 * 2 ^ k)) with (q * 2 ^ 53 * 2 ^ k) by ring.
    apply Z.mul_le_mono_nonneg_r; lia. }
  assert (HU : Zpos P / 2 ^ s + 1 < (q + 1) * 2 ^ t).
  { assert (Zpos P / 2 ^ s < (q + 1) * 2 ^ t - 1); [| lia].
    apply Z.div_lt_upper_bound; [lia |].
    replace (2 ^ s * ((q + 1) * 2 ^ t - 1))
      with ((q + 1) * (2 ^ s * 2 ^ t) - 2 ^ s) by ring.
    rewrite HST, HPv.
    assert (Zpos r * Zpos mantissa_0_9 * 2 ^ k + 2 * Zpos r * 2 ^ k
            < (q + 1) * (2 ^ 53 * 2 ^ k)); [| lia].
    replace (Zpos r * Zpos mantissa_0_9 * 2 ^ k + 2 * Zpos r * 2 ^ k)
      with ((Zpos r * Zpos mantissa_0_9 + 2 * Zpos r) * 2 ^ k) by ring.
    replace ((q + 1) * (2 ^ 53 * 2 ^ k)) with ((q + 1) * 2 ^ 53 * 2 ^ k) by ring.
    apply Z.mul_lt_mono_pos_r; lia. }
  assert (Hm1q : m1 / 2 ^ t = q).
  { apply div_sandwich; [lia |]. destruct Hm1 as [-> | ->]; lia. }
  (* the exponent is negative: the truncation is a division *)
  destruct Hm2 as [[Em Ee] | [Em Ee]].
  - assert (He2 : e2 = - t) by (subst t s; lia).
    destruct e2 as [|pe|pe]; try lia.
    cbn [Float64.to_int]. rewrite Z.shiftr_div_pow2 by lia.
    replace (Zpos pe) with t by lia. rewrite Em, Hm1q. reflexivity.
  - assert (He2 : e2 = - (t - 1)) by (subst t s; lia).
    destruct e2 as [|pe|pe]; try lia.
    cbn [Float64.to_int]. rewrite Z.shiftr_div_pow2 by lia.
    replace (Zpos pe) with (t - 1) by lia.
    assert (E : Zpos m2 = m1 / 2) by (apply Z.div_unique with 0; lia).
    rewrite E, Z.div_div by (try apply Z.pow_pos_nonneg; lia).
    replace (2 * 2 ^ (t - 1)) with (2 ^ t).
    + rewrite Hm1q. reflexivity.
    + replace t with (1 + (t - 1)) at 1 by lia.
      rewrite Z.pow_add_r by lia. reflexivity.
Qed.

(** For every row count below 2^48 the grid height computed in binary64
    is floor(rows * 9 / 10). *)
Lemma grid_height_exact (rows cols : Z) :
  0 <= rows < 2 ^ 48 ->
  grid_height (rows, cols) = (Ret (rows * 9 / 10), []).
Proof.
  intros Hr. unfold grid_height. cbn [fst].
  destruct rows as [|r|r]; [reflexivity | | lia].
  pose proof (product_truncated r ltac:(lia)) as H.
  unfold Float64.of_pyint.
  destruct (Float64.of_int (Zpos r)) as [s|s| |s m e] eqn:E.
  - unfold lift. mrun. rewrite H. reflexivity.
  - exfalso. unfold Float64.of_int in E.
    destruct (of_int_exact r ltac:(lia)) as (mz & k & _ & _ & E' & _).
    rewrite E' in E. discriminate E.
  - unfold lift. mrun. rewrite H. reflexivity.
  - unfold lift. mrun. rewrite H. reflexivity.
Qed.

(** Rounding a positive integer of [53 + s] digits: an infinity when
    the exponent is too large, and else 53 digits with an exponent of
    at least [e0 + s]. *)
Lemma round_aux_large (P s : positive) (e0 : Z) :
  Zpos (digits2_pos P) = 53 + Zpos s ->
  -1021 <= 53 + Zpos s + e0 ->
  binary_round_aux Float64.prec Float64.emax false (Zpos P) e0 loc_Exact
  = S754_infinity false \/
  exists m2 e2,
    binary_round_aux Float64.prec Float64.emax false (Zpos P) e0 loc_Exact
    = S754_finite false m2 e2 /\
    Zpos (digits2_pos m2) = 53 /\ e0 + Zpos s <= e2.
Proof.
  intros Hd Hlo.
  pose proof (digits2_pos_bounds P) as HP. rewrite Hd in HP.
  assert (Hs : 0 < 2 ^ Zpos s) by (apply Z.pow_pos_nonneg; lia).
  assert (Hm0 : 2 ^ 52 <= Zpos P / 2 ^ Zpos s < 2 ^ 53).
  { replace (53 + Zpos s - 1) with (52 + Zpos s) in HP by lia.
    rewrite !Z.pow_add_r in HP by lia. split.
    - apply Z.div_le_lower_bound; lia.
    - apply Z.div_lt_upper_bound; lia. }
  unfold binary_round_aux, shr_fexp.
  cbn [Zdigits2 shr_record_of_loc]. rewrite Hd, fexp_eq by lia.
  replace (53 + Zpos s + e0 - 53 - e0) with (Zpos s) by lia.
  cbn [shr].
  destruct (iter_shr_1_m s {| shr_m := Zpos P; shr_r := false; shr_s := false |})
    as [E0 _]; [cbn; lia |].
  cbn [shr_m] in E0.
  set (mrs' := SpecFloat.iter_pos shr_1 s _) in *.
  destruct (round_nearest_even_cases (shr_m mrs') (loc_of_shr_record mrs'))
    as [E1 | E1]; rewrite E1, E0.
  - destruct (Zpos P / 2 ^ Zpos s) as [|p1|p1] eqn:Ep; try lia.
    assert (Hd1 : Zpos (digits2_pos p1) = 53)
      by (apply digits2_pos_unique; simpl; lia).
    cbn [Zdigits2]. rewrite Hd1, fexp_eq by lia.
    replace (53 + (e0 + Zpos s) - 53 - (e0 + Zpos s)) with 0 by lia.
    cbn [shr shr_m].
    destruct (e0 + Zpos s <=? Float64.emax - Float64.prec); [right | left; reflexivity].
    exists p1, (e0 + Zpos s). split; [reflexivity | split; [exact Hd1 | lia]].
  - destruct (Z.eq_dec (Zpos P / 2 ^ Zpos s + 1) (2 ^ 53)) as [Etop | Ntop].
    + rewrite Etop. change (2 ^ 53) with (Zpos 9007199254740992).
      cbn [Zdigits2].
      replace (Zpos (digits2_pos 9007199254740992)) with 54 by reflexivity.
      rewrite fexp_eq by lia.
      replace (54 + (e0 + Zpos s) - 53 - (e0 + Zpos s)) with 1 by lia.
      cbn [shr SpecFloat.iter_pos shr_1 shr_m].
      destruct (e0 + Zpos s + 1 <=? Float64.emax - Float64.prec);
        [right | left; reflexivity].
      exists 4503599627370496%positive, (e0 + Zpos s + 1).
      split; [reflexivity | split; [reflexivity | lia]].
    + destruct (Zpos P / 2 ^ Zpos s + 1) as [|p1|p1] eqn:Ep; try lia.
      assert (Hd1 : Zpos (digits2_pos p1) = 53)
        by (apply digits2_pos_unique; simpl; lia).
      cbn [Zdigits2]. rewrite Hd1, fexp_eq by lia.
      replace (53 + (e0 + Zpos s) - 53 - (e0 + Zpos s)) with 0 by lia.
      cbn [shr shr_m].
      destruct (e0 + Zpos s <=? Float64.emax - Float64.prec); [right | left; reflexivity].
      exists p1, (e0 + Zpos s). split; [reflexivity | split; [exact Hd1 | lia]].
Qed.

(** The conversion of an integer of at least 2^48: an infinity, or 53
    digits with an exponent of at least -4. *)
Lemma of_int_large (r : positive) :
  2 ^ 48 <= Zpos r ->
  Float64.of_int (Zpos r) = S754_infinity false \/
  exists m e,
    Float64.of_int (Zpos r) = S754_finite false m e /\
    Zpos (digits2_pos m) = 53 /\ -4 <= e.
Proof.
  intros Hr.
  destruct (Z.lt_ge_cases (Zpos r) (2 ^ 53)) as [Hlt | Hge].
  - right. destruct (of_int_exact r Hlt) as (mz & k & _ & Hk & E & _ & Hd).
    exists mz, (- k). split; [exact E | split; [exact Hd |]].
    pose proof (digits2_pos_bounds r) as Hb.
    assert (48 < Zpos (digits2_pos r)) by (apply (Z.pow_lt_mono_r_iff 2); lia).
    lia.
  - pose proof (digits2_pos_bounds r) as Hb.
    assert (Hd : 53 < Zpos (digits2_pos r)) by (apply (Z.pow_lt_mono_r_iff 2); lia).
    unfold Float64.of_int. cbn [binary_normalize]. unfold binary_round.
    rewrite Z.add_0_r, fexp_eq by lia. unfold shl_align.
    destruct (Zpos (digits2_pos r) - 53 - 0) as [|dd|dd] eqn:Edd; try lia.
    destruct (round_aux_large r dd 0) as [E | (m2 & e2 & E & Hd2 & He2)];
      [lia | lia | left; exact E | right].
    exists m2, e2. split; [exact E | split; [exact Hd2 | lia]].
Qed.

(** The product of such a number and 0.9: an infinity, or 53 digits
    with an exponent of at least -5. *)
Lemma mul_0_9_large (m : positive) (e : Z) :
  Zpos (digits2_pos m) = 53 -> -4 <= e ->
  Float64.mul (S754_finite false m e) Float64.lit_0_9 = S754_infinity false \/
  exists m2 e2,
    Float64.mul (S754_finite false m e) Float64.lit_0_9 = S754_finite false m2 e2 /\
    Zpos (digits2_pos m2) = 53 /\ -5 <= e2.
Proof.
  intros Hd He. unfold Float64.mul, Float64.lit_0_9. fold mantissa_0_9.
  cbn [SFmul xorb].
  set (P := (m * mantissa_0_9)%positive).
  assert (HP : Zpos P = Zpos m * Zpos mantissa_0_9) by reflexivity.
  pose proof (digits2_pos_bounds m) as Hbm. rewrite Hd in Hbm.
  pose proof (digits2_pos_bounds P) as HbP.
  set (d' := Zpos (digits2_pos P)) in *.
  assert (Hmc : 2 ^ 52 <= Zpos mantissa_0_9 < 2 ^ 53) by (unfold mantissa_0_9; simpl; lia).
  assert (HPr : 2 ^ 104 <= Zpos P < 2 ^ 106).
  { rewrite HP. change (2 ^ 104) with (2 ^ 52 * 2 ^ 52).
    change (2 ^ 106) with (2 ^ 53 * 2 ^ 53).
    change (53 - 1) with 52 in Hbm. split.
    - apply Z.mul_le_mono_nonneg; lia.
    - apply Z.mul_lt_mono_nonneg; lia. }
  assert (Hd' : d' = 105 \/ d' = 106).
  { assert (d' - 1 < 106) by (apply (Z.pow_lt_mono_r_iff 2); lia).
    assert (104 < d') by (apply (Z.pow_lt_mono_r_iff 2); lia). lia. }
  destruct (round_aux_large P (Z.to_pos (d' - 53)) (e + -53))
    as [E | (m2 & e2 & E & Hd2 & He2)].
  { rewrite Z2Pos.id by lia. subst d'. lia. }
  { rewrite Z2Pos.id by lia. lia. }
  - left. exact E.
  - right. exists m2, e2. rewrite Z2Pos.id in He2 by lia.
    split; [exact E | split; [exact Hd2 | lia]].
Qed.

Lemma to_int_large (m : positive) (e : Z) (h : Z) :
  Zpos (digits2_pos m) = 53 -> -5 <= e ->
  Float64.to_int (S754_finite false m e) = Ret h -> 2 ^ 47 <= h.
Proof.
  intros Hd He. pose proof (digits2_pos_bounds m) as Hb. rewrite Hd in Hb.
  change (53 - 1) with 52 in Hb.
  cbn [Float64.to_int]. intros [= <-].
  destruct e as [|p|p].
  - rewrite Z.shiftl_0_r. change (2 ^ 47 <= Zpos m).
    assert (2 ^ 47 <= 2 ^ 52) by (apply Z.pow_le_mono_r; lia). lia.
  - rewrite Z.shiftl_mul_pow2 by lia.
    assert (0 < 2 ^ Zpos p) by (apply Z.pow_pos_nonneg; lia).
    assert (2 ^ 47 <= 2 ^ 52) by (apply Z.pow_le_mono_r; lia). nia.
  - rewrite Z.shiftr_div_pow2 by lia.
    apply Z.div_le_lower_bound; [apply Z.pow_pos_nonneg; lia |].
    assert (2 ^ Zpos p <= 2 ^ 5) by (apply Z.pow_le_mono_r; lia).
    change (2 ^ 52) with (2 ^ 5 * 2 ^ 47) in Hb.
    assert (0 < 2 ^ Zpos p) by (apply Z.pow_pos_nonneg; lia).
    assert (0 < 2 ^ 47) by reflexivity. nia.
Qed.

(** For a viewport of 2^48 rows or more, the grid height, when it is
    computed at all, is at least 2^47. *)
Lemma grid_height_large (rows cols h : Z) :
  2 ^ 48 <= rows ->
  result (grid_height (rows, cols)) = Ret h -> 2 ^ 47 <= h.
Proof.
  intros Hr. unfold grid_height. cbn [fst].
  assert (H48 : 0 < 2 ^ 48) by reflexivity.
  destruct rows as [|r|r]; [lia | | lia].
  unfold Float64.of_pyint.
  destruct (of_int_large r Hr) as [E | (m & e & E & Hd & He)]; rewrite E.
  - unfold lift. rewrite bind_Raise. discriminate.
  - unfold lift. rewrite bind_Ret. cbn [result trace fst snd].
    destruct (mul_0_9_large m e Hd He) as [E' | (m2 & e2 & E' & Hd2 & He2)];
      rewrite E'.
    + discriminate.
    + apply to_int_large; assumption.
Qed.

(** For a viewport without rows, or of a negative number of rows, the
    grid height is not positive. *)
Lemma grid_height_nonpos (rows cols h : Z) :
  rows <= 0 ->
  result (grid_height (rows, cols)) = Ret h -> h <= 0.
Proof.
  intros Hr. unfold grid_height. cbn [fst].
  destruct rows as [|r|r]; [| lia |].
  - cbn. intros [= <-]. lia.
  - unfold Float64.of_pyint, Float64.of_int. cbn [binary_normalize].
    unfold binary_round. destruct (shl_align r 0 _) as [mz ez].
    pose proof (binary_round_aux_sign true (Zpos mz) ez loc_Exact) as Hs.
    destruct (binary_round_aux _ _ true (Zpos mz) ez loc_Exact)
      as [s|s| |s m e]; cbn [has_sign] in Hs; unfold lift.
    + rewrite bind_Ret. cbn. intros [= <-]. lia.
    + rewrite bind_Raise. discriminate.
    + rewrite bind_Ret. cbn. discriminate.
    + subst s. rewrite bind_Ret. cbn [result trace fst snd].
      unfold Float64.mul, Float64.lit_0_9. cbn [SFmul xorb].
      pose proof (binary_round_aux_sign true
                    (Zpos (m * 8106479329266893)) (e + -53) loc_Exact) as Hs.
      destruct (binary_round_aux _ _ true _ _ loc_Exact) as [s|s| |s m' e'];
        cbn [has_sign] in Hs; cbn [Float64.to_int]; try discriminate.
      * intros [= <-]. lia.
      * subst s. intros [= <-].
        destruct e' as [|p|p];
          [pose proof (Z.shiftl_nonneg (Zpos m') 0)
          | pose proof (Z.shiftl_nonneg (Zpos m') (Zpos p))
          | pose proof (Z.shiftr_nonneg (Zpos m') (Zpos p))]; lia.
Qed.

(** The largest C [int]. *)
Definition INT_MAX : Z := 2147483647.

(** A grid height that [cv2.resize] accepts, positive and a C [int], is
    floor(rows * 9 / 10), whatever the number of rows of the viewport. *)
Lemma grid_height_accepted (rows cols h : Z) :
  result (grid_height (rows, cols)) = Ret h ->
  0 < h <= INT_MAX ->
  h = rows * 9 / 10 /\ 0 < rows < 2 ^ 48.
Proof.
  intros Hh Hb.
  destruct (Z.le_gt_cases rows 0) as [H0 | H0].
  { pose proof (grid_height_nonpos rows cols h H0 Hh). lia. }
  destruct (Z.lt_ge_cases rows (2 ^ 48)) as [Hlt | Hge].
  - rewrite (grid_height_exact rows cols) in Hh by lia.
    cbn [result fst] in Hh. injection Hh as <-. lia.
  - pose proof (grid_height_large rows cols h Hge Hh) as H.
    unfold INT_MAX in Hb. change (2 ^ 47) with 140737488355328 in H. lia.
Qed.

(** A frame that [_convert_to_ascii] returns has floor(rows * 0.9) rows
    of min(ASCII_WIDTH, cols) characters for every viewport of fewer
    than 2^48 rows: the rounding of the binary64 product never changes
    the height. *)
Theorem converted_frame_grid_any_terminal (cv : cv2_env) (rows cols : Z)
    (path frame : str) :
  resize_contract cv ->
  0 <= rows < 2 ^ 48 ->
  result (_convert_to_ascii cv (rows, cols) path) = Ret (Some frame) ->
  Z.of_nat (length (splitlines frame)) = rows * 9 / 10 /\
  Forall (fun row => Z.of_nat (length row) = Z.min ASCII_WIDTH cols)
         (splitlines frame).
Proof.
  intros Hcv Hrows H.
  destruct (convert_to_ascii_Some cv _ _ _ Hcv H)
    as (gray & height & Hh & Hpos & Hw & Hlen & Hrow & ->).
  rewrite (grid_height_exact rows cols Hrows) in Hh. cbn [result fst] in Hh.
  injection Hh as <-.
  rewrite splitlines_ascii_text. split.
  - rewrite length_map, Hlen. apply Z2Nat.id. lia.
  - apply List.Forall_forall. intros line Hin.
    apply in_map_iff in Hin as (row & <- & Hin).
    rewrite length_map, (proj1 (List.Forall_forall _ _) Hrow row Hin).
    unfold grid_width in *. cbn [snd] in *. lia.
Qed.

Lemma converted_frame_grid_any_terminal_witness :
  Z.of_nat (length (splitlines (flat_frame 21 80 64%N))) = 24 * 9 / 10 /\
  Forall (fun row => Z.of_nat (length row) = Z.min ASCII_WIDTH 80)
         (splitlines (flat_frame 21 80 64%N)).
Proof.
  apply (converted_frame_grid_any_terminal demo_cv 24 80
           (lit "temp_frames/a.png")).
  - exact demo_cv_contract.
  - lia.
  - vm_compute. reflexivity.
Defined.

(** ** The grid of every converted frame *)

(** The sizes of an OpenCV array are C [int]s: [cv2.resize] returns no
    array of more than [INT_MAX] rows or columns. *)
Definition resize_int_sizes (cv : cv2_env) : Prop :=
  forall (g g' : Mat cv) (w h : Z) (i : interpolation),
    resize cv g (w, h) i = Ret g' -> w <= INT_MAX /\ h <= INT_MAX.

(** A successful conversion has resized a grey image to the grid of the
    viewport. *)
Lemma convert_to_ascii_resized (cv : cv2_env) (ts : Z * Z) (path frame : str) :
  result (_convert_to_ascii cv ts path) = Ret (Some frame) ->
  exists (gray0 gray : Mat cv) (height : Z),
    result (grid_height ts) = Ret height /\
    resize cv gray0 (grid_width ts, height) INTER_AREA = Ret gray /\
    frame = ascii_text (rows_of cv gray).
Proof.
  intros H. unfold _convert_to_ascii in H.
  apply result_try_except_Ret in H as [H | (e & _ & _ & H)].
  2: { rewrite result_bind in H. simpl in H. discriminate H. }
  apply bind_result_Ret in H as (img0 & _ & H).
  apply bind_result_Ret in H as ([img|] & _ & H); [| discriminate H].
  apply bind_result_Ret in H as (img' & _ & H).
  apply bind_result_Ret in H as (gray0 & _ & H).
  apply bind_result_Ret in H as (height & Hh & H).
  apply bind_result_Ret in H as (gray & Hg & H).
  apply bind_result_Ret in H as (text & Ht & H).
  rewrite ascii_rows_eq in Ht. simpl in Ht, H, Hg.
  injection Ht as <-. injection H as <-.
  exists gray0, gray, height. auto.
Qed.

(** The text of a converted frame, for every viewport: the viewport has
    fewer than 2^48 rows, and the frame has floor(rows * 9 / 10) lines
    of min(ASCII_WIDTH, cols) characters. *)
Lemma converted_frame_lines (cv : cv2_env) (rows cols : Z)
    (path frame : str) :
  resize_contract cv -> resize_int_sizes cv ->
  result (_convert_to_ascii cv (rows, cols) path) = Ret (Some frame) ->
  0 < rows /\ 0 < cols /\
  Z.of_nat (length (splitlines frame)) = rows * 9 / 10 /\
  Forall (fun row => Z.of_nat (length row) = Z.min ASCII_WIDTH cols)
         (splitlines frame).
Proof.
  intros Hcv Hint H.
  destruct (convert_to_ascii_resized cv _ _ _ H)
    as (gray0 & gray & height & Hh & Hg & ->).
  destruct (Hcv _ _ _ _ _ Hg) as (Hw & Hpos & Hlen & Hrow).
  destruct (Hint _ _ _ _ _ Hg) as [_ Hmax].
  destruct (grid_height_accepted rows cols height Hh (conj Hpos Hmax))
    as [-> Hrows].
  unfold grid_width in *. cbn [snd] in *.
  rewrite splitlines_ascii_text.
  split; [lia | split; [unfold ASCII_WIDTH in Hw; lia | split]].
  - rewrite length_map, Hlen. apply Z2Nat.id. lia.
  - apply List.Forall_forall. intros line Hin.
    apply in_map_iff in Hin as (row & <- & Hin).
    rewrite length_map, (proj1 (List.Forall_forall _ _) Hrow row Hin). lia.
Qed.

(** C2: a frame that [_convert_to_ascii] returns has exactly
    floor(rows * 0.9) rows, each of min(ASCII_WIDTH, cols) characters,
    for every viewport of [rows] by [cols]: a viewport for which the
    height computed in binary64 would differ from floor(rows * 0.9)
    asks [cv2.resize] for more rows than an array can have, and is not
    converted. *)
Theorem converted_frame_grid (cv : cv2_env) (rows cols : Z)
    (path frame : str) :
  resize_contract cv -> resize_int_sizes cv ->
  result (_convert_to_ascii cv (rows, cols) path) = Ret (Some frame) ->
  Z.of_nat (length (splitlines frame)) = rows * 9 / 10 /\
  Forall (fun row => Z.of_nat (length row) = Z.min ASCII_WIDTH cols)
         (splitlines frame).
Proof.
  intros Hcv Hint H.
  destruct (converted_frame_lines cv rows cols path frame Hcv Hint H)
    as (_ & _ & Hl & Hw).
  split; assumption.
Qed.

(** The stand-in [demo_cv] with the sizes that [cv2.resize] accepts
    limited to C [int]s. *)
Definition int_cv : cv2_env := {|
  Mat := list (list pixel);
  imread := imread demo_cv;
  imdecode_fromfile := imdecode_fromfile demo_cv;
  cvtColor := cvtColor demo_cv;
  split := split demo_cv;
  clahe_apply := clahe_apply demo_cv;
  merge := merge demo_cv;
  filter2D := filter2D demo_cv;
  resize := fun m size i =>
    if (fst size <=? INT_MAX) && (snd size <=? INT_MAX)
    then resize demo_cv m size i
    else Raise OverflowError;
  rows_of := rows_of demo_cv
|}.

Lemma int_cv_contract : resize_contract int_cv /\ resize_int_sizes int_cv.
Proof.
  split; intros g g' w h i; cbn [resize int_cv fst snd];
    destruct ((w <=? INT_MAX) && (h <=? INT_MAX)) eqn:E; try discriminate.
  - apply demo_cv_contract.
  - intros _. apply andb_prop in E as [Hw Hh]. lia.
Qed.

Lemma converted_frame_grid_witness :
  Z.of_nat (length (splitlines (flat_frame 21 80 64%N))) = 24 * 9 / 10 /\
  Forall (fun row => Z.of_nat (length row) = Z.min ASCII_WIDTH 80)
         (splitlines (flat_frame 21 80 64%N)).
Proof.
  apply (converted_frame_grid int_cv 24 80 (lit "temp_frames/a.png")).
  - exact (proj1 int_cv_contract).
  - exact (proj2 int_cv_contract).
  - vm_compute. reflexivity.
Defined.

(** ** A converted frame on the screen *)

Lemma row_calls_from_imap (k : nat) (ls : list str) (max_cols : Z) :
  0 <= max_cols - 1 ->
  row_calls_from k ls max_cols
  = imap (fun i l => EvAddstr (Z.of_nat (k + i)) 0
                              (take (Z.to_nat (max_cols - 1)) l)) ls.
Proof.
  intros Hc. revert k. induction ls as [|l ls IH]; intros k; [reflexivity |].
  cbn [row_calls_from imap]. rewrite py_slice_to_take by exact Hc.
  rewrite Nat.add_0_r. f_equal. rewrite IH. apply imap_ext.
  intros i x _. cbn. do 3 f_equal. lia.
Qed.

(** A converted frame on the screen, for the viewport of any terminal
    and on a terminal where no call raises: the loop body clears the
    screen, draws every line of the frame on its own row, cut to
    [cols - 1] characters, then the status line on the row directly
    below the frame, which is above the last row of the viewport, and
    flushes and polls. The lines have min(ASCII_WIDTH, cols)
    characters and are drawn with min(ASCII_WIDTH, cols - 1): a line
    loses its last character when the viewport has at most ASCII_WIDTH
    columns. *)
Theorem converted_frame_on_screen (cv : cv2_env) (T : terminal)
    (q : pyres (Z * Z)) (total : Z) (idx : nat) (path frame : str) :
  resize_contract cv -> resize_int_sizes cv -> quiet T ->
  result (_convert_to_ascii cv (_get_terminal_size q) path)
  = Ret (Some frame) ->
  let rows := fst (_get_terminal_size q) in
  let cols := snd (_get_terminal_size q) in
  let lines := splitlines frame in
  Z.of_nat (length lines) = rows * 9 / 10 /\
  rows * 9 / 10 < rows - 1 /\
  trace (play_frame T (_get_terminal_size q) total (idx, frame))
  = [EvClear] ++
    imap (fun i l => EvAddstr (Z.of_nat i) 0 (take (Z.to_nat (cols - 1)) l))
         lines ++
    [EvAddstr (rows * 9 / 10) 0
              (take (Z.to_nat (cols - 1)) (status_line idx total));
     EvRefresh; EvGetch] ++
    (if key T idx =? quit_key then [] else [EvSleep 1 FPS]) /\
  Forall (fun l =>
            Z.of_nat (length l) = Z.min ASCII_WIDTH cols /\
            Z.of_nat (length (take (Z.to_nat (cols - 1)) l))
            = Z.min ASCII_WIDTH (cols - 1))
         lines.
Proof.
  intros Hcv Hint HT H rows cols lines.
  assert (Hvp : 24 <= rows /\ 80 <= cols).
  { subst rows cols. destruct q as [[c r]|e]; simpl; lia. }
  assert (Hts : _get_terminal_size q = (rows, cols))
    by (subst rows cols; destruct (_get_terminal_size q); reflexivity).
  rewrite Hts in *.
  destruct (converted_frame_lines cv rows cols path frame Hcv Hint H)
    as (_ & _ & Hl & Hw).
  fold lines in Hl, Hw.
  assert (Hlt : rows * 9 / 10 < rows - 1)
    by (apply Z.div_lt_upper_bound; lia).
  assert (Hd : rows_drawn lines rows = length lines)
    by (unfold rows_drawn; lia).
  split; [exact Hl | split; [exact Hlt | split]].
  - rewrite (play_frame_quiet _ _ _ _ _ HT). unfold shown_frame.
    cbn [fst snd]. fold lines. unfold row_calls, status_call.
    rewrite Hd, firstn_all, row_calls_from_imap by lia.
    rewrite py_slice_to_take by lia.
    replace (Z.min (rows - 1) (Z.of_nat (length lines)))
      with (rows * 9 / 10) by lia.
    reflexivity.
  - eapply List.Forall_impl; [| exact Hw].
    intros l Hlen. split; [exact Hlen |].
    rewrite length_take. unfold ASCII_WIDTH in *. lia.
Qed.

Lemma converted_frame_on_screen_witness :
  Z.of_nat (length (splitlines (flat_frame 21 80 64%N))) = 24 * 9 / 10 /\
  24 * 9 / 10 < 24 - 1.
Proof.
  destruct (converted_frame_on_screen int_cv silent_terminal (Ret (84, 26))
              1 0 (lit "temp_frames/a.png") (flat_frame 21 80 64%N)
              (proj1 int_cv_contract) (proj2 int_cv_contract)
              silent_terminal_quiet)
    as (H1 & H2 & _).
  - vm_compute. reflexivity.
  - split; [exact H1 | exact H2].
Defined.
